(** * The particle simulation engine (services/particleEngine.ts)

    A shallow embedding of [ParticleEngine]: the shape generators of
    [updateTargetShape], the configuration entry points [updateConfig] and
    [setCustomShape], the scroll momentum of [handleScroll] and the per-frame
    step [animate] with its spatial hash and local repulsion.

    Numbers.  JavaScript numbers and the entries of a [Float32Array] are
    idealised as real numbers: rounding, NaN and infinities are not part of
    the model, with one exception.  The number of active particles is
    [Math.floor(MAX_PARTICLES * density)], and there the rounding of the
    product to a double decides which particle is the first hidden one; this
    product is rounded as IEEE 754 prescribes ([roundDouble]).  Integers that
    the source obtains with [Math.floor] or keeps in an [Int32Array] are [Z].

    Buffers.  A typed array is a [list]; a write is stdpp's list insert, which
    like a typed array ignores a write past the end.  A read past the end is
    [undefined] in the source; here [rd] returns 0 and [rdI] returns -1
    there, and the lemmas below work under the length invariant [wf] that
    keeps every index the source computes in range.

    Randomness.  [Math.random()] is an oracle [Math_random : nat -> R]; the
    engine counts the draws made so far, so the n-th call returns
    [Math_random n].  The THREE.Color conversions are oracles as well. *)

From stdpp Require Import base list strings.
From Stdlib Require Import Reals Lra Lia ZArith.
Open Scope R_scope.

(** ** Types *)

(** The declarations of the types module (the file the sources import as
    ./types or ../types): the enum [ShapeType], the type [Point3D] with the
    number fields x, y, z, and the interface [ParticleConfig].  A colour is
    a string: a CSS colour or the literal MULTICOLOR. *)
Inductive ShapeType := NEBULA | HEART | SPHERE | GALAXY | MOBIUS | CUSTOM.

Record Point3D := { p_x : R; p_y : R; p_z : R }.

Record ParticleConfig := {
  density : R;
  spread : R;
  color : string;
  shape : ShapeType
}.

(** [Partial<ParticleConfig>]: an absent key is [None]. *)
Record PartialConfig := {
  new_density : option R;
  new_spread : option R;
  new_color : option string;
  new_shape : option ShapeType
}.

#[global] Instance ShapeType_eq_dec : EqDecision ShapeType.
Proof. solve_decision. Defined.

Definition MAX_PARTICLES : nat := 25 * 1000.

(** The capacity is kept folded in proofs. *)
#[global] Opaque MAX_PARTICLES.

Definition hashSize : Z := 16384.

(** The engine.  [randomCalls] counts the calls of [Math.random()];
    the two rotation fields are [particles.rotation.y] and
    [bgStars.rotation.y]. *)
Record ParticleEngine := {
  positions : list R;
  targetPositions : list R;
  colors : list R;
  hashTable : list Z;
  nextEntry : list Z;
  currentConfig : ParticleConfig;
  customShapePoints : list Point3D;
  scrollVelocity : R;
  isDisposed : bool;
  particlesRotationY : R;
  bgStarsRotationY : R;
  randomCalls : nat
}.

(** ** Typed arrays *)

Definition rd (a : list R) (i : nat) : R := default 0 (a !! i).

Definition rdI (a : list Z) (k : Z) : Z :=
  if (k <? 0)%Z then (-1)%Z else default (-1)%Z (a !! Z.to_nat k).

Definition wrI (a : list Z) (k : Z) (v : Z) : list Z :=
  if (k <? 0)%Z then a else <[Z.to_nat k := v]> a.

(** [attr.setXYZ(i, x, y, z)] and the three writes at [i * 3]. *)
Definition setXYZ (a : list R) (i : nat) (v : R * R * R) : list R :=
  let '(x, y, z) := v in
  <[(i * 3 + 2)%nat := z]> (<[(i * 3 + 1)%nat := y]> (<[(i * 3)%nat := x]> a)).

Definition getXYZ (a : list R) (i : nat) : R * R * R :=
  (rd a (i * 3)%nat, rd a (i * 3 + 1)%nat, rd a (i * 3 + 2)%nat).

(** ** The Math object *)

Definition Math_floor (x : R) : Z := Zfloor x.

Definition Math_abs (x : R) : R := Rabs x.

Definition Math_sqrt (x : R) : R := sqrt x.

(** [Math.cbrt], odd and with [cbrt 0 = 0]. *)
Definition Math_cbrt (x : R) : R :=
  if Rlt_dec 0 x then Rpower x (/ 3)
  else if Rlt_dec x 0 then - Rpower (- x) (/ 3)
  else 0.

(** [Math.pow] on a base that is not negative and a positive exponent, the
    only use the source makes of it. *)
Definition Math_pow (x y : R) : R :=
  if Rlt_dec 0 x then Rpower x y else 0.

(** ToInt32, applied by the bit operators of the hash. *)
Definition toInt32 (z : Z) : Z := ((z + 2 ^ 31) mod 2 ^ 32 - 2 ^ 31)%Z.

(** ** Rounding to a double

    The value of a JavaScript number is a real; an arithmetic operation
    returns the exact result rounded to the nearest double (binary64: 53
    significant bits, ties to the even significand, subnormal numbers below
    2^-1022).  Overflow to an infinity, beyond 2^1024, is not modelled. *)

(** Rounding to the nearest integer, ties to even. *)
Definition roundHalfEven (x : R) : Z :=
  let f := Zfloor x in
  let r := x - IZR f in
  if Rlt_dec r (1 / 2) then f
  else if Rlt_dec (1 / 2) r then (f + 1)%Z
  else if Z.even f then f else (f + 1)%Z.

(** The binade of a positive number: 2^binade <= x < 2^(binade + 1). *)
Definition binade (x : R) : Z := Zfloor (ln x / ln 2).

(** The exponent of the unit in the last place of the doubles of that
    binade. *)
Definition ulpExp (x : R) : Z := (Z.max (binade x) (-1022) - 52)%Z.

Definition roundPos (x : R) : R :=
  IZR (roundHalfEven (x * powerRZ 2 (- ulpExp x))) * powerRZ 2 (ulpExp x).

Definition roundDouble (x : R) : R :=
  if Rlt_dec 0 x then roundPos x
  else if Rlt_dec x 0 then - roundPos (- x)
  else 0.

(** [x * y] on two numbers. *)
Definition mulDouble (x y : R) : R := roundDouble (x * y).

(** The doubles nearest to 0.3 and to 0.29, two positions of the density
    slider: 0x3FD3333333333333 and 0x3FD28F5C28F5C28F. *)
Definition double_0_3 : R := 5404319552844595 / 18014398509481984.

Definition double_0_29 : R := 5224175567749775 / 18014398509481984.

(** ** Random draws and faults *)

(** A computation that draws random numbers and may throw: it maps the
    number of draws made so far to a result and the new count, or to [None]
    when the source would throw a TypeError. *)
Definition Gen (A : Type) : Type := nat -> option (A * nat).

#[global] Instance Gen_ret : MRet Gen := fun A a k => Some (a, k).

#[global] Instance Gen_bind : MBind Gen := fun A B f m k =>
  match m k with
  | Some (a, k') => f a k'
  | None => None
  end.

Definition throw {A} : Gen A := fun _ => None.

(** [for (let i = start; i < start + n; i++) s = body(i, s)], for a body
    that draws no random number and cannot throw. *)
Fixpoint for_range {St : Type} (body : nat -> St -> St) (i n : nat) (s : St)
  : St :=
  match n with
  | O => s
  | S n' => for_range body (S i) n' (body i s)
  end.

(** The same loop for a body in [Gen]. *)
Fixpoint for_each {St : Type} (body : nat -> St -> Gen St) (i n : nat)
    (s : St) : Gen St :=
  match n with
  | O => mret s
  | S n' => s' ← body i s; for_each body (S i) n' s'
  end.

Definition SENTINEL : R * R * R := (9999, 9999, 9999).

#[global] Instance Rlt_decision (x y : R) : Decision (x < y) := Rlt_dec x y.

#[global] Instance Rgt_decision (x y : R) : Decision (x > y) := Rgt_dec x y.

(** ** Record updates *)

Definition set_targets (e : ParticleEngine) (t : list R) (k : nat)
  : ParticleEngine :=
  {| positions := positions e; targetPositions := t; colors := colors e;
     hashTable := hashTable e; nextEntry := nextEntry e;
     currentConfig := currentConfig e;
     customShapePoints := customShapePoints e;
     scrollVelocity := scrollVelocity e; isDisposed := isDisposed e;
     particlesRotationY := particlesRotationY e;
     bgStarsRotationY := bgStarsRotationY e; randomCalls := k |}.

Definition set_colors (e : ParticleEngine) (c : list R) (k : nat)
  : ParticleEngine :=
  {| positions := positions e; targetPositions := targetPositions e;
     colors := c; hashTable := hashTable e; nextEntry := nextEntry e;
     currentConfig := currentConfig e;
     customShapePoints := customShapePoints e;
     scrollVelocity := scrollVelocity e; isDisposed := isDisposed e;
     particlesRotationY := particlesRotationY e;
     bgStarsRotationY := bgStarsRotationY e; randomCalls := k |}.

Definition set_config (e : ParticleEngine) (cfg : ParticleConfig)
  : ParticleEngine :=
  {| positions := positions e; targetPositions := targetPositions e;
     colors := colors e; hashTable := hashTable e; nextEntry := nextEntry e;
     currentConfig := cfg;
     customShapePoints := customShapePoints e;
     scrollVelocity := scrollVelocity e; isDisposed := isDisposed e;
     particlesRotationY := particlesRotationY e;
     bgStarsRotationY := bgStarsRotationY e;
     randomCalls := randomCalls e |}.

Definition set_customShapePoints (e : ParticleEngine) (pts : list Point3D)
  : ParticleEngine :=
  {| positions := positions e; targetPositions := targetPositions e;
     colors := colors e; hashTable := hashTable e; nextEntry := nextEntry e;
     currentConfig := currentConfig e;
     customShapePoints := pts;
     scrollVelocity := scrollVelocity e; isDisposed := isDisposed e;
     particlesRotationY := particlesRotationY e;
     bgStarsRotationY := bgStarsRotationY e;
     randomCalls := randomCalls e |}.

Definition set_scrollVelocity (e : ParticleEngine) (v : R) : ParticleEngine :=
  {| positions := positions e; targetPositions := targetPositions e;
     colors := colors e; hashTable := hashTable e; nextEntry := nextEntry e;
     currentConfig := currentConfig e;
     customShapePoints := customShapePoints e;
     scrollVelocity := v; isDisposed := isDisposed e;
     particlesRotationY := particlesRotationY e;
     bgStarsRotationY := bgStarsRotationY e;
     randomCalls := randomCalls e |}.

Definition set_isDisposed (e : ParticleEngine) (b : bool) : ParticleEngine :=
  {| positions := positions e; targetPositions := targetPositions e;
     colors := colors e; hashTable := hashTable e; nextEntry := nextEntry e;
     currentConfig := currentConfig e;
     customShapePoints := customShapePoints e;
     scrollVelocity := scrollVelocity e; isDisposed := b;
     particlesRotationY := particlesRotationY e;
     bgStarsRotationY := bgStarsRotationY e;
     randomCalls := randomCalls e |}.

(** ** The spatial hash and the repulsion of one particle

    These parts of [animate] draw no random number. *)

Definition cellSize : R := 1.2.

Definition hashMask : Z := (hashSize - 1)%Z.

Definition maxChecks : nat := 10.

Definition minDist : R := 0.7.

Definition pushStrength : R := 0.15.

(** [((xi * 73856093) ^ (yi * 19349663) ^ (zi * 83492791)) & hashMask]
    for the cell of the point (x, y, z). *)
Definition cellHash (x y z : R) : Z :=
  let xi := Math_floor (x / cellSize) in
  let yi := Math_floor (y / cellSize) in
  let zi := Math_floor (z / cellSize) in
  Z.land
    (Z.lxor (Z.lxor (toInt32 (xi * 73856093)) (toInt32 (yi * 19349663)))
       (toInt32 (zi * 83492791)))
    hashMask.

(** One iteration of the insertion loop of [animate]; the state is the pair
    of [hashTable] and [nextEntry]. *)
Definition gridBody (pos : list R) (i : nat) (g : list Z * list Z)
  : list Z * list Z :=
  let '(ht, ne) := g in
  let idx := (i * 3)%nat in
  if decide (rd pos idx > 8000) then g
  else
    let hash := cellHash (rd pos idx) (rd pos (idx + 1)) (rd pos (idx + 2)) in
    let ne' := wrI ne (Z.of_nat i) (rdI ht hash) in
    let ht' := wrI ht hash (Z.of_nat i) in
    (ht', ne').

(** [hashTable.fill(-1); nextEntry.fill(-1)] and the insertion loop. *)
Definition buildGrid (pos : list R) (ht ne : list Z) : list Z * list Z :=
  for_range (gridBody pos) 0 MAX_PARTICLES
    (replicate (length ht) (-1)%Z, replicate (length ne) (-1)%Z).

(** The body of [if (neighbor !== i)] in the traversal of a chain. *)
Definition repelOne (i : nat) (neighbor : Z) (pos : list R) : list R :=
  if decide (neighbor = Z.of_nat i) then pos
  else
    let idx := (i * 3)%nat in
    let nIdx := Z.to_nat (neighbor * 3) in
    let dx := rd pos idx - rd pos nIdx in
    let dy := rd pos (idx + 1) - rd pos (nIdx + 1) in
    let dz := rd pos (idx + 2) - rd pos (nIdx + 2) in
    let distSq := dx * dx + dy * dy + dz * dz in
    if decide (distSq < minDist * minDist ∧ distSq > 0.00001) then
      let dist := Math_sqrt distSq in
      let force := (minDist - dist) / dist * pushStrength in
      let pos1 := <[idx := rd pos idx + dx * force]> pos in
      let pos2 := <[(idx + 1)%nat := rd pos1 (idx + 1) + dy * force]> pos1 in
      <[(idx + 2)%nat := rd pos2 (idx + 2) + dz * force]> pos2
    else pos.

(** [while (neighbor !== -1 && checkCount < maxChecks)]; [checks] is
    [maxChecks - checkCount]. *)
Fixpoint repelChain (checks : nat) (ne : list Z) (i : nat) (neighbor : Z)
    (pos : list R) : list R :=
  match checks with
  | O => pos
  | S c =>
      if decide (neighbor = (-1)%Z) then pos
      else repelChain c ne i (rdI ne neighbor) (repelOne i neighbor pos)
  end.

Section Engine.

(** The n-th result of [Math.random()]. *)
Variable Math_random : nat -> R.

(** [new THREE.Color(css)] as its r, g, b components. *)
Variable Color_parse : string -> R * R * R.

(** [tempColor.setHSL(h, s, l)] as the resulting r, g, b components. *)
Variable Color_setHSL : R -> R -> R -> R * R * R.

(** [Math.random()] returns a number in [0, 1). *)
Hypothesis Math_random_range : forall n, 0 <= Math_random n < 1.

Definition random : Gen R := fun k => Some (Math_random k, S k).

(** *** updateTargetShape: the shape generators *)

Definition sphereTarget : Gen (R * R * R) :=
  u1 ← random;
  let r := 12 * Math_cbrt u1 in
  u2 ← random;
  let theta := u2 * 2 * PI in
  u3 ← random;
  let phi := acos (2 * u3 - 1) in
  mret (r * sin phi * cos theta, r * sin phi * sin theta, r * cos phi).

Definition heartTarget : Gen (R * R * R) :=
  u1 ← random;
  let t := u1 * PI * 2 in
  let scaleH := 0.9 in
  let hx := 16 * (sin t) ^ 3 in
  let hy := 13 * cos t - 5 * cos (2 * t) - 2 * cos (3 * t) - cos (4 * t) in
  rVol ← random;
  u3 ← random;
  mret (hx * scaleH * rVol, hy * scaleH * rVol, (u3 - 0.5) * 10 * rVol).

Definition galaxyTarget (i : nat) : Gen (R * R * R) :=
  let arms := 3%nat in
  let spin := 3.5 in
  u1 ← random;
  let rGal := Math_pow u1 0.7 in
  let radius := rGal * 22 in
  let armIndex := (i mod arms)%nat in
  let armAngle := (INR armIndex / INR arms) * PI * 2 in
  let angleBase := armAngle + rGal * spin in
  let spread := 0.3 + rGal * 0.8 in
  u2 ← random;
  let angleRandom := (u2 - 0.5) * spread in
  let finalAngle := angleBase + angleRandom in
  u3 ← random;
  mret (cos finalAngle * radius, sin finalAngle * radius,
        (u3 - 0.5) * (6 * (1 - rGal * 0.7))).

Definition mobiusTarget : Gen (R * R * R) :=
  u1 ← random;
  let uMob := u1 * PI * 2 in
  u2 ← random;
  let wMob := (u2 - 0.5) * 6 in
  let scale := 18 in
  let depthScale := 4 in
  let xc := scale * sin uMob in
  let yc := scale * sin uMob * cos uMob in
  let zc := depthScale * cos uMob in
  let tx := scale * cos uMob in
  let ty := scale * cos (2 * uMob) in
  let tz := - depthScale * sin uMob in
  let tLen := Math_sqrt (tx * tx + ty * ty + tz * tz) in
  let ntx := tx / tLen in
  let nty := ty / tLen in
  let ntz := tz / tLen in
  let nx0 := - nty in
  let ny0 := ntx in
  let nz0 := 0 in
  let nLen := Math_sqrt (nx0 * nx0 + ny0 * ny0 + nz0 * nz0) in
  let nx := nx0 / nLen in
  let ny := ny0 / nLen in
  let nz := nz0 / nLen in
  let bx := nty * nz - ntz * ny in
  let by_ := ntz * nx - ntx * nz in
  let bz := ntx * ny - nty * nx in
  let twistAngle := uMob / 2 in
  let cosTwist := cos twistAngle in
  let sinTwist := sin twistAngle in
  let offX := nx * cosTwist + bx * sinTwist in
  let offY := ny * cosTwist + by_ * sinTwist in
  let offZ := nz * cosTwist + bz * sinTwist in
  let x := xc + wMob * offX in
  let y := yc + wMob * offY in
  let z := zc + wMob * offZ in
  u3 ← random;
  let thickness := (u3 - 0.5) * 1.5 in
  u4 ← random;
  u5 ← random;
  u6 ← random;
  mret (x + (u4 - 0.5) * 0.5, y + (u5 - 0.5) * 0.5,
        z + ((u6 - 0.5) * 0.5 + thickness)).

(** [this.customShapePoints[i % length]]: the element read is [undefined]
    when the index is out of bounds, and reading [p.x] then throws. *)
Definition customTarget (pts : list Point3D) (i : nat) : Gen (R * R * R) :=
  if (0 <? length pts)%nat then
    match pts !! (i mod length pts)%nat with
    | Some p =>
        u1 ← random;
        u2 ← random;
        u3 ← random;
        mret (p_x p + (u1 - 0.5), p_y p + (u2 - 0.5), p_z p + (u3 - 0.5))
    | None => throw
    end
  else
    let rs := 5 in
    u1 ← random;
    u2 ← random;
    mret ((u1 - 0.5) * rs, (u2 - 0.5) * rs, 0).

Definition nebulaTarget : Gen (R * R * R) :=
  dist ← random;
  u2 ← random;
  let angle := u2 * PI * 2 in
  u3 ← random;
  u4 ← random;
  let rad := if Rlt_dec u3 0.5 then u4 * 5 else u4 * 20 in
  u5 ← random;
  mret (cos angle * rad, sin angle * rad, (u5 - 0.5) * 10).

(** The [switch (shape)] of the loop body. *)
Definition shapeTarget (sh : ShapeType) (pts : list Point3D) (i : nat)
  : Gen (R * R * R) :=
  match sh with
  | SPHERE => sphereTarget
  | HEART => heartTarget
  | GALAXY => galaxyTarget i
  | MOBIUS => mobiusTarget
  | CUSTOM => customTarget pts i
  | NEBULA => nebulaTarget
  end.

(** [Math.floor(MAX_PARTICLES * density)]: the floor of the product as a
    double.  The density is a number: the configuration holds the double
    nearest to the real of the model, which for a real that is a double is
    that real. *)
Definition activeCount (cfg : ParticleConfig) : Z :=
  Math_floor (mulDouble (INR MAX_PARTICLES) (roundDouble (density cfg))).

(** One iteration of the loop of [updateTargetShape]. *)
Definition targetBody (cfg : ParticleConfig) (pts : list Point3D)
    (i : nat) (targets : list R) : Gen (list R) :=
  v ← (if (activeCount cfg <=? Z.of_nat i)%Z then mret SENTINEL
       else shapeTarget (shape cfg) pts i);
  mret (setXYZ targets i v).

Definition regenerate (cfg : ParticleConfig) (pts : list Point3D)
    (targets : list R) : Gen (list R) :=
  for_each (targetBody cfg pts) 0 MAX_PARTICLES targets.

Definition updateTargetShape (e : ParticleEngine) : option ParticleEngine :=
  match regenerate (currentConfig e) (customShapePoints e)
          (targetPositions e) (randomCalls e) with
  | Some (t, k) => Some (set_targets e t k)
  | None => None
  end.

(** *** setCustomShape *)

(** The source has no [isDisposed] test here. *)
Definition setCustomShape (e : ParticleEngine) (points : list Point3D)
  : option ParticleEngine :=
  let e1 := set_customShapePoints e points in
  if decide (shape (currentConfig e1) = CUSTOM) then updateTargetShape e1
  else Some e1.

(** *** updateConfig *)

(** [{ ...this.currentConfig, ...newConfig }]. *)
Definition mergeConfig (cfg : ParticleConfig) (newConfig : PartialConfig)
  : ParticleConfig :=
  {| density := default (density cfg) (new_density newConfig);
     spread := default (spread cfg) (new_spread newConfig);
     color := default (color cfg) (new_color newConfig);
     shape := default (shape cfg) (new_shape newConfig) |}.

(** A string is truthy when it is not empty. *)
Definition truthy (c : string) : bool :=
  match c with
  | EmptyString => false
  | String _ _ => true
  end.

Definition isMulticolor (c : string) : bool := String.eqb c "MULTICOLOR".

(** The two repaint loops of [updateConfig]; [attr] is the attribute built
    on [this.colors], so [attr.setXYZ] writes that array. *)
Definition multicolorBody (i : nat) (cols : list R) : Gen (list R) :=
  h ← random;
  mret (setXYZ cols i (Color_setHSL h 1.0 0.6)).

Definition singleColorBody (c : R * R * R) (i : nat) (cols : list R)
  : Gen (list R) :=
  mret (setXYZ cols i c).

Definition repaint (c : string) (cols : list R) : Gen (list R) :=
  if isMulticolor c then for_each multicolorBody 0 MAX_PARTICLES cols
  else for_each (singleColorBody (Color_parse c)) 0 MAX_PARTICLES cols.

Definition applyColor (newConfig : PartialConfig) (e : ParticleEngine)
  : option ParticleEngine :=
  match new_color newConfig with
  | Some c =>
      if truthy c then
        match repaint c (colors e) (randomCalls e) with
        | Some (cols, k) => Some (set_colors e cols k)
        | None => None
        end
      else Some e
  | None => Some e
  end.

Definition updateConfig (e : ParticleEngine) (newConfig : PartialConfig)
  : option ParticleEngine :=
  if isDisposed e then Some e
  else
    let e1 := set_config e (mergeConfig (currentConfig e) newConfig) in
    e2 ← applyColor newConfig e1;
    if decide (is_Some (new_shape newConfig) ∨ is_Some (new_density newConfig))
    then updateTargetShape e2
    else Some e2.

(** *** handleScroll, with [deltaY] of the wheel event *)

Definition handleScroll (e : ParticleEngine) (deltaY : R) : ParticleEngine :=
  if isDisposed e then e
  else
    let sensitivity := 0.0005 in
    let v := scrollVelocity e + Math_abs deltaY * sensitivity in
    set_scrollVelocity e (if decide (v > 0.3) then 0.3 else v).

(** *** dispose: the flag; the renderer resources are outside the model *)

Definition dispose (e : ParticleEngine) : ParticleEngine :=
  set_isDisposed e true.

(** *** animate *)

(** [scrollVelocity *= 0.96] and the snap to zero. *)
Definition decayVelocity (v : R) : R :=
  let v' := v * 0.96 in
  if decide (Math_abs v' < 0.0001) then 0 else v'.

(** The target the particle is pulled to: the stored target, pushed outward
    and jittered when the hand is open. *)
Definition perturbedTarget (handOpenness spread_ : R) (t : R * R * R)
  : Gen (R * R * R) :=
  let '(tx, ty, tz) := t in
  let explosionFactor := handOpenness * 60 * spread_ in
  let noiseAmt := handOpenness * 0.8 in
  if decide (handOpenness > 0.1) then
    let dist := Math_sqrt (tx * tx + ty * ty + tz * tz) + 0.1 in
    let dirX := tx / dist in
    let dirY := ty / dist in
    let dirZ := tz / dist in
    let tx1 := tx + dirX * explosionFactor in
    let ty1 := ty + dirY * explosionFactor in
    let tz1 := tz + dirZ * explosionFactor in
    u1 ← random;
    u2 ← random;
    u3 ← random;
    mret (tx1 + (u1 - 0.5) * noiseAmt, ty1 + (u2 - 0.5) * noiseAmt,
          tz1 + (u3 - 0.5) * noiseAmt)
  else mret (tx, ty, tz).

(** The three smoothing assignments [positions[idx] += ...]. *)
Definition blend (cohesionSpeed : R) (i : nat) (t : R * R * R) (pos : list R)
  : list R :=
  let '(tx, ty, tz) := t in
  let idx := (i * 3)%nat in
  let pos1 := <[idx := rd pos idx + (tx - rd pos idx) * cohesionSpeed]> pos in
  let pos2 :=
    <[(idx + 1)%nat :=
        rd pos1 (idx + 1) + (ty - rd pos1 (idx + 1)) * cohesionSpeed]> pos1 in
  <[(idx + 2)%nat :=
      rd pos2 (idx + 2) + (tz - rd pos2 (idx + 2)) * cohesionSpeed]> pos2.

(** One iteration of the main loop of [animate]. *)
Definition animateBody (targets : list R) (ht ne : list Z)
    (handOpenness spread_ : R) (i : nat) (pos : list R) : Gen (list R) :=
  let cohesionSpeed := 0.05 + (1 - handOpenness) * 0.1 in
  let idx := (i * 3)%nat in
  let t := getXYZ targets i in
  if decide (rd targets idx > 9000) then mret (<[idx := 9999]> pos)
  else
    t' ← perturbedTarget handOpenness spread_ t;
    let pos3 := blend cohesionSpeed i t' pos in
    let hash :=
      cellHash (rd pos3 idx) (rd pos3 (idx + 1)) (rd pos3 (idx + 2)) in
    mret (repelChain maxChecks ne i (rdI ht hash) pos3).

(** [positions] in the source is [geometry.attributes.position.array], the
    array [this.positions] was wrapped in by [initParticles]. *)
Definition animate (e : ParticleEngine) (handOpenness : R)
  : option ParticleEngine :=
  if isDisposed e then Some e
  else
    let v := decayVelocity (scrollVelocity e) in
    let baseRotationSpeed := 0.002 in
    let currentSpeed := baseRotationSpeed + v in
    let '(ht, ne) := buildGrid (positions e) (hashTable e) (nextEntry e) in
    match for_each
            (animateBody (targetPositions e) ht ne handOpenness
               (spread (currentConfig e)))
            0 MAX_PARTICLES (positions e) (randomCalls e) with
    | Some (pos, k) =>
        Some {| positions := pos; targetPositions := targetPositions e;
                colors := colors e; hashTable := ht; nextEntry := ne;
                currentConfig := currentConfig e;
                customShapePoints := customShapePoints e;
                scrollVelocity := v; isDisposed := isDisposed e;
                particlesRotationY := particlesRotationY e + currentSpeed;
                bgStarsRotationY := bgStarsRotationY e - 0.0003;
                randomCalls := k |}
    | None => None
    end.

(** *** The constructor *)

(** One iteration of the loop of [initParticles]; the state is the pair of
    [positions] and [colors]. *)
Definition initBody (c : string) (i : nat) (b : list R * list R)
  : Gen (list R * list R) :=
  let singleColor := Color_parse (if isMulticolor c then "#ffffff" else c) in
  let '(pos, cols) := b in
  u1 ← random;
  u2 ← random;
  u3 ← random;
  let pos' := setXYZ pos i ((u1 - 0.5) * 100, (u2 - 0.5) * 100,
                            (u3 - 0.5) * 100) in
  if isMulticolor c then
    h ← random;
    mret (pos', setXYZ cols i (Color_setHSL h 1.0 0.6))
  else
    mret (pos', setXYZ cols i singleColor).

(** The draws of [initBackground]: four for each of the 6000 dust points
    and four for each of the 400 stars.  The background geometry itself
    belongs to the renderer. *)
Definition backgroundDraws : nat := 4 * (6 * 1000) + 4 * 400.

Definition initialConfig : ParticleConfig :=
  {| density := 0.5; spread := 0.5; color := "#00ffff"; shape := NEBULA |}.

(** [new ParticleEngine(container, width, height)], started with [k0]
    earlier calls of [Math.random()]. *)
Definition newParticleEngine (k0 : nat) : option ParticleEngine :=
  let zeros := replicate (MAX_PARTICLES * 3) 0 in
  match for_each (initBody (color initialConfig)) 0 MAX_PARTICLES
          (zeros, zeros) k0 with
  | Some ((pos, cols), k) =>
      e ← updateTargetShape
            {| positions := pos; targetPositions := zeros; colors := cols;
               hashTable := replicate (Z.to_nat hashSize) 0%Z;
               nextEntry := replicate MAX_PARTICLES 0%Z;
               currentConfig := initialConfig;
               customShapePoints := [];
               scrollVelocity := 0; isDisposed := false;
               particlesRotationY := 0; bgStarsRotationY := 0;
               randomCalls := k |};
      Some (set_targets e (targetPositions e)
              (randomCalls e + backgroundDraws))
  | None => None
  end.

(** ** initBackground: the points of the two star layers

    One iteration of each of the two loops of [initBackground]: the
    position of a dust point, and the position of a bright star with the
    index it reads in the palette [starColors] of four colours. *)
Definition dustPoint : Gen (R * R * R) :=
  u1 ← random;
  let r := 400 + u1 * 800 in
  u2 ← random;
  '(theta, phi) ←
    (if decide (u2 < 0.7) then
       u3 ← random;
       let theta := u3 * PI * 2 in
       let spread := 0.4 in
       u4 ← random;
       mret (theta, (PI / 2) + (u4 - 0.5) * spread)
     else
       u3 ← random;
       let theta := u3 * PI * 2 in
       u4 ← random;
       mret (theta, acos (2 * u4 - 1)));
  mret (r * sin phi * cos theta, r * sin phi * sin theta, r * cos phi).

Definition starColors_length : Z := 4.

Definition starPoint : Gen (R * R * R * Z) :=
  u1 ← random;
  let r := 200 + u1 * 600 in
  u2 ← random;
  let theta := u2 * PI * 2 in
  u3 ← random;
  let phi := acos (2 * u3 - 1) in
  u4 ← random;
  mret (r * sin phi * cos theta, r * sin phi * sin theta, r * cos phi,
        Math_floor (u4 * IZR starColors_length)).

(** ** Well-formed engines: the sizes the constructor allocates *)

Record wf (e : ParticleEngine) : Prop := {
  wf_positions : length (positions e) = (MAX_PARTICLES * 3)%nat;
  wf_targets : length (targetPositions e) = (MAX_PARTICLES * 3)%nat;
  wf_colors : length (colors e) = (MAX_PARTICLES * 3)%nat;
  wf_hashTable : length (hashTable e) = Z.to_nat hashSize;
  wf_nextEntry : length (nextEntry e) = MAX_PARTICLES
}.

(** ** Vocabulary of the statements *)

(** What the loop of [updateTargetShape] has established after the first
    [i] particles, started with [k0] draws made. *)
Definition targets_upto (cfg : ParticleConfig) (pts : list Point3D)
    (k0 : nat) (i : nat) (t : list R) (k : nat) : Prop :=
  length t = (MAX_PARTICLES * 3)%nat /\ (k0 <= k)%nat /\
  forall j, (j < i)%nat ->
    ((activeCount cfg <= Z.of_nat j)%Z ->
       getXYZ t j = SENTINEL) /\
    ((Z.of_nat j < activeCount cfg)%Z ->
       exists kj kj', (k0 <= kj)%nat /\ (kj' <= k)%nat /\
         shapeTarget (shape cfg) pts j kj = Some (getXYZ t j, kj')).

(** [only_particle i a a']: the buffer [a'] differs from [a] at most in the
    three entries of particle [i]. *)
Definition only_particle (i : nat) (a a' : list R) : Prop :=
  length a' = length a /\
  forall m, (m < i * 3 ∨ i * 3 + 2 < m)%nat -> rd a' m = rd a m.

(** A body is local when iteration [i] changes particle [i] only and never
    decreases the count of draws. *)
Definition local_body (body : nat -> list R -> Gen (list R)) : Prop :=
  forall i a k, exists a' k',
    body i a k = Some (a', k') /\ (k <= k')%nat /\ only_particle i a a'.

(** The squared distance [distSq] the traversal computes between particle
    [i] and the chain entry [neighbor]. *)
Definition neighborDistSq (pos : list R) (i : nat) (neighbor : Z) : R :=
  let dx := rd pos (i * 3) - rd pos (Z.to_nat (neighbor * 3)) in
  let dy := rd pos (i * 3 + 1) - rd pos (Z.to_nat (neighbor * 3) + 1) in
  let dz := rd pos (i * 3 + 2) - rd pos (Z.to_nat (neighbor * 3) + 2) in
  dx * dx + dy * dy + dz * dz.

(** Every entry of a buffer lies in [-50, 50], as after [initParticles]. *)
Definition within50 (a : list R) : Prop := forall m, -50 <= rd a m <= 50.

(** ** Concrete engines *)

(** A random source with values in (0, 1/2] that never repeats a value,
    and stand-ins for the two colour conversions. *)
Definition harmonic (n : nat) : R := / (INR n + 2).

Definition white (c : string) : R * R * R := (1, 1, 1).

Definition grey (h s l : R) : R * R * R := (l, l, l).

(** The buffers as [initParticles] allocates them, with a given
    configuration, target buffer and custom point sequence. *)
Definition freshEngine (cfg : ParticleConfig) (targets : list R)
    (pts : list Point3D) : ParticleEngine :=
  {| positions := replicate (MAX_PARTICLES * 3) 0;
     targetPositions := targets;
     colors := replicate (MAX_PARTICLES * 3) 0;
     hashTable := replicate (Z.to_nat hashSize) 0%Z;
     nextEntry := replicate MAX_PARTICLES 0%Z;
     currentConfig := cfg;
     customShapePoints := pts;
     scrollVelocity := 0; isDisposed := false;
     particlesRotationY := 0; bgStarsRotationY := 0;
     randomCalls := 0 |}.

Definition withShape (sh : ShapeType) : ParticleConfig :=
  {| density := 0.5; spread := 0.5; color := "#00ffff"; shape := sh |}.

Definition blankEngine : ParticleEngine :=
  freshEngine initialConfig (replicate (MAX_PARTICLES * 3) 0) [].

(** Every particle hidden: all targets at the sentinel. *)
Definition hiddenEngine : ParticleEngine :=
  freshEngine initialConfig (replicate (MAX_PARTICLES * 3) 9999) [].

(** Every particle parked at x = 9999 with its target at the origin: the
    state of a particle that was hidden and has just become active. *)
Definition parkedEngine : ParticleEngine :=
  {| positions := replicate (MAX_PARTICLES * 3) 9999;
     targetPositions := replicate (MAX_PARTICLES * 3) 0;
     colors := replicate (MAX_PARTICLES * 3) 0;
     hashTable := replicate (Z.to_nat hashSize) 0%Z;
     nextEntry := replicate MAX_PARTICLES 0%Z;
     currentConfig := initialConfig;
     customShapePoints := [];
     scrollVelocity := 0;
     isDisposed := false;
     particlesRotationY := 0;
     bgStarsRotationY := 0;
     randomCalls := 0 |}.

(** Two particles half a unit apart, closer than [minDist]. *)
Definition twoParticles : list R := [0; 0; 0; 0.5; 0; 0].

(** The initial configuration with another density. *)
Definition withDensity (d : R) : ParticleConfig :=
  {| density := d; spread := 0.5; color := "#00ffff"; shape := NEBULA |}.

(** A partial configuration with a colour only. *)
Definition onlyColor (c : string) : PartialConfig :=
  {| new_density := None; new_spread := None; new_color := Some c;
     new_shape := None |}.

Definition onlySpread : PartialConfig :=
  {| new_density := None; new_spread := Some 1; new_color := None;
     new_shape := None |}.

Definition onlyShape (sh : ShapeType) : PartialConfig :=
  {| new_density := None; new_spread := None; new_color := None;
     new_shape := Some sh |}.

(** ** A client of the engine

    The public methods a caller can invoke on an engine, and a sequence of
    such calls made one after the other on the same engine. *)
Inductive Call :=
  | CallAnimate (handOpenness : R)
  | CallUpdateConfig (newConfig : PartialConfig)
  | CallSetCustomShape (points : list Point3D)
  | CallHandleScroll (deltaY : R)
  | CallDispose.

Definition call (e : ParticleEngine) (c : Call) : option ParticleEngine :=
  match c with
  | CallAnimate o => animate e o
  | CallUpdateConfig p => updateConfig e p
  | CallSetCustomShape pts => setCustomShape e pts
  | CallHandleScroll d => Some (handleScroll e d)
  | CallDispose => Some (dispose e)
  end.

Fixpoint calls (e : ParticleEngine) (cs : list Call) : option ParticleEngine :=
  match cs with
  | [] => Some e
  | c :: cs' => e' ← call e c; calls e' cs'
  end.

(** The targets beyond the active count are at the sentinel. *)
Definition hidden_at_sentinel (e : ParticleEngine) : Prop :=
  forall i, (i < MAX_PARTICLES)%nat ->
    (activeCount (currentConfig e) <= Z.of_nat i)%Z ->
    getXYZ (targetPositions e) i = SENTINEL.

(** What every call keeps of an engine that is in use. *)
Definition running (e : ParticleEngine) : Prop :=
  wf e /\ 0 <= scrollVelocity e <= 0.3 /\ hidden_at_sentinel e.

(** [{}], the partial that carries no key. *)
Definition emptyPartial : PartialConfig :=
  {| new_density := None; new_spread := None; new_color := None;
     new_shape := None |}.

(** The number of particles among the first [n] that [animate] does not
    treat as hidden: those whose target has x at most 9000. *)
Definition visibleCount (targets : list R) (n : nat) : nat :=
  length (filter (fun i => ¬ rd targets (i * 3) > 9000) (seq 0 n)).

(** ** Vocabulary for the spatial hash *)

(** The entries reached from [v] by following [nextEntry], at most [fuel]
    of them. *)
Fixpoint chainFrom (fuel : nat) (ne : list Z) (v : Z) : list Z :=
  match fuel with
  | O => []
  | S f => if decide (v = (-1)%Z) then [] else v :: chainFrom f ne (rdI ne v)
  end.

(** The bucket of particle [i], from its position in [pos]. *)
Definition particleHash (pos : list R) (i : nat) : Z :=
  cellHash (rd pos (i * 3)) (rd pos (i * 3 + 1)) (rd pos (i * 3 + 2)).

(** The particles among the first [n] that the insertion loop puts into
    bucket [h]: those it does not skip (x at most 8000) whose hash is [h]. *)
Definition bucketMembers (pos : list R) (h : Z) (n : nat) : list nat :=
  filter (fun i => ¬ rd pos (i * 3) > 8000 /\ particleHash pos i = h)
    (seq 0 n).

(** What the insertion loop has built after the first [i] particles. *)
Definition grid_upto (pos : list R) (H N : nat) (i : nat)
    (g : list Z * list Z) : Prop :=
  length g.1 = H /\ length g.2 = N /\
  (forall h, rdI g.1 h = (-1)%Z ∨ (0 <= rdI g.1 h < Z.of_nat i)%Z) /\
  (forall j, rdI g.2 j = (-1)%Z ∨ (0 <= rdI g.2 j < j)%Z) /\
  (forall h fuel, (i <= fuel)%nat ->
     chainFrom fuel g.2 (rdI g.1 h)
       = map Z.of_nat (reverse (bucketMembers pos h i))).

(** ** components/DrawingCanvas: the drawing state

    [pointsRef.current] with the two pieces of React state the handlers
    read.  The canvas size [w], [h] and the pointer position [x], [y]
    relative to the canvas are inputs. *)
Record DrawingState := {
  isDrawing : bool;
  brushSize : R;
  pointsRef : list Point3D
}.

(** The state when the component mounts. *)
Definition initialDrawing : DrawingState :=
  {| isDrawing := false; brushSize := 5; pointsRef := [] |}.

(** One iteration of the loop of [addPoint]: the pushed point. *)
Definition scatterBody (x3d y3d scatter : R) (i : nat) (pts : list Point3D)
  : Gen (list Point3D) :=
  u1 ← random;
  u2 ← random;
  u3 ← random;
  mret (pts ++ [{| p_x := x3d + (u1 - 0.5) * scatter;
                   p_y := y3d + (u2 - 0.5) * scatter;
                   p_z := (u3 - 0.5) * 5 |}]).

Definition addPoint (w h : R) (brush : R) (x y : R) (pts : list Point3D)
  : Gen (list Point3D) :=
  let x3d := (x / w) * 40 - 20 in
  let y3d := - ((y / h) * 40 - 20) in
  let density := Z.max 1 (Math_floor (brush / 2)) in
  let scatter := brush * 0.05 in
  for_each (scatterBody x3d y3d scatter) 0 (Z.to_nat density) pts.

Definition startDrawing (w h x y : R) (st : DrawingState) : Gen DrawingState :=
  pts ← addPoint w h (brushSize st) x y (pointsRef st);
  mret {| isDrawing := true; brushSize := brushSize st; pointsRef := pts |}.

Definition draw (w h x y : R) (st : DrawingState) : Gen DrawingState :=
  if isDrawing st then
    pts ← addPoint w h (brushSize st) x y (pointsRef st);
    mret {| isDrawing := true; brushSize := brushSize st; pointsRef := pts |}
  else mret st.

Definition endDrawing (st : DrawingState) : DrawingState :=
  {| isDrawing := false; brushSize := brushSize st;
     pointsRef := pointsRef st |}.

Definition handleClear (st : DrawingState) : DrawingState :=
  {| isDrawing := isDrawing st; brushSize := brushSize st; pointsRef := [] |}.

(** [handleConfirm]: [Some pts] is the call [onComplete(pts)], [None] the
    call [onCancel()]. *)
Definition handleConfirm (st : DrawingState) : option (list Point3D) :=
  if (5 <? length (pointsRef st))%nat then Some (pointsRef st) else None.

(** A stroke: a pointer press at the first position and a move to each of
    the others. *)
Fixpoint moves (w h : R) (path : list (R * R)) (st : DrawingState)
  : Gen DrawingState :=
  match path with
  | [] => mret st
  | (x, y) :: path' => st' ← draw w h x y st; moves w h path' st'
  end.

Definition stroke (w h : R) (x y : R) (path : list (R * R))
    (st : DrawingState) : Gen DrawingState :=
  st' ← startDrawing w h x y st; moves w h path st'.

(** ** services/handTracking: detectHand

    [ready] says whether the landmarker has been created, [results] is
    [results.landmarks]: one list of landmarks for each detected hand.  A
    landmark is read through its x and y only.  The outer [None] is a
    TypeError: a landmark the code reads is missing. *)
Record Landmark := { lm_x : R; lm_y : R }.

Record HandData := {
  isOpen : bool;
  openness : R;
  hand_x : R;
  hand_y : R
}.

(** [Math.sqrt(Math.pow(a.x - b.x, 2) + Math.pow(a.y - b.y, 2))]. *)
Definition planarDist (a b : Landmark) : R :=
  Math_sqrt ((lm_x a - lm_x b) ^ 2 + (lm_y a - lm_y b) ^ 2).

Definition tips : list nat := [4; 8; 12; 16; 20]%nat.

(** The [forEach] over [tips], adding up the distances to the wrist. *)
Fixpoint totalTipDist (landmarks : list Landmark) (wrist : Landmark)
    (ts : list nat) (acc : R) : option R :=
  match ts with
  | [] => Some acc
  | tipIdx :: ts' =>
      tip ← landmarks !! tipIdx;
      totalTipDist landmarks wrist ts' (acc + planarDist tip wrist)
  end.

Definition clampOpenness (rawOpenness : R) : R :=
  Rmin (Rmax ((rawOpenness - 0.8) / 1.4) 0) 1.

Definition detectHand (ready : bool) (results : list (list Landmark))
  : option (option HandData) :=
  if negb ready then Some None
  else
    match results with
    | [] => Some None
    | landmarks :: _ =>
        wrist ← landmarks !! 0%nat;
        mcp ← landmarks !! 9%nat;
        let handSize := planarDist mcp wrist in
        total ← totalTipDist landmarks wrist tips 0;
        let avgDist := total / 5 in
        let rawOpenness := avgDist / handSize in
        let clampedOpenness := clampOpenness rawOpenness in
        Some (Some {| isOpen := bool_decide (clampedOpenness > 0.5);
                      openness := clampedOpenness;
                      hand_x := lm_x mcp; hand_y := lm_y mcp |})
    end.

(** A similarity of the image plane without rotation: scale by [s], then
    shift by [(dx, dy)]. *)
Definition moveLandmark (s dx dy : R) (l : Landmark) : Landmark :=
  {| lm_x := s * lm_x l + dx; lm_y := s * lm_y l + dy |}.

(** A hand for the examples: the wrist at the origin, every other
    landmark one unit above it. *)
Definition fistHand : list Landmark :=
  {| lm_x := 0; lm_y := 0 |} :: replicate 20 {| lm_x := 0; lm_y := 1 |}.

(** ** App: the glue between the controls, the tracker and the engine *)

(** A whole configuration passed where a partial one is expected: every
    key is present. *)
Definition asPartial (cfg : ParticleConfig) : PartialConfig :=
  {| new_density := Some (density cfg); new_spread := Some (spread cfg);
     new_color := Some (color cfg); new_shape := Some (shape cfg) |}.

(** [handleConfigChange] and the effect that follows a change of
    [config]: [engine.updateConfig(config)]. *)
Definition handleConfigChange (config : ParticleConfig)
    (newConf : PartialConfig) : ParticleConfig :=
  mergeConfig config newConf.

Definition syncConfig (e : ParticleEngine) (config : ParticleConfig)
  : option ParticleEngine :=
  updateConfig e (asPartial config).

(** [handleDrawComplete], with the effect on [config] run after it. *)
Definition handleDrawComplete (e : ParticleEngine) (config : ParticleConfig)
    (points : list Point3D) : option (ParticleEngine * ParticleConfig) :=
  e1 ← setCustomShape e points;
  let config' :=
    {| density := density config; spread := spread config;
       color := color config; shape := CUSTOM |} in
  e2 ← syncConfig e1 config';
  Some (e2, config').

(** The openness [loop] hands to [animate] in one tick, if it calls it:
    the detected one, the idle value at time [now] when no hand is seen,
    or 0.5 while the video is not ready.  [hasEngine] is
    [engineRef.current], [error] whether the error message is set. *)
Definition idleOpenness (now : R) : R := (sin (now / 1000) + 1) * 0.2.

Definition loopOpenness (videoReady loading error hasEngine : bool)
    (handData : option HandData) (now : R) : option R :=
  if videoReady && negb loading && negb error then
    let openVal :=
      match handData with
      | Some d => openness d
      | None => idleOpenness now
      end in
    if hasEngine then Some openVal else None
  else if hasEngine && negb loading then Some 0.5
  else None.

(** ** The drawing canvas *)

(** A point that [addPoint] pushes for the pointer position whose world
    coordinates are [(x3d, y3d)], with brush size [brush]. *)
Definition scattered (x3d y3d brush : R) (p : Point3D) : Prop :=
  Rabs (p_x p - x3d) <= brush * 0.025 /\
  Rabs (p_y p - y3d) <= brush * 0.025 /\
  Rabs (p_z p) <= 2.5.

(** ** Finite targets

    The largest magnitude of a coordinate of a point and of the points of a
    sequence, and with it a bound on the coordinates the generator of each
    shape produces. *)
Definition pointNorm (p : Point3D) : R :=
  Rmax (Rabs (p_x p)) (Rmax (Rabs (p_y p)) (Rabs (p_z p))).

Definition pointsBound (pts : list Point3D) : R :=
  foldr (fun p b => Rmax (pointNorm p) b) 0 pts.

Definition targetBound (sh : ShapeType) (pts : list Point3D) : R :=
  match sh with
  | NEBULA => 20
  | HEART => 18.9
  | SPHERE => 12
  | GALAXY => 22
  | MOBIUS => 24.25
  | CUSTOM => pointsBound pts + 2.5
  end.

(** Every coordinate of [v] has magnitude at most [b]. *)
Definition coordsWithin (b : R) (v : R * R * R) : Prop :=
  Rabs v.1.1 <= b /\ Rabs v.1.2 <= b /\ Rabs v.2 <= b.

(** * Properties *)

Lemma MAX_PARTICLES_eq : MAX_PARTICLES = (25 * 1000)%nat.
Proof. with_strategy transparent [MAX_PARTICLES] reflexivity. Qed.

(** ** Rounding to a double *)

Lemma roundHalfEven_cases (x : R) :
  roundHalfEven x = Zfloor x \/ roundHalfEven x = (Zfloor x + 1)%Z.
Proof.
  unfold roundHalfEven.
  destruct (Rlt_dec _ _); [by left|].
  destruct (Rlt_dec _ _); [by right|].
  destruct (Z.even _); [by left|by right].
Qed.

Lemma roundHalfEven_IZR (n : Z) : roundHalfEven (IZR n) = n.
Proof.
  unfold roundHalfEven. rewrite ZfloorZ.
  destruct (Rlt_dec _ _) as [_|Hn]; [reflexivity|]. exfalso. apply Hn. lra.
Qed.

Lemma roundHalfEven_le (x y : R) :
  x <= y -> (roundHalfEven x <= roundHalfEven y)%Z.
Proof.
  intros Hxy. pose proof (Zfloor_le x y Hxy) as Hf.
  destruct (Z.eq_dec (Zfloor x) (Zfloor y)) as [He|Hne].
  - unfold roundHalfEven. rewrite <- He.
    destruct (Rlt_dec (x - IZR (Zfloor x)) (1 / 2)) as [Hx1|Hx1].
    + destruct (Rlt_dec (y - _) _); [lia|].
      destruct (Rlt_dec _ (y - _)); [lia|]. destruct (Z.even _); lia.
    + destruct (Rlt_dec (y - IZR (Zfloor x)) (1 / 2)) as [Hy1|Hy1]; [lra|].
      destruct (Rlt_dec (1 / 2) (x - IZR (Zfloor x))) as [Hx2|Hx2].
      * destruct (Rlt_dec (1 / 2) (y - _)); [lia|lra].
      * destruct (Rlt_dec (1 / 2) (y - _)); destruct (Z.even _); lia.
  - destruct (roundHalfEven_cases x) as [-> | ->];
      destruct (roundHalfEven_cases y) as [-> | ->]; lia.
Qed.

Lemma roundHalfEven_near (x : R) : Rabs (IZR (roundHalfEven x) - x) <= 1 / 2.
Proof.
  pose proof (Zfloor_bound x) as [Hlo Hhi]. unfold roundHalfEven.
  destruct (Rlt_dec _ _) as [H1|H1].
  { apply Rabs_le. lra. }
  destruct (Rlt_dec _ _) as [H2|H2].
  { rewrite plus_IZR. apply Rabs_le. lra. }
  destruct (Z.even _); [|rewrite plus_IZR]; apply Rabs_le; lra.
Qed.

Lemma ln2_pos : 0 < ln 2.
Proof. pose proof ln_lt_2. lra. Qed.

Lemma pow2_pos (z : Z) : 0 < powerRZ 2 z.
Proof. apply powerRZ_lt. lra. Qed.

Lemma pow2_exp (z : Z) : powerRZ 2 z = exp (IZR z * ln 2).
Proof. rewrite powerRZ_Rpower by lra. reflexivity. Qed.

Lemma pow2_le (n m : Z) : (n <= m)%Z -> powerRZ 2 n <= powerRZ 2 m.
Proof.
  intros H. rewrite !pow2_exp. apply IZR_le in H. pose proof ln2_pos.
  destruct (Req_dec (IZR n) (IZR m)) as [->|Hne]; [lra|].
  left. apply exp_increasing. nra.
Qed.

Lemma pow2_lt (n m : Z) : (n < m)%Z -> powerRZ 2 n < powerRZ 2 m.
Proof.
  intros H. rewrite !pow2_exp. apply IZR_lt in H. pose proof ln2_pos.
  apply exp_increasing. nra.
Qed.

Lemma pow2_add (n m : Z) : powerRZ 2 (n + m) = powerRZ 2 n * powerRZ 2 m.
Proof. apply powerRZ_add. lra. Qed.

Lemma pow2_IZR (z : Z) : (0 <= z)%Z -> powerRZ 2 z = IZR (2 ^ z).
Proof.
  intros Hz. rewrite <- (Z2Nat.id z Hz) at 1. rewrite <- pow_powerRZ.
  rewrite <- (Z2Nat.id z Hz) at 2. rewrite <- pow_IZR. reflexivity.
Qed.

Lemma binade_bounds (x : R) :
  0 < x -> powerRZ 2 (binade x) <= x < powerRZ 2 (binade x + 1).
Proof.
  intros Hx. unfold binade. pose proof ln2_pos as H2.
  pose proof (Zfloor_bound (ln x / ln 2)) as [Hlo Hhi].
  assert (Hq : ln x = ln x / ln 2 * ln 2) by (field; lra).
  rewrite !pow2_exp, plus_IZR. rewrite <- (exp_ln x Hx) at 2 3.
  split.
  - destruct (Req_dec (IZR (Zfloor (ln x / ln 2)) * ln 2) (ln x)) as [->|Hne];
      [lra|].
    left. apply exp_increasing. nra.
  - apply exp_increasing. nra.
Qed.

Lemma binade_eq (b : Z) (x : R) :
  powerRZ 2 b <= x < powerRZ 2 (b + 1) -> binade x = b.
Proof.
  intros [Hlo Hhi]. pose proof (pow2_pos b) as Hb.
  assert (Hx : 0 < x) by lra. pose proof (binade_bounds x Hx) as [Glo Ghi].
  destruct (Z.lt_trichotomy (binade x) b) as [Hlt|[Heq|Hgt]]; [|done|].
  - pose proof (pow2_le (binade x + 1) b ltac:(lia)). lra.
  - pose proof (pow2_le (b + 1) (binade x) ltac:(lia)). lra.
Qed.

Lemma binade_le (x y : R) : 0 < x -> x <= y -> (binade x <= binade y)%Z.
Proof.
  intros Hx Hxy. assert (Hy : 0 < y) by lra.
  pose proof (binade_bounds x Hx) as [Hlo _].
  pose proof (binade_bounds y Hy) as [_ Hhi].
  destruct (Z_lt_le_dec (binade y) (binade x)) as [Hlt|Hle]; [|done].
  pose proof (pow2_le (binade y + 1) (binade x) ltac:(lia)). lra.
Qed.

(** The scaled value lies below 2^53, and at or above 2^52 for a normal
    number. *)
Lemma scaled_bounds (x : R) :
  0 < x ->
  0 < x * powerRZ 2 (- ulpExp x) < powerRZ 2 53 /\
  ((-1022 < binade x)%Z -> powerRZ 2 52 <= x * powerRZ 2 (- ulpExp x)).
Proof.
  intros Hx. pose proof (binade_bounds x Hx) as [Hlo Hhi].
  pose proof (pow2_pos (- ulpExp x)) as Hs.
  split; [split; [nra|]|].
  - replace 53%Z with ((Z.max (binade x) (-1022) + 1) + - ulpExp x)%Z
      by (unfold ulpExp; lia).
    rewrite pow2_add.
    pose proof (pow2_le (binade x + 1) (Z.max (binade x) (-1022) + 1)
                  ltac:(lia)).
    apply Rmult_lt_compat_r; lra.
  - intros Hn.
    replace 52%Z with (binade x + - ulpExp x)%Z by (unfold ulpExp; lia).
    rewrite pow2_add. apply Rmult_le_compat_r; lra.
Qed.

Lemma roundPos_bounds (x : R) :
  0 < x ->
  0 <= roundPos x <= powerRZ 2 (ulpExp x + 53) /\
  ((-1022 < binade x)%Z -> powerRZ 2 (binade x) <= roundPos x).
Proof.
  intros Hx. destruct (scaled_bounds x Hx) as [[Hs0 Hs1] Hs2].
  unfold roundPos. pose proof (pow2_pos (ulpExp x)) as Hu.
  set (s := x * powerRZ 2 (- ulpExp x)) in *.
  assert (H0 : (0 <= roundHalfEven s)%Z).
  { rewrite <- (roundHalfEven_IZR 0). apply roundHalfEven_le. lra. }
  assert (H53 : (roundHalfEven s <= 2 ^ 53)%Z).
  { rewrite <- (roundHalfEven_IZR (2 ^ 53)). apply roundHalfEven_le.
    rewrite <- pow2_IZR by lia. lra. }
  apply IZR_le in H0, H53. rewrite <- pow2_IZR in H53 by lia.
  split; [split|].
  - apply Rmult_le_pos; lra.
  - rewrite Z.add_comm, pow2_add. apply Rmult_le_compat_r; lra.
  - intros Hn. specialize (Hs2 Hn).
    assert (H52 : (2 ^ 52 <= roundHalfEven s)%Z).
    { rewrite <- (roundHalfEven_IZR (2 ^ 52)). apply roundHalfEven_le.
      rewrite <- pow2_IZR by lia. lra. }
    apply IZR_le in H52. rewrite <- pow2_IZR in H52 by lia.
    replace (binade x) with (52 + ulpExp x)%Z at 1 by (unfold ulpExp; lia).
    rewrite pow2_add. apply Rmult_le_compat_r; lra.
Qed.

Lemma roundPos_le (x y : R) : 0 < x -> x <= y -> roundPos x <= roundPos y.
Proof.
  intros Hx Hxy. assert (Hy : 0 < y) by lra.
  pose proof (binade_le x y Hx Hxy) as Hb.
  destruct (Z.eq_dec (ulpExp x) (ulpExp y)) as [He|Hne].
  - unfold roundPos. rewrite <- He.
    pose proof (pow2_pos (ulpExp x)). pose proof (pow2_pos (- ulpExp x)).
    apply Rmult_le_compat_r; [lra|]. apply IZR_le, roundHalfEven_le.
    apply Rmult_le_compat_r; lra.
  - assert (Hlt : (ulpExp x < ulpExp y)%Z) by (unfold ulpExp in *; lia).
    destruct (roundPos_bounds x Hx) as [[_ Hhi] _].
    destruct (roundPos_bounds y Hy) as [_ Hlo].
    specialize (Hlo ltac:(unfold ulpExp in *; lia)).
    pose proof (pow2_le (ulpExp x + 53) (binade y)
                  ltac:(unfold ulpExp in *; lia)).
    lra.
Qed.

Lemma roundDouble_le (x y : R) : x <= y -> roundDouble x <= roundDouble y.
Proof.
  intros Hxy. unfold roundDouble.
  destruct (Rlt_dec 0 x) as [Hx|Hx].
  - destruct (Rlt_dec 0 y) as [Hy|Hy]; [|lra]. by apply roundPos_le.
  - destruct (Rlt_dec x 0) as [Hx'|Hx'].
    + pose proof (roundPos_bounds (- x) ltac:(lra)) as [[H0 _] _].
      destruct (Rlt_dec 0 y) as [Hy|Hy].
      * pose proof (roundPos_bounds y Hy) as [[G0 _] _]. lra.
      * destruct (Rlt_dec y 0) as [Hy'|Hy']; [|lra].
        pose proof (roundPos_le (- y) (- x) ltac:(lra) ltac:(lra)). lra.
    + destruct (Rlt_dec 0 y) as [Hy|Hy].
      * pose proof (roundPos_bounds y Hy) as [[G0 _] _]. lra.
      * destruct (Rlt_dec y 0); lra.
Qed.

Lemma roundDouble_opp (x : R) : roundDouble (- x) = - roundDouble x.
Proof.
  unfold roundDouble.
  destruct (Rlt_dec 0 x), (Rlt_dec x 0), (Rlt_dec 0 (- x)), (Rlt_dec (- x) 0);
    try lra.
  rewrite Ropp_involutive. lra.
Qed.

(** Integers below 2^53 in magnitude are doubles. *)
Lemma roundPos_int (n : Z) : (0 < n < 2 ^ 53)%Z -> roundPos (IZR n) = IZR n.
Proof.
  intros [Hn0 Hn1]. assert (Hx : 0 < IZR n) by (by apply IZR_lt).
  pose proof (binade_bounds (IZR n) Hx) as [Hlo Hhi].
  assert (Hb0 : (0 <= binade (IZR n))%Z).
  { destruct (Z_lt_le_dec (binade (IZR n)) 0) as [Hlt|]; [|done].
    pose proof (pow2_le (binade (IZR n) + 1) 0 ltac:(lia)) as Hp.
    rewrite powerRZ_O in Hp.
    assert (1 <= IZR n) by (apply IZR_le; lia). lra. }
  assert (Hb1 : (binade (IZR n) <= 52)%Z).
  { destruct (Z_lt_le_dec 52 (binade (IZR n))) as [Hlt|]; [|lia].
    pose proof (pow2_le 53 (binade (IZR n)) ltac:(lia)) as Hp.
    rewrite (pow2_IZR 53) in Hp by lia. apply IZR_lt in Hn1. lra. }
  unfold roundPos.
  assert (He : ulpExp (IZR n) = (binade (IZR n) - 52)%Z)
    by (unfold ulpExp; lia).
  rewrite He.
  rewrite (pow2_IZR (- (binade (IZR n) - 52))) by lia.
  rewrite <- mult_IZR, roundHalfEven_IZR, mult_IZR.
  rewrite <- pow2_IZR by lia. rewrite Rmult_assoc, <- pow2_add.
  replace (- (binade (IZR n) - 52) + (binade (IZR n) - 52))%Z with 0%Z by lia.
  rewrite powerRZ_O. lra.
Qed.

Lemma roundDouble_int (n : Z) :
  (- 2 ^ 53 < n < 2 ^ 53)%Z -> roundDouble (IZR n) = IZR n.
Proof.
  intros Hn. unfold roundDouble.
  destruct (Rlt_dec 0 (IZR n)) as [Hp|Hp].
  - apply lt_IZR in Hp. apply roundPos_int. lia.
  - destruct (Rlt_dec (IZR n) 0) as [Hm|Hm].
    + apply lt_IZR in Hm. rewrite <- opp_IZR, roundPos_int by lia.
      rewrite opp_IZR. lra.
    + lra.
Qed.

(** Rounding moves a number by at most half a unit in the last place. *)
Lemma roundPos_near (x : R) :
  0 < x -> Rabs (roundPos x - x) <= powerRZ 2 (ulpExp x - 1).
Proof.
  intros Hx. unfold roundPos.
  pose proof (roundHalfEven_near (x * powerRZ 2 (- ulpExp x))) as Hn.
  pose proof (pow2_pos (ulpExp x)) as Hu.
  set (s := x * powerRZ 2 (- ulpExp x)) in *.
  assert (Hxs : x = s * powerRZ 2 (ulpExp x)).
  { unfold s. rewrite Rmult_assoc, <- pow2_add.
    replace (- ulpExp x + ulpExp x)%Z with 0%Z by lia.
    rewrite powerRZ_O. lra. }
  rewrite Hxs at 2.
  replace (IZR (roundHalfEven s) * powerRZ 2 (ulpExp x)
           - s * powerRZ 2 (ulpExp x))
    with ((IZR (roundHalfEven s) - s) * powerRZ 2 (ulpExp x)) by ring.
  rewrite Rabs_mult, (Rabs_pos_eq (powerRZ 2 (ulpExp x))) by lra.
  replace (ulpExp x - 1)%Z with (-1 + ulpExp x)%Z by lia.
  rewrite pow2_add. replace (powerRZ 2 (-1)) with (1 / 2) by (simpl; lra).
  apply Rmult_le_compat_r; lra.
Qed.

(** The floor of a rounded product is the exact floor, or one more when the
    product was rounded up to an integer. *)
Lemma Zfloor_roundDouble (x : R) :
  Rabs x < 4503599627370496 ->
  Zfloor (roundDouble x) = Zfloor x \/
  (Zfloor (roundDouble x) = (Zfloor x + 1)%Z /\
   roundDouble x = IZR (Zfloor x + 1)).
Proof.
  intros Hx. pose proof (Zfloor_bound x) as [Hlo Hhi].
  apply Rabs_def2 in Hx as [Hx1 Hx2].
  assert (Hn : (- 2 ^ 53 < Zfloor x < 2 ^ 53 - 1)%Z).
  { split; apply lt_IZR.
    - change (- 2 ^ 53)%Z with (-9007199254740992)%Z. lra.
    - change (2 ^ 53 - 1)%Z with 9007199254740991%Z. lra. }
  pose proof (roundDouble_le _ _ Hlo) as H1.
  pose proof (roundDouble_le x (IZR (Zfloor x + 1))
                ltac:(rewrite plus_IZR; lra)) as H2.
  rewrite roundDouble_int in H1 by lia.
  rewrite roundDouble_int in H2 by lia.
  destruct (Req_dec (roundDouble x) (IZR (Zfloor x + 1))) as [He|Hne].
  - right. split; [|exact He]. rewrite He. apply ZfloorZ.
  - left. apply Zfloor_eq. rewrite plus_IZR in H2, Hne. lra.
Qed.

Lemma roundPos_normal (x : R) (b : Z) :
  (-1022 <= b)%Z -> powerRZ 2 b <= x < powerRZ 2 (b + 1) ->
  roundPos x
    = IZR (roundHalfEven (x * powerRZ 2 (52 - b))) * powerRZ 2 (b - 52).
Proof.
  intros Hb Hx. unfold roundPos, ulpExp. rewrite (binade_eq b x Hx).
  replace (Z.max b (-1022) - 52)%Z with (b - 52)%Z by lia.
  replace (- (b - 52))%Z with (52 - b)%Z by lia. reflexivity.
Qed.

Lemma roundHalfEven_up (x : R) (f : Z) :
  IZR f + 1 / 2 < x < IZR f + 1 -> roundHalfEven x = (f + 1)%Z.
Proof.
  intros Hx. unfold roundHalfEven. rewrite (Zfloor_eq f x) by lra.
  destruct (Rlt_dec _ _); [lra|]. destruct (Rlt_dec _ _); [done|lra].
Qed.

Lemma roundHalfEven_down (x : R) (f : Z) :
  IZR f <= x < IZR f + 1 / 2 -> roundHalfEven x = f.
Proof.
  intros Hx. unfold roundHalfEven. rewrite (Zfloor_eq f x) by lra.
  destruct (Rlt_dec _ _); [done|lra].
Qed.

Lemma pow2_12 : powerRZ 2 12 = 4096.
Proof. rewrite pow2_IZR by lia. reflexivity. Qed.

Lemma pow2_13 : powerRZ 2 13 = 8192.
Proof. rewrite pow2_IZR by lia. reflexivity. Qed.

Lemma pow2_40 : powerRZ 2 40 = 1099511627776.
Proof. rewrite pow2_IZR by lia. reflexivity. Qed.

Lemma pow2_m40 : powerRZ 2 (-40) = / 1099511627776.
Proof.
  change (-40)%Z with (- (40))%Z. rewrite powerRZ_neg', pow2_40. reflexivity.
Qed.

Lemma round_0_3 : roundDouble (25000 * double_0_3) = 7500.
Proof.
  unfold roundDouble, double_0_3.
  destruct (Rlt_dec _ _) as [_|Hn]; [|lra].
  rewrite (roundPos_normal _ 12); [|lia|].
  2:{ change (12 + 1)%Z with 13%Z. rewrite pow2_12, pow2_13. lra. }
  change (52 - 12)%Z with 40%Z. change (12 - 52)%Z with (-40)%Z.
  rewrite pow2_40, pow2_m40.
  rewrite (roundHalfEven_up _ 8246337208319999) by lra.
  change (8246337208319999 + 1)%Z with 8246337208320000%Z. lra.
Qed.

Lemma round_0_29 :
  7249 <= roundDouble (25000 * double_0_29) < 7250.
Proof.
  unfold roundDouble, double_0_29.
  destruct (Rlt_dec _ _) as [_|Hn]; [|lra].
  rewrite (roundPos_normal _ 12); [|lia|].
  2:{ change (12 + 1)%Z with 13%Z. rewrite pow2_12, pow2_13. lra. }
  change (52 - 12)%Z with 40%Z. change (12 - 52)%Z with (-40)%Z.
  rewrite pow2_40, pow2_m40.
  rewrite (roundHalfEven_down _ 7971459301375999) by lra.
  lra.
Qed.

(** A number with a significand below 2^53, normalised or at the smallest
    exponent, is a double. *)
Lemma roundPos_repr (n e : Z) :
  (0 < n < 2 ^ 53)%Z -> (-1074 <= e)%Z -> (e = -1074 \/ 2 ^ 52 <= n)%Z ->
  roundPos (IZR n * powerRZ 2 e) = IZR n * powerRZ 2 e.
Proof.
  intros [Hn0 Hn1] He Hnorm.
  pose proof (pow2_pos e) as Hpe.
  assert (Hn0' : 0 < IZR n) by (by apply IZR_lt).
  assert (Hn1' : IZR n < powerRZ 2 53).
  { rewrite pow2_IZR by lia. by apply IZR_lt. }
  assert (Hx : 0 < IZR n * powerRZ 2 e) by (by apply Rmult_lt_0_compat).
  assert (Hhi : IZR n * powerRZ 2 e < powerRZ 2 (e + 53)).
  { rewrite Z.add_comm, pow2_add. by apply Rmult_lt_compat_r. }
  assert (Hu : ulpExp (IZR n * powerRZ 2 e) = e).
  { destruct (Z_lt_le_dec n (2 ^ 52)) as [Hsub|Hnrm].
    - assert (e = (-1074)%Z) as -> by lia.
      pose proof (binade_bounds _ Hx) as [Hlo _].
      assert (Hb : (binade (IZR n * powerRZ 2 (-1074)) < -1022)%Z).
      { destruct (Z_lt_le_dec (binade (IZR n * powerRZ 2 (-1074))) (-1022))
          as [|Hge]; [done|].
        pose proof (pow2_le _ _ Hge) as Hp.
        assert (IZR n * powerRZ 2 (-1074) < powerRZ 2 (-1022)); [|lra].
        replace (-1022)%Z with (52 + -1074)%Z by lia. rewrite pow2_add.
        apply Rmult_lt_compat_r; [done|].
        rewrite pow2_IZR by lia. by apply IZR_lt. }
      unfold ulpExp. lia.
    - assert (Hlo : powerRZ 2 (e + 52) <= IZR n * powerRZ 2 e).
      { rewrite Z.add_comm, pow2_add. apply Rmult_le_compat_r; [lra|].
        rewrite pow2_IZR by lia. by apply IZR_le. }
      unfold ulpExp. rewrite (binade_eq (e + 52)).
      + lia.
      + split; [exact Hlo|]. by replace (e + 52 + 1)%Z with (e + 53)%Z by lia. }
  unfold roundPos. rewrite Hu.
  rewrite Rmult_assoc, <- pow2_add, Z.add_opp_diag_r, powerRZ_O, Rmult_1_r.
  by rewrite roundHalfEven_IZR.
Qed.

(** What rounding returns is a double: rounding it again changes
    nothing. *)
Lemma roundPos_idem (x : R) : 0 < x -> roundDouble (roundPos x) = roundPos x.
Proof.
  intros Hx. destruct (scaled_bounds x Hx) as [[Hs0 Hs1] Hs2].
  pose proof (pow2_pos (ulpExp x)) as Hu.
  assert (He : (-1074 <= ulpExp x)%Z) by (unfold ulpExp; lia).
  unfold roundPos at 1 2.
  set (s := x * powerRZ 2 (- ulpExp x)) in *.
  assert (H0 : (0 <= roundHalfEven s)%Z).
  { rewrite <- (roundHalfEven_IZR 0). apply roundHalfEven_le. lra. }
  assert (H53 : (roundHalfEven s <= 2 ^ 53)%Z).
  { rewrite <- (roundHalfEven_IZR (2 ^ 53)). apply roundHalfEven_le.
    rewrite <- pow2_IZR by lia. lra. }
  destruct (Z.eq_dec (roundHalfEven s) 0) as [Hz|Hnz].
  { rewrite Hz, Rmult_0_l. unfold roundDouble.
    destruct (Rlt_dec 0 0); [lra|]. destruct (Rlt_dec 0 0); lra. }
  assert (Hpos : 0 < IZR (roundHalfEven s) * powerRZ 2 (ulpExp x)).
  { apply Rmult_lt_0_compat; [|done]. apply IZR_lt. lia. }
  unfold roundDouble. destruct (Rlt_dec _ _) as [_|Hn]; [|lra].
  destruct (Z.eq_dec (roundHalfEven s) (2 ^ 53)) as [Htop|Hntop].
  - rewrite Htop.
    replace (IZR (2 ^ 53) * powerRZ 2 (ulpExp x))
      with (IZR (2 ^ 52) * powerRZ 2 (ulpExp x + 1)).
    + apply roundPos_repr; lia.
    + rewrite pow2_add. change (2 ^ 53)%Z with (2 ^ 52 * 2)%Z.
      rewrite mult_IZR. replace (powerRZ 2 1) with 2 by (simpl; lra). lra.
  - apply roundPos_repr; [lia|lia|].
    destruct (Z_lt_le_dec (-1022) (binade x)) as [Hnrm|Hsub].
    + right. rewrite <- (roundHalfEven_IZR (2 ^ 52)).
      apply roundHalfEven_le. rewrite <- pow2_IZR by lia. by apply Hs2.
    + left. unfold ulpExp. lia.
Qed.

Lemma roundDouble_idem (x : R) : roundDouble (roundDouble x) = roundDouble x.
Proof.
  destruct (Rlt_dec 0 x) as [Hp|Hp].
  - assert (H : roundDouble x = roundPos x).
    { unfold roundDouble. destruct (Rlt_dec 0 x); [reflexivity|lra]. }
    rewrite H. by apply roundPos_idem.
  - destruct (Rlt_dec x 0) as [Hm|Hm].
    + assert (H : roundDouble x = - roundPos (- x)).
      { unfold roundDouble. destruct (Rlt_dec 0 x); [lra|].
        destruct (Rlt_dec x 0); [reflexivity|lra]. }
      rewrite H, roundDouble_opp, roundPos_idem by lra. reflexivity.
    + assert (H : roundDouble x = 0).
      { unfold roundDouble. destruct (Rlt_dec 0 x); [lra|].
        destruct (Rlt_dec x 0); [lra|reflexivity]. }
      rewrite H. unfold roundDouble. destruct (Rlt_dec 0 0); [lra|].
      destruct (Rlt_dec 0 0); lra.
Qed.

Lemma pow2_53 : powerRZ 2 53 = 9007199254740992.
Proof. rewrite pow2_IZR by lia. reflexivity. Qed.

Lemma pow2_54 : powerRZ 2 54 = 18014398509481984.
Proof. rewrite pow2_IZR by lia. reflexivity. Qed.

Lemma pow2_m53 : powerRZ 2 (-53) = / 9007199254740992.
Proof.
  change (-53)%Z with (- (53))%Z. rewrite powerRZ_neg', pow2_53. reflexivity.
Qed.

Lemma pow2_m54 : powerRZ 2 (-54) = / 18014398509481984.
Proof.
  change (-54)%Z with (- (54))%Z. rewrite powerRZ_neg', pow2_54. reflexivity.
Qed.

Lemma pow2_m1 : powerRZ 2 (-1) = / 2.
Proof. simpl. lra. Qed.

Lemma pow2_m2 : powerRZ 2 (-2) = / 4.
Proof. simpl. lra. Qed.

(** One half is a double. *)
Lemma roundDouble_half : roundDouble 0.5 = 0.5.
Proof.
  unfold roundDouble. destruct (Rlt_dec _ _) as [_|Hn]; [|lra].
  rewrite (roundPos_normal _ (-1)); [|lia|].
  2:{ change (-1 + 1)%Z with 0%Z. rewrite pow2_m1, powerRZ_O. lra. }
  change (52 - -1)%Z with 53%Z. change (-1 - 52)%Z with (-53)%Z.
  rewrite pow2_53, pow2_m53.
  rewrite (roundHalfEven_down _ 4503599627370496) by lra. lra.
Qed.

(** The literals 0.3 and 0.29 denote the doubles nearest to them. *)
Lemma roundDouble_0_3 : roundDouble 0.3 = double_0_3.
Proof.
  unfold roundDouble, double_0_3. destruct (Rlt_dec _ _) as [_|Hn]; [|lra].
  rewrite (roundPos_normal _ (-2)); [|lia|].
  2:{ change (-2 + 1)%Z with (-1)%Z. rewrite pow2_m1, pow2_m2. lra. }
  change (52 - -2)%Z with 54%Z. change (-2 - 52)%Z with (-54)%Z.
  rewrite pow2_54, pow2_m54.
  rewrite (roundHalfEven_down _ 5404319552844595) by lra. lra.
Qed.

Lemma roundDouble_0_29 : roundDouble 0.29 = double_0_29.
Proof.
  unfold roundDouble, double_0_29. destruct (Rlt_dec _ _) as [_|Hn]; [|lra].
  rewrite (roundPos_normal _ (-2)); [|lia|].
  2:{ change (-2 + 1)%Z with (-1)%Z. rewrite pow2_m1, pow2_m2. lra. }
  change (52 - -2)%Z with 54%Z. change (-2 - 52)%Z with (-54)%Z.
  rewrite pow2_54, pow2_m54.
  rewrite (roundHalfEven_down _ 5224175567749775) by lra. lra.
Qed.

(** ** The number of active particles *)

Lemma INR_MAX_PARTICLES : INR MAX_PARTICLES = 25000.
Proof.
  rewrite MAX_PARTICLES_eq, mult_INR, !INR_IZR_INZ.
  change (Z.of_nat 25) with 25%Z.
  replace (Z.of_nat 1000) with 1000%Z by reflexivity. lra.
Qed.

Lemma MAX_PARTICLES_pos : (0 < MAX_PARTICLES)%nat.
Proof. rewrite MAX_PARTICLES_eq. lia. Qed.

Lemma Z_MAX_PARTICLES : Z.of_nat MAX_PARTICLES = 25000%Z.
Proof. rewrite MAX_PARTICLES_eq. lia. Qed.

Lemma activeCount_unfold (cfg : ParticleConfig) :
  activeCount cfg
    = Zfloor (roundDouble (25000 * roundDouble (density cfg))).
Proof.
  unfold activeCount, Math_floor, mulDouble. by rewrite INR_MAX_PARTICLES.
Qed.

(** The count depends on the density only. *)
Lemma activeCount_density (cfg cfg' : ParticleConfig) :
  density cfg = density cfg' -> activeCount cfg = activeCount cfg'.
Proof. intros H. unfold activeCount. by rewrite H. Qed.

(** When the stored density is d and the exact product is an integer, the
    count is that integer. *)
Lemma activeCount_exact (cfg : ParticleConfig) (d : R) (n : Z) :
  roundDouble (density cfg) = d -> 25000 * d = IZR n ->
  (- 2 ^ 53 < n < 2 ^ 53)%Z ->
  activeCount cfg = n.
Proof.
  intros Hd Hn Hr.
  rewrite activeCount_unfold, Hd, Hn, roundDouble_int by done.
  apply ZfloorZ.
Qed.

Lemma roundDouble_sign (x : R) :
  (x <= 0 -> roundDouble x <= 0) /\ (0 <= x -> 0 <= roundDouble x).
Proof.
  split; intros H.
  - pose proof (roundDouble_le x (IZR 0) H) as G.
    by rewrite roundDouble_int in G by lia.
  - pose proof (roundDouble_le (IZR 0) x H) as G.
    by rewrite roundDouble_int in G by lia.
Qed.

Lemma roundDouble_one (x : R) :
  (x <= 1 -> roundDouble x <= 1) /\ (1 <= x -> 1 <= roundDouble x).
Proof.
  split; intros H.
  - pose proof (roundDouble_le x (IZR 1) H) as G.
    by rewrite roundDouble_int in G by lia.
  - pose proof (roundDouble_le (IZR 1) x H) as G.
    by rewrite roundDouble_int in G by lia.
Qed.

Lemma activeCount_nonpos (cfg : ParticleConfig) :
  density cfg <= 0 -> (activeCount cfg <= 0)%Z.
Proof.
  intros Hd. rewrite activeCount_unfold.
  pose proof (proj1 (roundDouble_sign (density cfg)) Hd) as Hs.
  pose proof (proj1 (roundDouble_sign (25000 * roundDouble (density cfg)))
                ltac:(lra)) as H.
  pose proof (Zfloor_le _ _ H) as Hf. by rewrite (ZfloorZ 0) in Hf.
Qed.

Lemma activeCount_nonneg (cfg : ParticleConfig) :
  0 <= density cfg -> (0 <= activeCount cfg)%Z.
Proof.
  intros Hd. rewrite activeCount_unfold.
  pose proof (proj2 (roundDouble_sign (density cfg)) Hd) as Hs.
  pose proof (proj2 (roundDouble_sign (25000 * roundDouble (density cfg)))
                ltac:(lra)) as H.
  pose proof (Zfloor_le _ _ H) as Hf. by rewrite (ZfloorZ 0) in Hf.
Qed.

Lemma activeCount_full (cfg : ParticleConfig) :
  1 <= density cfg -> (Z.of_nat MAX_PARTICLES <= activeCount cfg)%Z.
Proof.
  intros Hd. rewrite activeCount_unfold, Z_MAX_PARTICLES.
  pose proof (proj2 (roundDouble_one (density cfg)) Hd) as Hs.
  pose proof (roundDouble_le (IZR 25000)
                (25000 * roundDouble (density cfg)) ltac:(lra)) as H.
  rewrite roundDouble_int in H by lia.
  pose proof (Zfloor_le _ _ H) as Hf. by rewrite ZfloorZ in Hf.
Qed.

Lemma activeCount_le_max (cfg : ParticleConfig) :
  density cfg <= 1 -> (activeCount cfg <= Z.of_nat MAX_PARTICLES)%Z.
Proof.
  intros Hd. rewrite activeCount_unfold, Z_MAX_PARTICLES.
  pose proof (proj1 (roundDouble_one (density cfg)) Hd) as Hs.
  pose proof (roundDouble_le (25000 * roundDouble (density cfg))
                (IZR 25000) ltac:(lra)) as H.
  rewrite roundDouble_int in H by lia.
  pose proof (Zfloor_le _ _ H) as Hf. by rewrite ZfloorZ in Hf.
Qed.

(** The count against the floor of the exact product with the stored
    density: the same, or one more when the product is rounded up to an
    integer. *)
Lemma activeCount_real (cfg : ParticleConfig) :
  Rabs (density cfg) <= 1000000 ->
  let d := roundDouble (density cfg) in
  activeCount cfg = Zfloor (25000 * d) \/
  (activeCount cfg = (Zfloor (25000 * d) + 1)%Z /\
   roundDouble (25000 * d) = IZR (activeCount cfg)).
Proof.
  intros Hd d. rewrite activeCount_unfold. fold d.
  assert (Hb : Rabs d <= 1000000).
  { assert (Hd' : -1000000 <= density cfg <= 1000000).
    { unfold Rabs in Hd. destruct (Rcase_abs _) in Hd; lra. }
    apply Rabs_le. unfold d. split.
    - pose proof (roundDouble_le (IZR (-1000000)) (density cfg)
                    ltac:(lra)) as G.
      rewrite roundDouble_int in G by lia. lra.
    - pose proof (roundDouble_le (density cfg) (IZR 1000000)
                    ltac:(lra)) as G.
      rewrite roundDouble_int in G by lia. lra. }
  destruct (Zfloor_roundDouble (25000 * d)) as [H|[H1 H2]].
  - rewrite Rabs_mult, (Rabs_pos_eq 25000) by lra. lra.
  - by left.
  - right. split; [exact H1|]. by rewrite H1.
Qed.

(** With the initial density 0.5 half of the particles are active. *)
Lemma half_count (cfg : ParticleConfig) :
  density cfg = 0.5 -> activeCount cfg = 12500%Z.
Proof.
  intros Hd. apply (activeCount_exact cfg 0.5).
  - rewrite Hd. apply roundDouble_half.
  - lra.
  - lia.
Qed.

Lemma initial_count : activeCount initialConfig = 12500%Z.
Proof. by apply half_count. Qed.

(** Two positions of the density slider.  At 0.3 the configuration holds
    the double nearest to 0.3; the exact product with the capacity is just
    below 7500 and is rounded up to it.  At 0.29 it is just below 7250 and
    stays there. *)
Example activeCount_at_0_3 (cfg : ParticleConfig) :
  density cfg = 0.3 \/ density cfg = double_0_3 ->
  activeCount cfg = 7500%Z /\ Zfloor (25000 * double_0_3) = 7499%Z.
Proof.
  intros Hd. split.
  - rewrite activeCount_unfold.
    assert (Hs : roundDouble (density cfg) = double_0_3).
    { destruct Hd as [-> | ->]; [apply roundDouble_0_3|].
      rewrite <- roundDouble_0_3. apply roundDouble_idem. }
    rewrite Hs, round_0_3. apply (ZfloorZ 7500).
  - apply Zfloor_eq. unfold double_0_3. lra.
Qed.

Example activeCount_at_0_29 (cfg : ParticleConfig) :
  density cfg = 0.29 \/ density cfg = double_0_29 ->
  activeCount cfg = 7249%Z /\ Zfloor (25000 * 0.29) = 7250%Z.
Proof.
  intros Hd. split.
  - rewrite activeCount_unfold.
    assert (Hs : roundDouble (density cfg) = double_0_29).
    { destruct Hd as [-> | ->]; [apply roundDouble_0_29|].
      rewrite <- roundDouble_0_29. apply roundDouble_idem. }
    rewrite Hs. apply Zfloor_eq. pose proof round_0_29. lra.
  - apply Zfloor_eq. lra.
Qed.

(** ** Typed-array lemmas *)

(** A write past the end of a typed array is ignored. *)
Example setXYZ_past_the_end : setXYZ [1; 2; 3] 1 (7, 8, 9) = [1; 2; 3].
Proof. reflexivity. Qed.

Example setXYZ_in_range :
  setXYZ [1; 2; 3; 4; 5; 6] 1 (7, 8, 9) = [1; 2; 3; 7; 8; 9].
Proof. reflexivity. Qed.

(** ToInt32 wraps around at 2^31. *)
Example toInt32_wraps : toInt32 2147483648 = (-2147483648)%Z.
Proof. reflexivity. Qed.

(** An empty bucket and an entry of a chain. *)
Example rdI_chain :
  rdI [(-1)%Z; 0%Z; 1%Z] 2 = 1%Z /\ rdI [(-1)%Z; 0%Z; 1%Z] 0 = (-1)%Z.
Proof. split; reflexivity. Qed.

Lemma rd_insert_eq (a : list R) (i : nat) (v : R) :
  (i < length a)%nat -> rd (<[i := v]> a) i = v.
Proof. intros H. unfold rd. by rewrite list_lookup_insert_eq. Qed.

Lemma rd_insert_ne (a : list R) (i j : nat) (v : R) :
  i ≠ j -> rd (<[i := v]> a) j = rd a j.
Proof. intros H. unfold rd. by rewrite list_lookup_insert_ne. Qed.

Lemma length_setXYZ (a : list R) (i : nat) (v : R * R * R) :
  length (setXYZ a i v) = length a.
Proof. destruct v as [[x y] z]. unfold setXYZ. by rewrite !length_insert. Qed.

Lemma rd_setXYZ_ne (a : list R) (i j : nat) (v : R * R * R) :
  (j < i * 3 ∨ i * 3 + 2 < j)%nat -> rd (setXYZ a i v) j = rd a j.
Proof.
  intros H. destruct v as [[x y] z]. unfold setXYZ.
  rewrite !rd_insert_ne by lia. reflexivity.
Qed.

Lemma getXYZ_setXYZ_eq (a : list R) (i : nat) (v : R * R * R) :
  (i * 3 + 2 < length a)%nat -> getXYZ (setXYZ a i v) i = v.
Proof.
  intros H. destruct v as [[x y] z]. unfold getXYZ, setXYZ.
  rewrite (rd_insert_eq _ (i * 3 + 2)) by (rewrite !length_insert; lia).
  rewrite (rd_insert_ne _ (i * 3 + 2) (i * 3 + 1)) by lia.
  rewrite (rd_insert_eq _ (i * 3 + 1)) by (rewrite !length_insert; lia).
  rewrite (rd_insert_ne _ (i * 3 + 2) (i * 3)) by lia.
  rewrite (rd_insert_ne _ (i * 3 + 1) (i * 3)) by lia.
  rewrite rd_insert_eq by lia. reflexivity.
Qed.

Lemma rd_setXYZ_eq (a : list R) (i : nat) (x y z : R) :
  (i * 3 + 2 < length a)%nat ->
  rd (setXYZ a i (x, y, z)) (i * 3) = x /\
  rd (setXYZ a i (x, y, z)) (i * 3 + 1) = y /\
  rd (setXYZ a i (x, y, z)) (i * 3 + 2) = z.
Proof.
  intros H. pose proof (getXYZ_setXYZ_eq a i (x, y, z) H) as G.
  unfold getXYZ in G. injection G as G1 G2 G3. done.
Qed.

Lemma getXYZ_setXYZ_ne (a : list R) (i j : nat) (v : R * R * R) :
  i ≠ j -> getXYZ (setXYZ a i v) j = getXYZ a j.
Proof.
  intros H. unfold getXYZ. rewrite !rd_setXYZ_ne by lia. reflexivity.
Qed.

(** ** Loop rules *)

Lemma Gen_bind_unfold {A B} (m : Gen A) (f : A -> Gen B) (k : nat) :
  (m ≫= f) k = match m k with Some (a, k') => f a k' | None => None end.
Proof. reflexivity. Qed.

(** A loop whose body keeps an invariant terminates normally and
    establishes the invariant at the end of the range. *)
Lemma for_each_inv {St : Type} (body : nat -> St -> Gen St)
    (Inv : nat -> St -> nat -> Prop) (hi : nat) :
  (forall i s k, (i < hi)%nat -> Inv i s k ->
     exists s' k', body i s k = Some (s', k') /\ Inv (S i) s' k') ->
  forall n i s k, (i + n <= hi)%nat -> Inv i s k ->
    exists s' k', for_each body i n s k = Some (s', k') /\ Inv (i + n)%nat s' k'.
Proof.
  intros Hbody n. induction n as [|n IH]; intros i s k Hle HI; simpl.
  - exists s, k. split; [reflexivity|]. by replace (i + 0)%nat with i by lia.
  - destruct (Hbody i s k) as (s1 & k1 & Hb & HI1); [lia|done|].
    rewrite Gen_bind_unfold, Hb.
    destruct (IH (S i) s1 k1) as (s2 & k2 & Hl & HI2); [lia|done|].
    exists s2, k2. split; [done|].
    by replace (i + S n)%nat with (S i + n)%nat by lia.
Qed.

Lemma for_range_inv {St : Type} (body : nat -> St -> St)
    (Inv : nat -> St -> Prop) (hi : nat) :
  (forall i s, (i < hi)%nat -> Inv i s -> Inv (S i) (body i s)) ->
  forall n i s, (i + n <= hi)%nat -> Inv i s ->
    Inv (i + n)%nat (for_range body i n s).
Proof.
  intros Hbody n. induction n as [|n IH]; intros i s Hle HI; simpl.
  - by replace (i + 0)%nat with i by lia.
  - replace (i + S n)%nat with (S i + n)%nat by lia.
    apply IH; [lia|]. apply Hbody; [lia|done].
Qed.

(** ** The shape generators return *)

Lemma random_unfold (k : nat) : random k = Some (Math_random k, S k).
Proof. reflexivity. Qed.

Lemma Gen_ret_unfold {A} (a : A) (k : nat) : mret (M := Gen) a k = Some (a, k).
Proof. reflexivity. Qed.

Ltac gen_steps :=
  repeat first
    [ rewrite Gen_bind_unfold, random_unfold
    | rewrite Gen_ret_unfold ].

Lemma customTarget_returns (pts : list Point3D) (i k : nat) :
  exists v k', customTarget pts i k = Some (v, k') /\ (k <= k')%nat.
Proof.
  unfold customTarget. destruct (0 <? length pts)%nat eqn:Hlen.
  - apply Nat.ltb_lt in Hlen.
    destruct (lookup_lt_is_Some_2 pts (i mod length pts)) as [p Hp].
    { apply Nat.mod_upper_bound. lia. }
    rewrite Hp. gen_steps. eexists _, _. split; [reflexivity|lia].
  - gen_steps. eexists _, _. split; [reflexivity|lia].
Qed.

Lemma shapeTarget_returns (sh : ShapeType) (pts : list Point3D) (i k : nat) :
  exists v k', shapeTarget sh pts i k = Some (v, k') /\ (k <= k')%nat.
Proof.
  destruct sh; simpl;
    [ unfold nebulaTarget | unfold heartTarget | unfold sphereTarget
    | unfold galaxyTarget | unfold mobiusTarget | apply customTarget_returns ];
    gen_steps; (eexists _, _; split; [reflexivity|lia]).
Qed.

(** ** Regenerating the targets *)

Lemma targetBody_step (cfg : ParticleConfig) (pts : list Point3D) (k0 : nat)
    (i : nat) (t : list R) (k : nat) :
  (i < MAX_PARTICLES)%nat -> targets_upto cfg pts k0 i t k ->
  exists t' k', targetBody cfg pts i t k = Some (t', k') /\
    targets_upto cfg pts k0 (S i) t' k'.
Proof.
  intros Hi (Hlen & Hk & Hdone). unfold targetBody.
  rewrite Gen_bind_unfold.
  assert (Hkeep : forall v k', (k <= k')%nat ->
     (forall j, (j < i)%nat ->
        ((activeCount cfg <= Z.of_nat j)%Z ->
           getXYZ (setXYZ t i v) j = SENTINEL) /\
        ((Z.of_nat j < activeCount cfg)%Z ->
           exists kj kj', (k0 <= kj)%nat /\ (kj' <= k')%nat /\
             shapeTarget (shape cfg) pts j kj
               = Some (getXYZ (setXYZ t i v) j, kj')))).
  { intros v k' Hk' j Hj. rewrite getXYZ_setXYZ_ne by lia.
    destruct (Hdone j Hj) as [Hs Hg]. split; [done|].
    intros Hlt. destruct (Hg Hlt) as (kj & kj' & ? & ? & ?).
    exists kj, kj'. repeat split; [done|lia|done]. }
  destruct (activeCount cfg <=? Z.of_nat i)%Z eqn:Hc.
  - apply Z.leb_le in Hc. rewrite !Gen_ret_unfold.
    eexists _, _. split; [reflexivity|].
    split; [by rewrite length_setXYZ|]. split; [done|].
    intros j Hj. destruct (decide (j = i)) as [->|Hne].
    + rewrite getXYZ_setXYZ_eq by lia. split; [done|lia].
    + apply Hkeep; [lia|lia].
  - apply Z.leb_gt in Hc.
    destruct (shapeTarget_returns (shape cfg) pts i k) as (v & k' & Hv & Hkk).
    rewrite Hv, Gen_ret_unfold.
    eexists _, _. split; [reflexivity|].
    split; [by rewrite length_setXYZ|]. split; [lia|].
    intros j Hj. destruct (decide (j = i)) as [->|Hne].
    + rewrite getXYZ_setXYZ_eq by lia. split; [lia|].
      intros _. exists k, k'. repeat split; [done|lia|done].
    + apply Hkeep; [lia|lia].
Qed.

Lemma regenerate_spec (cfg : ParticleConfig) (pts : list Point3D)
    (t : list R) (k : nat) :
  length t = (MAX_PARTICLES * 3)%nat ->
  exists t' k', regenerate cfg pts t k = Some (t', k') /\
    targets_upto cfg pts k MAX_PARTICLES t' k'.
Proof.
  intros Hlen. unfold regenerate.
  apply (for_each_inv (targetBody cfg pts) (targets_upto cfg pts k)
           MAX_PARTICLES (targetBody_step cfg pts k) MAX_PARTICLES 0%nat t k).
  - lia.
  - split; [done|]. split; [done|]. intros j Hj. lia.
Qed.

(** [updateTargetShape] writes [targetPositions] and draws random numbers,
    nothing else. *)
Lemma updateTargetShape_frame (e e' : ParticleEngine) :
  updateTargetShape e = Some e' ->
  positions e' = positions e /\ colors e' = colors e /\
  hashTable e' = hashTable e /\ nextEntry e' = nextEntry e /\
  currentConfig e' = currentConfig e /\
  customShapePoints e' = customShapePoints e /\
  scrollVelocity e' = scrollVelocity e /\ isDisposed e' = isDisposed e /\
  particlesRotationY e' = particlesRotationY e /\
  bgStarsRotationY e' = bgStarsRotationY e.
Proof.
  unfold updateTargetShape.
  destruct (regenerate _ _ _ _) as [[t k]|]; [|done].
  intros [= <-]. simpl. repeat split.
Qed.

(** [updateTargetShape] returns on a well-formed engine, with the targets
    the loop establishes. *)
Lemma updateTargetShape_returns (e : ParticleEngine) :
  wf e ->
  exists e', updateTargetShape e = Some e' /\
    targets_upto (currentConfig e) (customShapePoints e) (randomCalls e)
      MAX_PARTICLES (targetPositions e') (randomCalls e').
Proof.
  intros Hwf.
  destruct (regenerate_spec (currentConfig e) (customShapePoints e)
              (targetPositions e) (randomCalls e) (wf_targets e Hwf))
    as (t & k & Hr & Hup).
  exists (set_targets e t k). split; [|exact Hup].
  unfold updateTargetShape. by rewrite Hr.
Qed.

(** ** Loops over the particles *)

Lemma only_particle_refl (i : nat) (a : list R) : only_particle i a a.
Proof. split; [done|]. intros; reflexivity. Qed.

Lemma only_particle_trans (i : nat) (a b c : list R) :
  only_particle i a b -> only_particle i b c -> only_particle i a c.
Proof.
  intros [Hl1 H1] [Hl2 H2]. split; [congruence|].
  intros m Hm. rewrite H2, H1 by done. reflexivity.
Qed.

Lemma only_particle_insert (i m : nat) (v : R) (a : list R) :
  (i * 3 <= m <= i * 3 + 2)%nat -> only_particle i a (<[m := v]> a).
Proof.
  intros Hm. split; [by rewrite length_insert|].
  intros m' Hm'. rewrite rd_insert_ne by lia. reflexivity.
Qed.

Lemma only_particle_getXYZ (i j : nat) (a a' : list R) :
  only_particle i a a' -> i ≠ j -> getXYZ a' j = getXYZ a j.
Proof.
  intros [_ H] Hne. unfold getXYZ. rewrite !H by lia. reflexivity.
Qed.

Lemma for_each_local (body : nat -> list R -> Gen (list R)) :
  local_body body ->
  forall n i a k, exists a' k',
    for_each body i n a k = Some (a', k') /\ (k <= k')%nat /\
    length a' = length a /\
    forall m, (m < i * 3 ∨ (i + n) * 3 <= m)%nat -> rd a' m = rd a m.
Proof.
  intros Hloc n. induction n as [|n IH]; intros i a k; simpl.
  - exists a, k. repeat split; done.
  - destruct (Hloc i a k) as (a1 & k1 & Hb & Hk1 & Hl1 & H1).
    rewrite Gen_bind_unfold, Hb.
    destruct (IH (S i) a1 k1) as (a2 & k2 & Hf & Hk2 & Hl2 & H2).
    exists a2, k2. repeat split; [done|lia|congruence|].
    intros m Hm. rewrite H2, H1 by lia. reflexivity.
Qed.

Lemma for_each_split {St : Type} (body : nat -> St -> Gen St)
    (n1 n2 i : nat) (s : St) (k : nat) :
  for_each body i (n1 + n2) s k =
  match for_each body i n1 s k with
  | Some (s1, k1) => for_each body (i + n1) n2 s1 k1
  | None => None
  end.
Proof.
  revert i s k. induction n1 as [|n1 IH]; intros i s k; simpl.
  - by replace (i + 0)%nat with i by lia.
  - rewrite !Gen_bind_unfold. destruct (body i s k) as [[s1 k1]|]; [|done].
    rewrite IH. by replace (S i + n1)%nat with (i + S n1)%nat by lia.
Qed.

(** The loop over [0 .. n) seen from particle [i]: the iterations before
    [i] leave it alone, iteration [i] runs on a buffer [ai] that still has
    the initial entries of particle [i], and the later iterations keep what
    iteration [i] wrote. *)
Lemma for_each_at (body : nat -> list R -> Gen (list R)) :
  local_body body ->
  forall n i a k, (i < n)%nat ->
  exists ai ki ai' ki' a' k',
    for_each body 0 n a k = Some (a', k') /\
    for_each body 0 i a k = Some (ai, ki) /\
    body i ai ki = Some (ai', ki') /\
    (k <= ki)%nat /\ (ki <= ki')%nat /\ (ki' <= k')%nat /\
    length ai = length a /\ length a' = length a /\
    getXYZ ai i = getXYZ a i /\ getXYZ a' i = getXYZ ai' i.
Proof.
  intros Hloc n i a k Hi.
  destruct (for_each_local body Hloc i 0%nat a k)
    as (ai & ki & Hpre & Hki & Hli & Hai).
  destruct (Hloc i ai ki) as (ai' & ki' & Hb & Hki' & Hli' & _).
  destruct (for_each_local body Hloc (n - S i) (S i) ai' ki')
    as (a' & k' & Hpost & Hk' & Hl' & Ha').
  exists ai, ki, ai', ki', a', k'.
  assert (Hall : for_each body 0 n a k = Some (a', k')).
  { replace n with (i + S (n - S i))%nat by lia.
    rewrite for_each_split, Hpre. simpl.
    rewrite Gen_bind_unfold, Hb.
    by replace (S (0 + i)) with (S i) by lia. }
  repeat split; try done; try congruence.
  - unfold getXYZ. rewrite !Hai by lia. reflexivity.
  - unfold getXYZ. rewrite !Ha' by lia. reflexivity.
Qed.

(** ** The pieces of one animate iteration *)

Lemma blend_local (c : R) (i : nat) (t : R * R * R) (pos : list R) :
  only_particle i pos (blend c i t pos).
Proof.
  destruct t as [[tx ty] tz]. unfold blend.
  eapply only_particle_trans; [|apply only_particle_insert; lia].
  eapply only_particle_trans; [|apply only_particle_insert; lia].
  apply only_particle_insert; lia.
Qed.

Lemma repelOne_local (i : nat) (neighbor : Z) (pos : list R) :
  only_particle i pos (repelOne i neighbor pos).
Proof.
  unfold repelOne. destruct (decide (neighbor = Z.of_nat i)).
  { apply only_particle_refl. }
  destruct (decide _); [|apply only_particle_refl].
  eapply only_particle_trans; [|apply only_particle_insert; lia].
  eapply only_particle_trans; [|apply only_particle_insert; lia].
  apply only_particle_insert; lia.
Qed.

Lemma repelChain_local (checks : nat) (ne : list Z) (i : nat) (neighbor : Z)
    (pos : list R) :
  only_particle i pos (repelChain checks ne i neighbor pos).
Proof.
  revert neighbor pos. induction checks as [|c IH]; intros neighbor pos; simpl.
  { apply only_particle_refl. }
  destruct (decide (neighbor = (-1)%Z)); [apply only_particle_refl|].
  eapply only_particle_trans; [apply repelOne_local|apply IH].
Qed.

(** The result of [perturbedTarget], with the three draws spelled out. *)
Lemma perturbedTarget_eq (o sp tx ty tz : R) (k : nat) :
  perturbedTarget o sp (tx, ty, tz) k =
  Some
    (if decide (o > 0.1) then
       let dist := Math_sqrt (tx * tx + ty * ty + tz * tz) + 0.1 in
       ((tx + tx / dist * (o * 60 * sp) + (Math_random k - 0.5) * (o * 0.8),
         ty + ty / dist * (o * 60 * sp)
           + (Math_random (S k) - 0.5) * (o * 0.8),
         tz + tz / dist * (o * 60 * sp)
           + (Math_random (S (S k)) - 0.5) * (o * 0.8)),
        S (S (S k)))
     else ((tx, ty, tz), k)).
Proof.
  unfold perturbedTarget. destruct (decide (o > 0.1)); reflexivity.
Qed.

Lemma perturbedTarget_returns (o sp : R) (t : R * R * R) (k : nat) :
  exists v k', perturbedTarget o sp t k = Some (v, k') /\ (k <= k')%nat.
Proof.
  destruct t as [[tx ty] tz]. rewrite perturbedTarget_eq.
  destruct (decide (o > 0.1));
    (eexists _, _; split; [reflexivity|lia]).
Qed.

Lemma animateBody_local (targets : list R) (ht ne : list Z) (o sp : R) :
  local_body (animateBody targets ht ne o sp).
Proof.
  intros i a k. unfold animateBody.
  destruct (decide (rd targets (i * 3) > 9000)).
  - rewrite Gen_ret_unfold. eexists _, _. split; [reflexivity|].
    split; [lia|]. apply only_particle_insert; lia.
  - destruct (perturbedTarget_returns o sp (getXYZ targets i) k)
      as (v & k' & Hv & Hk).
    rewrite Gen_bind_unfold, Hv, Gen_ret_unfold.
    eexists _, _. split; [reflexivity|]. split; [done|].
    eapply only_particle_trans; [apply blend_local|apply repelChain_local].
Qed.

(** ** The grid keeps its sizes *)

Lemma length_wrI (a : list Z) (k v : Z) : length (wrI a k v) = length a.
Proof. unfold wrI. destruct (k <? 0)%Z; [done|by rewrite length_insert]. Qed.

Lemma gridBody_lengths (pos : list R) (i : nat) (g : list Z * list Z) :
  length (gridBody pos i g).1 = length g.1 /\
  length (gridBody pos i g).2 = length g.2.
Proof.
  destruct g as [h n]. unfold gridBody.
  destruct (decide (rd pos (i * 3) > 8000)); [done|].
  cbn [fst snd]. by rewrite !length_wrI.
Qed.

Lemma buildGrid_lengths (pos : list R) (ht ne : list Z) :
  length (buildGrid pos ht ne).1 = length ht /\
  length (buildGrid pos ht ne).2 = length ne.
Proof.
  unfold buildGrid.
  apply (for_range_inv (gridBody pos)
    (fun _ g => length g.1 = length ht /\ length g.2 = length ne)
    MAX_PARTICLES).
  - intros i g _ [Hh Hn]. destruct (gridBody_lengths pos i g) as [H1 H2].
    split; congruence.
  - lia.
  - cbn [fst snd]. by rewrite !length_replicate.
Qed.

(** ** animate returns *)

(** The result of a step of an engine that is not disposed, field by
    field. *)
Lemma animate_active (e : ParticleEngine) (o : R) :
  isDisposed e = false ->
  exists pos k,
    for_each
      (animateBody (targetPositions e)
         (buildGrid (positions e) (hashTable e) (nextEntry e)).1
         (buildGrid (positions e) (hashTable e) (nextEntry e)).2
         o (spread (currentConfig e)))
      0 MAX_PARTICLES (positions e) (randomCalls e) = Some (pos, k) /\
    animate e o =
      Some {| positions := pos; targetPositions := targetPositions e;
              colors := colors e;
              hashTable :=
                (buildGrid (positions e) (hashTable e) (nextEntry e)).1;
              nextEntry :=
                (buildGrid (positions e) (hashTable e) (nextEntry e)).2;
              currentConfig := currentConfig e;
              customShapePoints := customShapePoints e;
              scrollVelocity := decayVelocity (scrollVelocity e);
              isDisposed := false;
              particlesRotationY :=
                particlesRotationY e
                + (0.002 + decayVelocity (scrollVelocity e));
              bgStarsRotationY := bgStarsRotationY e - 0.0003;
              randomCalls := k |}.
Proof.
  intros Hact. unfold animate. rewrite Hact.
  destruct (buildGrid (positions e) (hashTable e) (nextEntry e))
    as [ht ne] eqn:Hg. simpl.
  destruct (for_each_local _
              (animateBody_local (targetPositions e) ht ne o
                 (spread (currentConfig e)))
              MAX_PARTICLES 0%nat (positions e) (randomCalls e))
    as (pos & k & Hf & _).
  exists pos, k. split; [done|]. rewrite Hf. reflexivity.
Qed.

Lemma animate_disposed (e : ParticleEngine) (o : R) :
  isDisposed e = true -> animate e o = Some e.
Proof. intros H. unfold animate. by rewrite H. Qed.

Lemma animate_returns (e : ParticleEngine) (o : R) :
  exists e', animate e o = Some e'.
Proof.
  destruct (isDisposed e) eqn:Hd.
  - exists e. by apply animate_disposed.
  - destruct (animate_active e o Hd) as (pos & k & _ & Ha). by eexists.
Qed.

Lemma updateConfig_disposed (e : ParticleEngine) (p : PartialConfig) :
  isDisposed e = true -> updateConfig e p = Some e.
Proof. intros H. unfold updateConfig. by rewrite H. Qed.

(** C10.  A call of animate returns, and the engine it returns has the
    target buffer, the colour buffer, the configuration and the custom point
    sequence of the engine it was called on, whatever the openness. *)
Theorem animate_frame (e : ParticleEngine) (handOpenness : R) :
  exists e', animate e handOpenness = Some e' /\
    targetPositions e' = targetPositions e /\
    colors e' = colors e /\
    currentConfig e' = currentConfig e /\
    customShapePoints e' = customShapePoints e.
Proof.
  destruct (isDisposed e) eqn:Hd.
  - exists e. split; [by apply animate_disposed|done].
  - destruct (animate_active e handOpenness Hd) as (pos & k & _ & Ha).
    eexists. split; [exact Ha|]. simpl. done.
Qed.

(** ** Scroll momentum *)

(** C7.  On an engine that is not disposed: a step of animate replaces
    scrollVelocity v by 0.96 * v, or by exactly 0 when |0.96 * v| < 0.0001,
    and keeps it at or below 0.3 if it was; a scroll impulse deltaY replaces
    it by v + 0.0005 * |deltaY| clamped to the maximum 0.3, so that it never
    exceeds 0.3 afterwards. *)
Theorem scroll_momentum (e : ParticleEngine) :
  isDisposed e = false ->
  (forall handOpenness, exists e',
     animate e handOpenness = Some e' /\
     (Rabs (scrollVelocity e * 0.96) < 0.0001 -> scrollVelocity e' = 0) /\
     (0.0001 <= Rabs (scrollVelocity e * 0.96) ->
        scrollVelocity e' = scrollVelocity e * 0.96) /\
     (scrollVelocity e <= 0.3 -> scrollVelocity e' <= 0.3)) /\
  (forall deltaY,
     scrollVelocity (handleScroll e deltaY)
       = Rmin (scrollVelocity e + Rabs deltaY * 0.0005) 0.3 /\
     scrollVelocity (handleScroll e deltaY) <= 0.3).
Proof.
  intros Hact. split.
  - intros o. destruct (animate_active e o Hact) as (pos & k & _ & Ha).
    eexists. split; [exact Ha|]. simpl. unfold decayVelocity, Math_abs.
    destruct (decide (Rabs (scrollVelocity e * 0.96) < 0.0001)) as [Hs|Hs].
    + repeat split; intros; lra.
    + repeat split; intros; try lra.
  - intros d. unfold handleScroll, Math_abs. rewrite Hact. simpl.
    unfold Rmin.
    destruct (decide (scrollVelocity e + Rabs d * 0.0005 > 0.3)) as [Hc|Hc];
      destruct (Rle_dec (scrollVelocity e + Rabs d * 0.0005) 0.3); lra.
Qed.

(** ** Hidden particles *)

(** A particle whose target has x above 9000: the step writes 9999 to the
    x entry of its position and nothing else of the particle. *)
Lemma animate_skips_hidden (e : ParticleEngine) (handOpenness : R) (i : nat) :
  wf e -> isDisposed e = false -> (i < MAX_PARTICLES)%nat ->
  rd (targetPositions e) (i * 3) > 9000 ->
  exists e', animate e handOpenness = Some e' /\
    getXYZ (positions e') i =
      (9999, rd (positions e) (i * 3 + 1), rd (positions e) (i * 3 + 2)).
Proof.
  intros Hwf Hact Hi Hx.
  destruct (animate_active e handOpenness Hact) as (pos & k & Hloop & Ha).
  eexists. split; [exact Ha|]. simpl.
  set (ht := (buildGrid (positions e) (hashTable e) (nextEntry e)).1) in *.
  set (ne := (buildGrid (positions e) (hashTable e) (nextEntry e)).2) in *.
  destruct (for_each_at _
              (animateBody_local (targetPositions e) ht ne handOpenness
                 (spread (currentConfig e)))
              MAX_PARTICLES i (positions e) (randomCalls e) Hi)
    as (ai & ki & ai' & ki' & a' & k' & Hall & _ & Hb & _ & _ & _ & Hlen & _
        & Hpre & Hpost).
  rewrite Hloop in Hall. injection Hall as <- <-.
  rewrite Hpost. unfold animateBody in Hb.
  destruct (decide (rd (targetPositions e) (i * 3) > 9000)) as [_|Hn];
    [|contradiction].
  rewrite Gen_ret_unfold in Hb. injection Hb as <- <-.
  pose proof (wf_positions e Hwf) as Hp.
  unfold getXYZ in *.
  rewrite rd_insert_eq by lia. rewrite !rd_insert_ne by lia.
  injection Hpre as _ Hy Hz. by rewrite Hy, Hz.
Qed.

(** C2, as the code has it.  For a particle whose target is the sentinel,
    a step of an engine that is not disposed sets the x component of its
    position to 9999 and leaves the y and z components as they were: neither
    the smoothing nor the repulsion touches it. *)
Theorem animate_hidden (e : ParticleEngine) (handOpenness : R) (i : nat) :
  wf e -> isDisposed e = false -> (i < MAX_PARTICLES)%nat ->
  getXYZ (targetPositions e) i = (9999, 9999, 9999) ->
  exists e', animate e handOpenness = Some e' /\
    getXYZ (positions e') i =
      (9999, rd (positions e) (i * 3 + 1), rd (positions e) (i * 3 + 2)).
Proof.
  intros Hwf Hact Hi Ht.
  apply animate_skips_hidden; try done.
  unfold getXYZ in Ht. injection Ht as -> _ _. lra.
Qed.

(** ** The blend of an active particle *)

Lemma blend_setXYZ (c : R) (i : nat) (tx ty tz : R) (pos : list R) :
  blend c i (tx, ty, tz) pos =
  setXYZ pos i
    (rd pos (i * 3) + (tx - rd pos (i * 3)) * c,
     rd pos (i * 3 + 1) + (ty - rd pos (i * 3 + 1)) * c,
     rd pos (i * 3 + 2) + (tz - rd pos (i * 3 + 2)) * c).
Proof.
  unfold blend, setXYZ. cbv zeta.
  rewrite (rd_insert_ne _ (i * 3) (i * 3 + 1)) by lia.
  rewrite (rd_insert_ne _ (i * 3 + 1) (i * 3 + 2)) by lia.
  rewrite (rd_insert_ne _ (i * 3) (i * 3 + 2)) by lia.
  reflexivity.
Qed.

(** The blend of a particle that [animate] does not treat as hidden. *)
Lemma animate_blend_visible (e : ParticleEngine) (handOpenness : R) (i : nat) :
  wf e -> isDisposed e = false -> (i < MAX_PARTICLES)%nat ->
  rd (targetPositions e) (i * 3) <= 9000 ->
  exists e' posi k,
    animate e handOpenness = Some e' /\
    (randomCalls e <= k)%nat /\
    length posi = length (positions e) /\
    getXYZ posi i = getXYZ (positions e) i /\
    let tx := rd (targetPositions e) (i * 3) in
    let ty := rd (targetPositions e) (i * 3 + 1) in
    let tz := rd (targetPositions e) (i * 3 + 2) in
    let px := rd (positions e) (i * 3) in
    let py := rd (positions e) (i * 3 + 1) in
    let pz := rd (positions e) (i * 3 + 2) in
    let cohesionSpeed := 0.05 + (1 - handOpenness) * 0.1 in
    let norm := sqrt (tx * tx + ty * ty + tz * tz) in
    let push := handOpenness * 60 * spread (currentConfig e) in
    let jitter := fun u => (u - 0.5) * (handOpenness * 0.8) in
    exists qx qy qz,
      (handOpenness > 0.1 ->
         qx = tx + tx / (norm + 0.1) * push + jitter (Math_random k) /\
         qy = ty + ty / (norm + 0.1) * push + jitter (Math_random (k + 1)) /\
         qz = tz + tz / (norm + 0.1) * push + jitter (Math_random (k + 2))) /\
      (handOpenness <= 0.1 -> qx = tx /\ qy = ty /\ qz = tz) /\
      let bx := px + (qx - px) * cohesionSpeed in
      let by_ := py + (qy - py) * cohesionSpeed in
      let bz := pz + (qz - pz) * cohesionSpeed in
      getXYZ (positions e') i =
      getXYZ
        (repelChain maxChecks (nextEntry e') i
           (rdI (hashTable e') (cellHash bx by_ bz))
           (setXYZ posi i (bx, by_, bz)))
        i.
Proof.
  intros Hwf Hact Hi Ht.
  destruct (animate_active e handOpenness Hact) as (pos & k & Hloop & Ha).
  set (ht := (buildGrid (positions e) (hashTable e) (nextEntry e)).1) in *.
  set (ne := (buildGrid (positions e) (hashTable e) (nextEntry e)).2) in *.
  destruct (for_each_at _
              (animateBody_local (targetPositions e) ht ne handOpenness
                 (spread (currentConfig e)))
              MAX_PARTICLES i (positions e) (randomCalls e) Hi)
    as (ai & ki & ai' & ki' & a' & k' & Hall & _ & Hb & Hki & _ & _ & Hlen & _
        & Hpre & Hpost).
  rewrite Hloop in Hall. injection Hall as <- <-.
  eexists _, ai, ki. split; [exact Ha|]. split; [done|]. split; [done|].
  split; [done|]. cbv zeta. simpl positions. simpl nextEntry.
  simpl hashTable. rewrite Hpost.
  pose proof (wf_positions e Hwf) as Hp.
  assert (Hin : (i * 3 + 2 < length ai)%nat) by lia.
  injection Hpre as Hx Hy Hz.
  unfold animateBody in Hb.
  destruct (decide (rd (targetPositions e) (i * 3) > 9000)) as [Hgt|_];
    [lra|].
  rewrite Gen_bind_unfold in Hb. unfold getXYZ in Hb.
  rewrite perturbedTarget_eq in Hb.
  destruct (decide (handOpenness > 0.1)) as [Ho|Ho];
    cbv beta iota zeta in Hb;
    rewrite Gen_ret_unfold in Hb; apply Some_inj in Hb;
    apply pair_equal_spec in Hb as [<- <-].
  - replace (S (S ki)) with (ki + 2)%nat by lia.
    replace (S ki) with (ki + 1)%nat by lia.
    eexists _, _, _. split.
    { intros _. unfold Math_sqrt. repeat split; reflexivity. }
    split; [intros; lra|].
    rewrite blend_setXYZ, Hx, Hy, Hz.
    match goal with
    | |- context [setXYZ ai i (?x, ?y, ?z)] =>
        destruct (rd_setXYZ_eq ai i x y z Hin) as (G1 & G2 & G3)
    end.
    rewrite G1, G2, G3. reflexivity.
  - exists (rd (targetPositions e) (i * 3)),
      (rd (targetPositions e) (i * 3 + 1)),
      (rd (targetPositions e) (i * 3 + 2)).
    split; [intros; lra|]. split; [done|].
    rewrite blend_setXYZ, Hx, Hy, Hz.
    match goal with
    | |- context [setXYZ ai i (?x, ?y, ?z)] =>
        destruct (rd_setXYZ_eq ai i x y z Hin) as (G1 & G2 & G3)
    end.
    rewrite G1, G2, G3. reflexivity.
Qed.

(** C5, as the code has it.  In a step of an engine that is not disposed,
    a particle i whose target has x above 9000 is parked: x := 9999, y and z
    as they were, no smoothing.  This also happens to an active particle
    whose custom point lies beyond x = 9000.  For a particle whose target
    has x at most 9000, with target t, position p and three draws u1, u2,
    u3 of the random source: when openness > 0.1 the target is moved to
    q = t + t / (||t|| + 0.1) * (openness * 60 * spread) + jitter, the
    jitter being (u - 0.5) * (openness * 0.8) on each axis with its own
    draw; when openness <= 0.1, q = t.  The position is then moved to
    p + (q - p) * cohesionSpeed, cohesionSpeed = 0.05 + (1 - openness) * 0.1,
    and the final position of the particle is what the repulsion traversal
    makes of this blended position. *)
Theorem animate_blend (e : ParticleEngine) (handOpenness : R) (i : nat) :
  wf e -> isDisposed e = false -> (i < MAX_PARTICLES)%nat ->
  exists e',
    animate e handOpenness = Some e' /\
    (rd (targetPositions e) (i * 3) > 9000 ->
       getXYZ (positions e') i =
         (9999, rd (positions e) (i * 3 + 1), rd (positions e) (i * 3 + 2))) /\
    (rd (targetPositions e) (i * 3) <= 9000 ->
     exists posi k,
       (randomCalls e <= k)%nat /\
       length posi = length (positions e) /\
       getXYZ posi i = getXYZ (positions e) i /\
       let tx := rd (targetPositions e) (i * 3) in
       let ty := rd (targetPositions e) (i * 3 + 1) in
       let tz := rd (targetPositions e) (i * 3 + 2) in
       let px := rd (positions e) (i * 3) in
       let py := rd (positions e) (i * 3 + 1) in
       let pz := rd (positions e) (i * 3 + 2) in
       let cohesionSpeed := 0.05 + (1 - handOpenness) * 0.1 in
       let norm := sqrt (tx * tx + ty * ty + tz * tz) in
       let push := handOpenness * 60 * spread (currentConfig e) in
       let jitter := fun u => (u - 0.5) * (handOpenness * 0.8) in
       exists qx qy qz,
         (handOpenness > 0.1 ->
            qx = tx + tx / (norm + 0.1) * push + jitter (Math_random k) /\
            qy = ty + ty / (norm + 0.1) * push
                 + jitter (Math_random (k + 1)) /\
            qz = tz + tz / (norm + 0.1) * push
                 + jitter (Math_random (k + 2))) /\
         (handOpenness <= 0.1 -> qx = tx /\ qy = ty /\ qz = tz) /\
         let bx := px + (qx - px) * cohesionSpeed in
         let by_ := py + (qy - py) * cohesionSpeed in
         let bz := pz + (qz - pz) * cohesionSpeed in
         getXYZ (positions e') i =
         getXYZ
           (repelChain maxChecks (nextEntry e') i
              (rdI (hashTable e') (cellHash bx by_ bz))
              (setXYZ posi i (bx, by_, bz)))
           i).
Proof.
  intros Hwf Hact Hi.
  destruct (animate_returns e handOpenness) as [e' Ha].
  exists e'. split; [exact Ha|]. split.
  - intros Hgt.
    destruct (animate_skips_hidden e handOpenness i Hwf Hact Hi Hgt)
      as (e2 & Ha2 & Hp).
    assert (e2 = e') as -> by congruence. exact Hp.
  - intros Hle.
    destruct (animate_blend_visible e handOpenness i Hwf Hact Hi Hle)
      as (e2 & posi & k & Ha2 & Hrest).
    assert (e2 = e') as -> by congruence.
    exists posi, k. exact Hrest.
Qed.

(** ** Local repulsion *)

Lemma neighborDistSq_nonneg (pos : list R) (i : nat) (neighbor : Z) :
  0 <= neighborDistSq pos i neighbor.
Proof.
  unfold neighborDistSq. cbv zeta.
  match goal with
  | |- 0 <= ?a * ?a + ?b * ?b + ?c * ?c =>
      pose proof (Rle_0_sqr a); pose proof (Rle_0_sqr b);
      pose proof (Rle_0_sqr c); unfold Rsqr in *; lra
  end.
Qed.

Lemma sum_squares_nonneg (a b c : R) : 0 <= a * a + b * b + c * c.
Proof.
  pose proof (Rle_0_sqr a). pose proof (Rle_0_sqr b).
  pose proof (Rle_0_sqr c). unfold Rsqr in *. lra.
Qed.

Lemma sqrt_minDist : sqrt (0.7 * 0.7) = 0.7.
Proof. apply sqrt_square. lra. Qed.

Lemma far_distSq (x : R) : 0 <= x -> 0.7 <= sqrt x -> ~ x < minDist * minDist.
Proof.
  intros Hx Hs Hlt. unfold minDist in Hlt.
  pose proof (sqrt_lt_1 x (0.7 * 0.7) Hx ltac:(lra) Hlt) as H.
  rewrite sqrt_minDist in H. lra.
Qed.

Lemma repelOne_far (pos : list R) (i : nat) (neighbor : Z) :
  0.7 <= sqrt (neighborDistSq pos i neighbor) -> repelOne i neighbor pos = pos.
Proof.
  intros Hfar. unfold repelOne.
  destruct (decide (neighbor = Z.of_nat i)); [done|].
  destruct (decide _) as [[Hlt _]|_]; [|done].
  exfalso. revert Hlt.
  apply (far_distSq _ (neighborDistSq_nonneg pos i neighbor) Hfar).
Qed.

(** The traversal evaluates the particle against the entries it
    enumerates, one after the other. *)
Lemma repelChain_fold (checks : nat) (ne : list Z) (i : nat) (neighbor : Z)
    (pos : list R) :
  repelChain checks ne i neighbor pos
    = foldl (fun p nb => repelOne i nb p) pos (chainFrom checks ne neighbor).
Proof.
  revert neighbor pos.
  induction checks as [|c IH]; intros neighbor pos; [reflexivity|].
  cbn [repelChain chainFrom].
  destruct (decide (neighbor = (-1)%Z)); [reflexivity|].
  cbn [foldl]. apply IH.
Qed.

Lemma repelChain_all_far (checks : nat) (ne : list Z) (pos : list R)
    (i : nat) (neighbor : Z) :
  (forall nb, nb ∈ chainFrom checks ne neighbor -> nb ≠ Z.of_nat i ->
     0.7 <= sqrt (neighborDistSq pos i nb)) ->
  repelChain checks ne i neighbor pos = pos.
Proof.
  revert neighbor.
  induction checks as [|c IH]; intros neighbor Hfar; [reflexivity|].
  cbn [repelChain chainFrom] in *.
  destruct (decide (neighbor = (-1)%Z)); [reflexivity|].
  assert (Hone : repelOne i neighbor pos = pos).
  { destruct (decide (neighbor = Z.of_nat i)) as [->|Hne].
    - unfold repelOne. by destruct (decide _).
    - apply repelOne_far, Hfar; [apply list_elem_of_here|exact Hne]. }
  rewrite Hone. apply IH. intros nb Hnb. apply Hfar.
  by apply list_elem_of_further.
Qed.

(** C6.  Evaluating particle i against a chain entry, with d the
    difference of their positions and dist = ||d||: the buffer is left as it
    is when dist >= 0.7, when dist^2 <= 0.00001 and when the entry is i
    itself; otherwise the position of i moves by
    d * ((0.7 - dist) / dist * 0.15).  Every other particle keeps its
    position.  The traversal is the evaluation of i against the entries it
    enumerates, in their order; it moves no other particle, and it changes
    nothing when every enumerated entry other than i is at distance 0.7 or
    more. *)
Theorem repulsion_within_minDist (pos : list R) (i : nat) (neighbor : Z) :
  (i * 3 + 2 < length pos)%nat ->
  let dx := rd pos (i * 3) - rd pos (Z.to_nat (neighbor * 3)) in
  let dy := rd pos (i * 3 + 1) - rd pos (Z.to_nat (neighbor * 3) + 1) in
  let dz := rd pos (i * 3 + 2) - rd pos (Z.to_nat (neighbor * 3) + 2) in
  let dist := sqrt (dx * dx + dy * dy + dz * dz) in
  (0.7 <= dist -> repelOne i neighbor pos = pos) /\
  (dx * dx + dy * dy + dz * dz <= 0.00001 -> repelOne i neighbor pos = pos) /\
  (neighbor = Z.of_nat i -> repelOne i neighbor pos = pos) /\
  (neighbor ≠ Z.of_nat i -> dist < 0.7 ->
   0.00001 < dx * dx + dy * dy + dz * dz ->
     getXYZ (repelOne i neighbor pos) i =
       (rd pos (i * 3) + dx * ((0.7 - dist) / dist * 0.15),
        rd pos (i * 3 + 1) + dy * ((0.7 - dist) / dist * 0.15),
        rd pos (i * 3 + 2) + dz * ((0.7 - dist) / dist * 0.15))) /\
  (forall j, j ≠ i ->
     getXYZ (repelOne i neighbor pos) j = getXYZ pos j) /\
  (forall checks ne,
     repelChain checks ne i neighbor pos
       = foldl (fun p nb => repelOne i nb p) pos
           (chainFrom checks ne neighbor)) /\
  (forall checks ne j, j ≠ i ->
     getXYZ (repelChain checks ne i neighbor pos) j = getXYZ pos j) /\
  (forall checks ne,
     (forall nb, nb ∈ chainFrom checks ne neighbor -> nb ≠ Z.of_nat i ->
        0.7 <= sqrt (neighborDistSq pos i nb)) ->
     repelChain checks ne i neighbor pos = pos).
Proof.
  intros Hin dx dy dz dist.
  assert (Hsq : neighborDistSq pos i neighbor = dx * dx + dy * dy + dz * dz)
    by reflexivity.
  split; [|split; [|split; [|split; [|split; [|split; [|split]]]]]].
  - intros Hfar. apply repelOne_far. by rewrite Hsq.
  - intros Hc. unfold repelOne.
    destruct (decide (neighbor = Z.of_nat i)); [done|].
    destruct (decide _) as [[_ Hgt]|_]; [|done].
    fold dx dy dz in Hgt. lra.
  - intros ->. unfold repelOne. by destruct (decide _).
  - intros Hne Hnear Hgt. unfold repelOne.
    destruct (decide (neighbor = Z.of_nat i)); [done|].
    fold dx dy dz. unfold Math_sqrt, minDist, pushStrength. fold dist.
    destruct (decide _) as [_|Hn].
    + unfold getXYZ.
      rewrite (rd_insert_ne _ (i * 3) (i * 3 + 1)) by lia.
      rewrite (rd_insert_ne _ (i * 3 + 1) (i * 3 + 2)) by lia.
      rewrite (rd_insert_ne _ (i * 3) (i * 3 + 2)) by lia.
      rewrite (rd_insert_eq _ (i * 3 + 2)) by (rewrite !length_insert; lia).
      rewrite (rd_insert_ne _ (i * 3 + 2) (i * 3 + 1)) by lia.
      rewrite (rd_insert_eq _ (i * 3 + 1)) by (rewrite !length_insert; lia).
      rewrite (rd_insert_ne _ (i * 3 + 2) (i * 3)) by lia.
      rewrite (rd_insert_ne _ (i * 3 + 1) (i * 3)) by lia.
      rewrite (rd_insert_eq _ (i * 3)) by lia.
      reflexivity.
    + exfalso. apply Hn. split; [|lra].
      assert (H0 : 0 <= dx * dx + dy * dy + dz * dz)
        by apply sum_squares_nonneg.
      pose proof (sqrt_sqrt _ H0) as Hs. fold dist in Hs.
      pose proof (sqrt_pos (dx * dx + dy * dy + dz * dz)) as Hp.
      fold dist in Hp. nra.
  - intros j Hj. apply (only_particle_getXYZ i j); [|done].
    apply repelOne_local.
  - intros checks ne. apply repelChain_fold.
  - intros checks ne j Hj. apply (only_particle_getXYZ i j); [|done].
    apply repelChain_local.
  - intros checks ne Hfar. by apply repelChain_all_far.
Qed.

(** ** Properties of the generators under a random source in [0, 1) *)

Lemma customTarget_spec (pts : list Point3D) (i k : nat) (x y z : R)
    (k' : nat) :
  customTarget pts i k = Some ((x, y, z), k') ->
  (pts = [] -> Rabs x <= 2.5 /\ Rabs y <= 2.5 /\ z = 0) /\
  (pts ≠ [] -> exists p,
     pts !! (i mod length pts)%nat = Some p /\
     Rabs (x - p_x p) <= 0.5 /\ Rabs (y - p_y p) <= 0.5 /\
     Rabs (z - p_z p) <= 0.5).
Proof.
  unfold customTarget.
  pose proof (Math_random_range k) as H0.
  pose proof (Math_random_range (S k)) as H1.
  pose proof (Math_random_range (S (S k))) as H2.
  destruct pts as [|q pts].
  - simpl. gen_steps. intros Hs. apply Some_inj in Hs.
    apply pair_equal_spec in Hs as [Hv _].
    apply pair_equal_spec in Hv as [Hv <-].
    apply pair_equal_spec in Hv as [<- <-].
    split; [|done]. intros _.
    repeat split; try (apply Rabs_le; lra).
  - replace (0 <? length (q :: pts))%nat with true
      by (symmetry; apply Nat.ltb_lt; simpl; lia).
    destruct (lookup_lt_is_Some_2 (q :: pts) (i mod length (q :: pts)))
      as [p Hp].
    { apply Nat.mod_upper_bound. simpl. lia. }
    rewrite Hp. gen_steps. intros Hs. apply Some_inj in Hs.
    apply pair_equal_spec in Hs as [Hv _].
    apply pair_equal_spec in Hv as [Hv <-].
    apply pair_equal_spec in Hv as [<- <-].
    split; [done|]. intros _. exists p. split; [done|].
    repeat split; apply Rabs_le; lra.
Qed.

(** C8.  With shape Custom, regenerating the targets returns (no read of
    the point sequence is out of bounds).  For every active particle i: if
    the stored sequence is empty the target lies in the flat cluster
    |x| <= 2.5, |y| <= 2.5, z = 0; if it is not empty, the element at
    i mod len exists and the target is within 0.5 of it on each axis. *)
Theorem custom_targets (e : ParticleEngine) :
  wf e -> shape (currentConfig e) = CUSTOM ->
  exists e', updateTargetShape e = Some e' /\
    forall i, (i < MAX_PARTICLES)%nat ->
      (Z.of_nat i < activeCount (currentConfig e))%Z ->
      let x := rd (targetPositions e') (i * 3) in
      let y := rd (targetPositions e') (i * 3 + 1) in
      let z := rd (targetPositions e') (i * 3 + 2) in
      (customShapePoints e = [] ->
         Rabs x <= 2.5 /\ Rabs y <= 2.5 /\ z = 0) /\
      (customShapePoints e ≠ [] -> exists p,
         customShapePoints e !! (i mod length (customShapePoints e))%nat
           = Some p /\
         Rabs (x - p_x p) <= 0.5 /\ Rabs (y - p_y p) <= 0.5 /\
         Rabs (z - p_z p) <= 0.5).
Proof.
  intros Hwf Hshape.
  destruct (regenerate_spec (currentConfig e) (customShapePoints e)
              (targetPositions e) (randomCalls e) (wf_targets e Hwf))
    as (t & k & Hr & _ & _ & Hall).
  exists (set_targets e t k). split.
  { unfold updateTargetShape. by rewrite Hr. }
  intros i Hi Hact. simpl.
  destruct (Hall i Hi) as [_ Hg].
  destruct (Hg Hact) as (kj & kj' & _ & _ & Hgen).
  rewrite Hshape in Hgen. simpl in Hgen.
  apply (customTarget_spec _ _ _ _ _ _ _ Hgen).
Qed.

(** [Math.cbrt] maps [0, 1) into [0, 1]. *)
Lemma Math_cbrt_unit (u : R) : 0 <= u < 1 -> 0 <= Math_cbrt u <= 1.
Proof.
  intros [H0 H1]. unfold Math_cbrt.
  destruct (Rlt_dec 0 u) as [Hpos|Hn].
  - unfold Rpower. split; [left; apply exp_pos|].
    rewrite <- exp_0. left. apply exp_increasing.
    assert (Hln : ln u < 0).
    { rewrite <- ln_1. apply ln_increasing; lra. }
    nra.
  - destruct (Rlt_dec u 0); lra.
Qed.

Lemma sphereTarget_spec (k : nat) (x y z : R) (k' : nat) :
  sphereTarget k = Some ((x, y, z), k') ->
  sqrt (x * x + y * y + z * z) <= 12.
Proof.
  unfold sphereTarget. gen_steps. intros Hs. apply Some_inj in Hs.
  apply pair_equal_spec in Hs as [Hv _].
  apply pair_equal_spec in Hv as [Hv <-].
  apply pair_equal_spec in Hv as [<- <-].
  pose proof (Math_cbrt_unit _ (Math_random_range k)) as Hc.
  set (r := 12 * Math_cbrt (Math_random k)) in *.
  set (theta := Math_random (S k) * 2 * PI).
  set (phi := acos (2 * Math_random (S (S k)) - 1)).
  pose proof (sin2_cos2 theta) as Ht. pose proof (sin2_cos2 phi) as Hp.
  unfold Rsqr in Ht, Hp.
  replace (r * sin phi * cos theta * (r * sin phi * cos theta)
           + r * sin phi * sin theta * (r * sin phi * sin theta)
           + r * cos phi * (r * cos phi))
    with (r * r * (sin phi * sin phi
                   * (sin theta * sin theta + cos theta * cos theta)
                   + cos phi * cos phi)) by ring.
  rewrite Ht, Rmult_1_r, Hp, Rmult_1_r.
  rewrite sqrt_square by (unfold r; lra). unfold r. lra.
Qed.

(** [Math.cbrt] is a cube root on [0, 1). *)
Lemma Math_cbrt_cube (u : R) : 0 <= u -> Math_cbrt u ^ 3 = u.
Proof.
  intros H0. unfold Math_cbrt.
  destruct (Rlt_dec 0 u) as [Hpos|Hn].
  - rewrite <- Rpower_pow by apply exp_pos.
    rewrite Rpower_mult. replace (/ 3 * INR 3) with 1 by (simpl; lra).
    by apply Rpower_1.
  - destruct (Rlt_dec u 0); [lra|]. replace u with 0 by lra. lra.
Qed.

(** The sphere generator: radius 12 * cbrt(u1), azimuth 2 * PI * u2 and
    polar angle acos(2 * u3 - 1), on three consecutive draws. *)
Lemma sphereTarget_form (k : nat) (x y z : R) (k' : nat) :
  sphereTarget k = Some ((x, y, z), k') ->
  let r := 12 * Math_cbrt (Math_random k) in
  let theta := Math_random (k + 1) * 2 * PI in
  let phi := acos (2 * Math_random (k + 2) - 1) in
  k' = (k + 3)%nat /\
  x = r * sin phi * cos theta /\ y = r * sin phi * sin theta /\
  z = r * cos phi /\
  sqrt (x * x + y * y + z * z) = r.
Proof.
  unfold sphereTarget. gen_steps. intros Hs. apply Some_inj in Hs.
  apply pair_equal_spec in Hs as [Hv Hk].
  apply pair_equal_spec in Hv as [Hv <-].
  apply pair_equal_spec in Hv as [<- <-].
  replace (S k) with (k + 1)%nat by lia.
  replace (S (k + 1)) with (k + 2)%nat by lia.
  pose proof (Math_cbrt_unit _ (Math_random_range k)) as Hc.
  cbv zeta.
  set (r := 12 * Math_cbrt (Math_random k)) in *.
  set (theta := Math_random (k + 1) * 2 * PI).
  set (phi := acos (2 * Math_random (k + 2) - 1)).
  split; [lia|]. do 3 (split; [reflexivity|]).
  pose proof (sin2_cos2 theta) as Ht. pose proof (sin2_cos2 phi) as Hp.
  unfold Rsqr in Ht, Hp.
  replace (r * sin phi * cos theta * (r * sin phi * cos theta)
           + r * sin phi * sin theta * (r * sin phi * sin theta)
           + r * cos phi * (r * cos phi))
    with (r * r * (sin phi * sin phi
                   * (sin theta * sin theta + cos theta * cos theta)
                   + cos phi * cos phi)) by ring.
  rewrite Ht, Rmult_1_r, Hp, Rmult_1_r.
  apply sqrt_square. unfold r. lra.
Qed.

(** C9.  With shape Sphere, regenerating the targets returns and every
    active particle has a target (x, y, z) with sqrt(x^2 + y^2 + z^2) <= 12,
    whatever numbers of [0, 1) the random source draws: the target is the
    point with radius r = 12 * cbrt(u1), azimuth theta = u2 * 2 * PI and
    polar angle phi = acos(2 * u3 - 1) for three consecutive draws u1, u2,
    u3 of this regeneration, cbrt(u1) is the cube root of u1, the angles lie
    in [0, 2 PI) and [0, PI], and its norm is exactly r, between 0 and 12. *)
Theorem sphere_targets_within_radius (e : ParticleEngine) :
  wf e -> shape (currentConfig e) = SPHERE ->
  exists e', updateTargetShape e = Some e' /\
    forall i, (i < MAX_PARTICLES)%nat ->
      (Z.of_nat i < activeCount (currentConfig e))%Z ->
      let x := rd (targetPositions e') (i * 3) in
      let y := rd (targetPositions e') (i * 3 + 1) in
      let z := rd (targetPositions e') (i * 3 + 2) in
      sqrt (x * x + y * y + z * z) <= 12 /\
      exists k, (randomCalls e <= k)%nat /\ (k + 3 <= randomCalls e')%nat /\
        let u1 := Math_random k in
        let r := 12 * Math_cbrt u1 in
        let theta := Math_random (k + 1) * 2 * PI in
        let phi := acos (2 * Math_random (k + 2) - 1) in
        Math_cbrt u1 ^ 3 = u1 /\ 0 <= r <= 12 /\
        0 <= theta < 2 * PI /\ 0 <= phi <= PI /\
        x = r * sin phi * cos theta /\ y = r * sin phi * sin theta /\
        z = r * cos phi /\
        sqrt (x * x + y * y + z * z) = r.
Proof.
  intros Hwf Hshape.
  destruct (regenerate_spec (currentConfig e) (customShapePoints e)
              (targetPositions e) (randomCalls e) (wf_targets e Hwf))
    as (t & k & Hr & _ & _ & Hall).
  exists (set_targets e t k). split.
  { unfold updateTargetShape. by rewrite Hr. }
  intros i Hi Hact. cbn [targetPositions randomCalls set_targets].
  destruct (Hall i Hi) as [_ Hg].
  destruct (Hg Hact) as (kj & kj' & Hk0 & Hk1 & Hgen).
  rewrite Hshape in Hgen. cbn [shapeTarget] in Hgen. unfold getXYZ in Hgen.
  destruct (sphereTarget_form _ _ _ _ _ Hgen)
    as (Hk' & Hx & Hy & Hz & Hnorm).
  pose proof (Math_cbrt_unit _ (Math_random_range kj)) as Hc.
  pose proof (Math_random_range kj) as Hu1.
  pose proof (Math_random_range (kj + 1)) as Hu2.
  pose proof PI_RGT_0 as Hpi.
  cbv zeta. split; [rewrite Hnorm; lra|].
  exists kj. split; [exact Hk0|]. split; [lia|].
  split; [apply Math_cbrt_cube; lra|]. split; [lra|].
  split; [nra|]. split; [apply acos_bound|].
  split; [exact Hx|]. split; [exact Hy|]. split; [exact Hz|exact Hnorm].
Qed.

(** ** updateConfig *)

Lemma updateTargetShape_wf (e e' : ParticleEngine) :
  wf e -> updateTargetShape e = Some e' -> wf e'.
Proof.
  intros Hwf Hu.
  destruct (regenerate_spec (currentConfig e) (customShapePoints e)
              (targetPositions e) (randomCalls e) (wf_targets e Hwf))
    as (t & k & Hr & Hlen & _).
  unfold updateTargetShape in Hu. rewrite Hr in Hu. injection Hu as <-.
  destruct Hwf. by split.
Qed.

Lemma repaint_returns (c : string) (cols : list R) (k : nat) :
  exists cols' k', repaint c cols k = Some (cols', k') /\
    length cols' = length cols /\ (k <= k')%nat.
Proof.
  unfold repaint.
  destruct (isMulticolor c);
    apply (for_each_inv _
             (fun _ a k' => length a = length cols /\ (k <= k')%nat)
             MAX_PARTICLES); [|lia|done| |lia|done].
  - intros i a k1 _ [Hl Hk]. unfold multicolorBody. gen_steps.
    eexists _, _. split; [reflexivity|].
    split; [by rewrite length_setXYZ|lia].
  - intros i a k1 _ [Hl Hk]. unfold singleColorBody. gen_steps.
    eexists _, _. split; [reflexivity|].
    split; [by rewrite length_setXYZ|lia].
Qed.

(** The repaint touches the colour buffer and the count of draws only. *)
Lemma applyColor_returns (p : PartialConfig) (e : ParticleEngine) :
  wf e ->
  exists e', applyColor p e = Some e' /\ wf e' /\
    positions e' = positions e /\ targetPositions e' = targetPositions e /\
    currentConfig e' = currentConfig e /\
    customShapePoints e' = customShapePoints e /\
    isDisposed e' = isDisposed e /\
    (randomCalls e <= randomCalls e')%nat.
Proof.
  intros Hwf. unfold applyColor.
  assert (Hsame : exists e', Some e = Some e' /\ wf e' /\
    positions e' = positions e /\ targetPositions e' = targetPositions e /\
    currentConfig e' = currentConfig e /\
    customShapePoints e' = customShapePoints e /\
    isDisposed e' = isDisposed e /\
    (randomCalls e <= randomCalls e')%nat).
  { exists e. split; [done|]. split; [done|]. repeat split; done. }
  destruct (new_color p) as [c|]; [|exact Hsame].
  destruct (truthy c); [|exact Hsame].
  destruct (repaint_returns c (colors e) (randomCalls e))
    as (cols & k & Hr & Hl & Hk).
  rewrite Hr. eexists. split; [reflexivity|].
  destruct Hwf. repeat split; simpl; try done. congruence.
Qed.

(** On an engine that is not disposed, [updateConfig] merges the
    configuration, repaints, and then calls [updateTargetShape] or not. *)
Lemma updateConfig_active (e : ParticleEngine) (p : PartialConfig) :
  wf e -> isDisposed e = false ->
  exists e2, wf e2 /\
    targetPositions e2 = targetPositions e /\
    currentConfig e2 = mergeConfig (currentConfig e) p /\
    customShapePoints e2 = customShapePoints e /\
    (randomCalls e <= randomCalls e2)%nat /\
    updateConfig e p =
      if decide (is_Some (new_shape p) ∨ is_Some (new_density p))
      then updateTargetShape e2 else Some e2.
Proof.
  intros Hwf Hact. unfold updateConfig. rewrite Hact.
  set (e1 := set_config e (mergeConfig (currentConfig e) p)).
  assert (Hwf1 : wf e1) by (destruct Hwf; by split).
  destruct (applyColor_returns p e1 Hwf1)
    as (e2 & Hc & Hwf2 & _ & Ht2 & Hcfg2 & Hpts2 & _ & Hk2).
  rewrite Hc. exists e2. repeat split; try done; apply Hwf2.
Qed.

(** C3, as the code has it.  On an engine that is not disposed,
    updateConfig returns.  When the partial carries neither a shape nor a
    density, the target buffer is unchanged (whatever it says about spread
    and colour).  When it carries a shape or a density, whether or not the
    value differs from the current one, the targets are regenerated: the
    result is what updateTargetShape computes from the old target buffer
    under the merged configuration. *)
Theorem updateConfig_regeneration (e : ParticleEngine) (p : PartialConfig) :
  wf e -> isDisposed e = false ->
  exists e', updateConfig e p = Some e' /\
    (new_shape p = None -> new_density p = None ->
       targetPositions e' = targetPositions e) /\
    (is_Some (new_shape p) ∨ is_Some (new_density p) ->
       exists e2, wf e2 /\
         targetPositions e2 = targetPositions e /\
         currentConfig e2 = mergeConfig (currentConfig e) p /\
         customShapePoints e2 = customShapePoints e /\
         (randomCalls e <= randomCalls e2)%nat /\
         updateTargetShape e2 = Some e').
Proof.
  intros Hwf Hact.
  destruct (updateConfig_active e p Hwf Hact)
    as (e2 & Hwf2 & Ht2 & Hcfg2 & Hpts2 & Hk2 & Hu).
  rewrite Hu.
  destruct (decide (is_Some (new_shape p) ∨ is_Some (new_density p)))
    as [Hyes|Hno].
  - destruct (updateTargetShape_returns e2 Hwf2) as (e' & Hu' & _).
    exists e'. split; [done|]. split.
    + intros Hs Hd. destruct Hyes as [[? H]|[? H]]; congruence.
    + intros _. by exists e2.
  - exists e2. split; [done|]. split; [by intros|].
    intros Hyes. contradiction.
Qed.

Lemma updateConfig_wf (e e' : ParticleEngine) (p : PartialConfig) :
  wf e -> updateConfig e p = Some e' -> wf e'.
Proof.
  intros Hwf Hu. destruct (isDisposed e) eqn:Hd.
  { rewrite updateConfig_disposed in Hu by done. by injection Hu as <-. }
  unfold updateConfig in Hu. rewrite Hd in Hu.
  set (e1 := set_config e (mergeConfig (currentConfig e) p)) in *.
  assert (Hwf1 : wf e1) by (destruct Hwf; by split).
  destruct (applyColor_returns p e1 Hwf1) as (e2 & Hc & Hwf2 & _).
  rewrite Hc in Hu. simpl in Hu.
  destruct (decide _); [|by injection Hu as <-].
  by apply (updateTargetShape_wf e2).
Qed.

(** ** The constructor *)

Lemma rd_insert_cases (a : list R) (j m : nat) (v : R) :
  rd (<[j := v]> a) m = v ∨ rd (<[j := v]> a) m = rd a m.
Proof.
  destruct (decide (j = m)) as [->|Hne].
  - destruct (decide (m < length a)%nat).
    + left. by apply rd_insert_eq.
    + right. rewrite list_insert_ge by lia. reflexivity.
  - right. by apply rd_insert_ne.
Qed.

Lemma within50_setXYZ (a : list R) (i : nat) (x y z : R) :
  within50 a -> -50 <= x <= 50 -> -50 <= y <= 50 -> -50 <= z <= 50 ->
  within50 (setXYZ a i (x, y, z)).
Proof.
  intros Ha Hx Hy Hz m. unfold setXYZ.
  destruct (rd_insert_cases (<[(i * 3 + 1)%nat := y]> (<[(i * 3)%nat := x]> a))
              (i * 3 + 2) m z) as [-> | ->]; [done|].
  destruct (rd_insert_cases (<[(i * 3)%nat := x]> a) (i * 3 + 1) m y)
    as [-> | ->]; [done|].
  destruct (rd_insert_cases a (i * 3) m x) as [-> | ->]; [done|apply Ha].
Qed.

Lemma rd_replicate (n m : nat) (v : R) :
  (m < n)%nat -> rd (replicate n v) m = v.
Proof. intros H. unfold rd. by rewrite lookup_replicate_2. Qed.

Lemma within50_zeros (n : nat) : within50 (replicate n 0).
Proof.
  intros m. unfold rd. destruct (replicate n 0 !! m) as [v|] eqn:Hv; simpl.
  - apply lookup_replicate in Hv as [-> _]. lra.
  - lra.
Qed.

Lemma initBody_step (c : string) (i : nat) (b : list R * list R) (k : nat) :
  length b.1 = (MAX_PARTICLES * 3)%nat ->
  length b.2 = (MAX_PARTICLES * 3)%nat -> within50 b.1 ->
  exists b' k', initBody c i b k = Some (b', k') /\
    length b'.1 = (MAX_PARTICLES * 3)%nat /\
    length b'.2 = (MAX_PARTICLES * 3)%nat /\ within50 b'.1.
Proof.
  destruct b as [pos cols]. simpl. intros Hp Hc Hb. unfold initBody.
  pose proof (Math_random_range k). pose proof (Math_random_range (S k)).
  pose proof (Math_random_range (S (S k))).
  destruct (isMulticolor c); gen_steps;
    (eexists _, _; split; [reflexivity|]; cbn [fst snd];
     rewrite !length_insert, length_setXYZ; split; [done|]; split; [done|];
     apply (within50_setXYZ pos i); [done|lra|lra|lra]).
Qed.

(** The engine the constructor returns. *)
Lemma newParticleEngine_returns (k0 : nat) :
  exists e0, newParticleEngine k0 = Some e0 /\ wf e0 /\
    isDisposed e0 = false /\ currentConfig e0 = initialConfig /\
    customShapePoints e0 = [] /\ scrollVelocity e0 = 0 /\
    within50 (positions e0) /\
    forall i, (i < MAX_PARTICLES)%nat ->
      ((12500 <= Z.of_nat i)%Z ->
         getXYZ (targetPositions e0) i = SENTINEL) /\
      ((Z.of_nat i < 12500)%Z ->
         exists k k', (k' <= randomCalls e0)%nat /\
           nebulaTarget k = Some (getXYZ (targetPositions e0) i, k')).
Proof.
  unfold newParticleEngine.
  set (zeros := replicate (MAX_PARTICLES * 3) 0).
  assert (Hz : length (zeros, zeros).1 = (MAX_PARTICLES * 3)%nat /\
               length (zeros, zeros).2 = (MAX_PARTICLES * 3)%nat /\
               within50 (zeros, zeros).1).
  { cbn [fst snd]. unfold zeros. rewrite length_replicate.
    split; [done|]. split; [done|]. apply within50_zeros. }
  destruct (for_each_inv (initBody (color initialConfig))
              (fun _ b _ => length b.1 = (MAX_PARTICLES * 3)%nat /\
                            length b.2 = (MAX_PARTICLES * 3)%nat /\
                            within50 b.1)
              MAX_PARTICLES
              ltac:(intros i b k _ (H1 & H2 & H3);
                    destruct (initBody_step (color initialConfig) i b k
                                H1 H2 H3) as (b' & k' & ? & ?);
                    by exists b', k')
              MAX_PARTICLES 0%nat (zeros, zeros) k0 ltac:(lia) Hz)
    as ([pos cols] & k & Hinit & Hlp & Hlc & Hb).
  rewrite Hinit. simpl in Hlp, Hlc, Hb.
  match goal with
  | |- context [updateTargetShape ?e] => set (e1 := e)
  end.
  assert (Hwf1 : wf e1).
  { split; cbn [positions targetPositions colors hashTable nextEntry e1];
      [exact Hlp|apply length_replicate|exact Hlc|apply length_replicate
      |apply length_replicate]. }
  destruct (updateTargetShape_returns e1 Hwf1) as (e2 & Hu & _ & _ & Hall).
  destruct (updateTargetShape_frame e1 e2 Hu)
    as (Hp & Hc & Hh & Hn & Hcfg & Hpts & Hv & Hd & _).
  pose proof (updateTargetShape_wf e1 e2 Hwf1 Hu) as Hwf2.
  rewrite Hu. simpl.
  eexists. split; [reflexivity|].
  split. { destruct Hwf2. by split. }
  simpl. rewrite Hd, Hcfg, Hpts, Hv, Hp. simpl.
  do 4 (split; [reflexivity|]). split; [exact Hb|].
  intros i Hi. split.
  - intros Hhid. apply (Hall i); [exact Hi|].
    change (currentConfig e1) with initialConfig.
    rewrite initial_count. exact Hhid.
  - intros Hact. destruct (Hall i Hi) as [_ Hg].
    change (currentConfig e1) with initialConfig in Hg.
    rewrite initial_count in Hg.
    destruct (Hg Hact) as (kj & kj' & _ & Hle & Hgen).
    exists kj, kj'. split; [lia|exact Hgen].
Qed.

Lemma nebulaTarget_spec (k : nat) (x y z : R) (k' : nat) :
  nebulaTarget k = Some ((x, y, z), k') ->
  z = (Math_random (k + 4) - 0.5) * 10 /\ k' = (k + 5)%nat.
Proof.
  unfold nebulaTarget. gen_steps. intros Hs. apply Some_inj in Hs.
  apply pair_equal_spec in Hs as [Hv <-].
  apply pair_equal_spec in Hv as [_ <-].
  split; [|lia]. by replace (k + 4)%nat with (S (S (S (S k)))) by lia.
Qed.

(** ** The target of the first particle at the initial density *)

Lemma first_target (e e' : ParticleEngine) :
  wf e -> density (currentConfig e) = 0.5 ->
  updateTargetShape e = Some e' ->
  exists k k', (randomCalls e <= k)%nat /\ (k' <= randomCalls e')%nat /\
    shapeTarget (shape (currentConfig e)) (customShapePoints e) 0 k
      = Some (getXYZ (targetPositions e') 0, k').
Proof.
  intros Hwf Hd Hu.
  destruct (updateTargetShape_returns e Hwf) as (e2 & Hu2 & _ & _ & Hall).
  rewrite Hu in Hu2. injection Hu2 as <-.
  destruct (Hall 0%nat MAX_PARTICLES_pos) as [_ Hg].
  apply Hg. rewrite (half_count _ Hd). lia.
Qed.

Lemma first_nebula_target (e e' : ParticleEngine) :
  wf e -> density (currentConfig e) = 0.5 ->
  shape (currentConfig e) = NEBULA ->
  updateTargetShape e = Some e' ->
  exists k, (randomCalls e <= k)%nat /\ (k + 5 <= randomCalls e')%nat /\
    rd (targetPositions e') 2 = (Math_random (k + 4) - 0.5) * 10.
Proof.
  intros Hwf Hd Hs Hu.
  destruct (first_target e e' Hwf Hd Hu) as (k & k' & Hk & Hk' & Hgen).
  rewrite Hs in Hgen. simpl in Hgen.
  destruct (nebulaTarget_spec _ _ _ _ _ Hgen) as [Hz ->].
  exists k. repeat split; done.
Qed.

Lemma first_custom_target (e e' : ParticleEngine) :
  wf e -> density (currentConfig e) = 0.5 ->
  shape (currentConfig e) = CUSTOM ->
  updateTargetShape e = Some e' ->
  (customShapePoints e = [] -> rd (targetPositions e') 2 = 0) /\
  (forall pt, customShapePoints e = [pt] ->
     Rabs (rd (targetPositions e') 2 - p_z pt) <= 0.5).
Proof.
  intros Hwf Hd Hs Hu.
  destruct (first_target e e' Hwf Hd Hu) as (k & k' & Hk & Hk' & Hgen).
  rewrite Hs in Hgen. simpl in Hgen.
  destruct (customTarget_spec _ _ _ _ _ _ _ Hgen) as [Hempty Hfull].
  split.
  - intros Hpts. by destruct (Hempty Hpts) as (_ & _ & Hz).
  - intros pt Hpts. rewrite Hpts in Hfull.
    destruct (Hfull ltac:(done)) as (p & Hp & _ & _ & Hz).
    simpl in Hp. injection Hp as <-. exact Hz.
Qed.

Lemma setCustomShape_custom (e : ParticleEngine) (pts : list Point3D) :
  shape (currentConfig e) = CUSTOM ->
  setCustomShape e pts = updateTargetShape (set_customShapePoints e pts).
Proof.
  intros Hs. unfold setCustomShape. simpl.
  destruct (decide (shape (currentConfig e) = CUSTOM)); done.
Qed.

Lemma dispose_wf (e : ParticleEngine) : wf e -> wf (dispose e).
Proof. intros []. by split. Qed.

(** ** What the configuration calls leave alone *)

Lemma applyColor_frame (p : PartialConfig) (e e' : ParticleEngine) :
  applyColor p e = Some e' ->
  positions e' = positions e /\ targetPositions e' = targetPositions e /\
  hashTable e' = hashTable e /\ nextEntry e' = nextEntry e /\
  currentConfig e' = currentConfig e /\
  customShapePoints e' = customShapePoints e /\
  scrollVelocity e' = scrollVelocity e /\ isDisposed e' = isDisposed e /\
  particlesRotationY e' = particlesRotationY e /\
  bgStarsRotationY e' = bgStarsRotationY e.
Proof.
  unfold applyColor. destruct (new_color p) as [c|].
  - destruct (truthy c).
    + destruct (repaint c (colors e) (randomCalls e)) as [[cols k]|]; [|done].
      intros [= <-]. simpl. repeat split.
    + intros [= <-]. repeat split.
  - intros [= <-]. repeat split.
Qed.

(** [updateConfig], field by field, for the fields it never writes. *)
Lemma updateConfig_frame (e e' : ParticleEngine) (p : PartialConfig) :
  updateConfig e p = Some e' ->
  positions e' = positions e /\ hashTable e' = hashTable e /\
  nextEntry e' = nextEntry e /\
  customShapePoints e' = customShapePoints e /\
  scrollVelocity e' = scrollVelocity e /\ isDisposed e' = isDisposed e /\
  particlesRotationY e' = particlesRotationY e /\
  bgStarsRotationY e' = bgStarsRotationY e.
Proof.
  unfold updateConfig. destruct (isDisposed e) eqn:Hd.
  { intros [= <-]. by rewrite Hd. }
  set (e1 := set_config e (mergeConfig (currentConfig e) p)).
  destruct (applyColor p e1) as [e2|] eqn:Hc; [|done]. simpl.
  destruct (applyColor_frame p e1 e2 Hc)
    as (Hp & _ & Hh & Hn & _ & Hpts & Hv & Hdis & Hr & Hb).
  destruct (decide _).
  - intros Hu. destruct (updateTargetShape_frame e2 e' Hu)
      as (Hp' & _ & Hh' & Hn' & _ & Hpts' & Hv' & Hdis' & Hr' & Hb').
    rewrite Hp', Hh', Hn', Hpts', Hv', Hdis', Hr', Hb'.
    rewrite Hp, Hh, Hn, Hpts, Hv, Hdis, Hr, Hb. by rewrite <- Hd.
  - intros [= <-].
    rewrite Hp, Hh, Hn, Hpts, Hv, Hdis, Hr, Hb. by rewrite <- Hd.
Qed.

Lemma setCustomShape_frame (e e' : ParticleEngine) (pts : list Point3D) :
  setCustomShape e pts = Some e' ->
  positions e' = positions e /\ colors e' = colors e /\
  currentConfig e' = currentConfig e /\ customShapePoints e' = pts /\
  scrollVelocity e' = scrollVelocity e /\ isDisposed e' = isDisposed e /\
  particlesRotationY e' = particlesRotationY e /\
  bgStarsRotationY e' = bgStarsRotationY e.
Proof.
  unfold setCustomShape. destruct (decide _).
  - intros Hu. destruct (updateTargetShape_frame _ e' Hu)
      as (Hp & Hc & _ & _ & Hcfg & Hpts & Hv & Hd & Hr & Hb).
    rewrite Hp, Hc, Hcfg, Hpts, Hv, Hd, Hr, Hb. repeat split.
  - intros [= <-]. repeat split.
Qed.

Lemma animate_wf (e e' : ParticleEngine) (o : R) :
  wf e -> animate e o = Some e' -> wf e'.
Proof.
  intros Hwf Ha. destruct (isDisposed e) eqn:Hd.
  { rewrite animate_disposed in Ha by done. by injection Ha as <-. }
  destruct (animate_active e o Hd) as (pos & k & Hloop & Ha').
  rewrite Ha' in Ha. injection Ha as <-.
  destruct (for_each_local _
              (animateBody_local (targetPositions e)
                 (buildGrid (positions e) (hashTable e) (nextEntry e)).1
                 (buildGrid (positions e) (hashTable e) (nextEntry e)).2
                 o (spread (currentConfig e)))
              MAX_PARTICLES 0%nat (positions e) (randomCalls e))
    as (pos' & k' & Hf & _ & Hlen & _).
  rewrite Hloop in Hf. injection Hf as <- <-.
  destruct (buildGrid_lengths (positions e) (hashTable e) (nextEntry e))
    as [Hh Hn].
  destruct Hwf. split; simpl; congruence.
Qed.

Lemma setCustomShape_returns (e : ParticleEngine) (pts : list Point3D) :
  wf e -> exists e', setCustomShape e pts = Some e' /\ wf e'.
Proof.
  intros Hwf. unfold setCustomShape.
  assert (Hwf1 : wf (set_customShapePoints e pts)) by (destruct Hwf; by split).
  destruct (decide _).
  - destruct (updateTargetShape_returns _ Hwf1) as (e' & Hu & _).
    exists e'. split; [done|]. by apply (updateTargetShape_wf _ e' Hwf1).
  - by eexists.
Qed.

Lemma updateConfig_returns (e : ParticleEngine) (p : PartialConfig) :
  wf e -> exists e', updateConfig e p = Some e' /\ wf e'.
Proof.
  intros Hwf. destruct (isDisposed e) eqn:Hd.
  { exists e. split; [by apply updateConfig_disposed|done]. }
  destruct (updateConfig_active e p Hwf Hd) as (e2 & Hwf2 & _ & _ & _ & _ & Hu).
  destruct (decide _) in Hu.
  - destruct (updateTargetShape_returns e2 Hwf2) as (e' & Hu' & _).
    exists e'. split; [congruence|]. by apply (updateTargetShape_wf e2).
  - exists e2. done.
Qed.

(** ** Invariants of a running engine *)

Lemma updateTargetShape_hidden (e e' : ParticleEngine) :
  wf e -> updateTargetShape e = Some e' -> hidden_at_sentinel e'.
Proof.
  intros Hwf Hu.
  destruct (updateTargetShape_returns e Hwf) as (e2 & Hu2 & _ & _ & Hall).
  rewrite Hu in Hu2. injection Hu2 as <-.
  destruct (updateTargetShape_frame e e' Hu) as (_ & _ & _ & _ & Hcfg & _).
  intros i Hi Hc. rewrite Hcfg in Hc. by apply (Hall i Hi).
Qed.

Lemma decayVelocity_range (v : R) :
  0 <= v <= 0.3 -> 0 <= decayVelocity v <= 0.3.
Proof.
  intros Hv. unfold decayVelocity. destruct (decide _); lra.
Qed.

Lemma handleScroll_range (e : ParticleEngine) (d : R) :
  0 <= scrollVelocity e <= 0.3 ->
  0 <= scrollVelocity (handleScroll e d) <= 0.3.
Proof.
  intros Hv. unfold handleScroll, Math_abs.
  destruct (isDisposed e); [done|]. simpl.
  pose proof (Rabs_pos d). destruct (decide _); nra.
Qed.

Lemma call_running (e : ParticleEngine) (c : Call) :
  running e -> exists e', call e c = Some e' /\ running e'.
Proof.
  intros (Hwf & Hv & Hh). destruct c as [o|p|pts|d|]; simpl.
  - destruct (animate_returns e o) as [e' Ha].
    exists e'. split; [done|]. split; [by apply (animate_wf e e' o)|].
    destruct (isDisposed e) eqn:Hd.
    + rewrite animate_disposed in Ha by done. injection Ha as <-.
      split; [exact Hv|exact Hh].
    + destruct (animate_active e o Hd) as (pos & k & _ & Ha').
      rewrite Ha' in Ha. injection Ha as <-.
      split; [by apply decayVelocity_range|exact Hh].
  - destruct (updateConfig_returns e p Hwf) as (e' & Hu & Hwf').
    exists e'. split; [done|]. split; [done|].
    destruct (updateConfig_frame e e' p Hu) as (_ & _ & _ & _ & Hv' & _).
    split; [by rewrite Hv'|].
    destruct (isDisposed e) eqn:Hd.
    { rewrite updateConfig_disposed in Hu by done. by injection Hu as <-. }
    destruct (updateConfig_active e p Hwf Hd)
      as (e2 & Hwf2 & Ht2 & Hcfg2 & _ & _ & Hu2).
    rewrite Hu in Hu2. destruct (decide _) as [Hyes|Hno] in Hu2.
    + by apply (updateTargetShape_hidden e2).
    + injection Hu2 as ->. intros i Hi Hc. rewrite Ht2.
      apply Hh; [done|]. rewrite Hcfg2 in Hc.
      destruct (new_density p) as [d|] eqn:Hnd.
      * exfalso. apply Hno. right. by eexists.
      * rewrite (activeCount_density _ (currentConfig e)) in Hc; [exact Hc|].
        simpl. by rewrite Hnd.
  - destruct (setCustomShape_returns e pts Hwf) as (e' & Hs & Hwf').
    exists e'. split; [done|]. split; [done|].
    destruct (setCustomShape_frame e e' pts Hs) as (_ & _ & Hcfg & _ & Hv' & _).
    split; [by rewrite Hv'|].
    unfold setCustomShape in Hs. destruct (decide _) in Hs.
    + apply (updateTargetShape_hidden (set_customShapePoints e pts));
        [destruct Hwf; by split|done].
    + injection Hs as <-. exact Hh.
  - eexists. split; [reflexivity|]. split.
    + unfold handleScroll. destruct (isDisposed e); [done|].
      destruct Hwf; by split.
    + split; [by apply handleScroll_range|].
      unfold handleScroll. destruct (isDisposed e); [done|]. exact Hh.
  - eexists. split; [reflexivity|]. split; [by apply dispose_wf|].
    split; [done|exact Hh].
Qed.

Lemma calls_running (cs : list Call) (e : ParticleEngine) :
  running e -> exists e', calls e cs = Some e' /\ running e'.
Proof.
  revert e. induction cs as [|c cs IH]; intros e Hr; simpl.
  - by exists e.
  - destruct (call_running e c Hr) as (e1 & Hc & Hr1).
    rewrite Hc. simpl. by apply IH.
Qed.

(** X1.  Whatever sequence of animate, updateConfig, setCustomShape,
    handleScroll and dispose calls a client makes on a freshly constructed
    engine, every call returns, the buffers keep the sizes the constructor
    allocated, the scroll velocity stays within [0, 0.3], and every particle
    at or beyond floor(MAX_PARTICLES * density) has the sentinel as its
    target. *)
Theorem calls_keep_invariants (k0 : nat) (cs : list Call) :
  exists e0 e,
    newParticleEngine k0 = Some e0 /\ calls e0 cs = Some e /\
    wf e /\ 0 <= scrollVelocity e <= 0.3 /\
    forall i, (i < MAX_PARTICLES)%nat ->
      (activeCount (currentConfig e) <= Z.of_nat i)%Z ->
      getXYZ (targetPositions e) i = (9999, 9999, 9999).
Proof.
  destruct (newParticleEngine_returns k0)
    as (e0 & Hnew & Hwf & _ & Hcfg & _ & Hv & _ & Ht).
  assert (Hr : running e0).
  { split; [done|]. split; [rewrite Hv; lra|].
    intros i Hi Hc. apply (Ht i Hi).
    rewrite Hcfg, initial_count in Hc. exact Hc. }
  destruct (calls_running cs e0 Hr) as (e & Hc & Hwf' & Hv' & Hh).
  exists e0, e. split; [exact Hnew|]. split; [exact Hc|].
  split; [exact Hwf'|]. split; [exact Hv'|]. exact Hh.
Qed.

(** ** Momentum over many frames *)

Lemma decayVelocity_zero : decayVelocity 0 = 0.
Proof.
  unfold decayVelocity, Math_abs. destruct (decide _) as [_|Hn]; [done|].
  exfalso. apply Hn. rewrite Rmult_0_l, Rabs_R0. lra.
Qed.

Lemma decay_iter_zero (n : nat) : Nat.iter n decayVelocity 0 = 0.
Proof.
  induction n as [|n IH]; simpl; [done|]. rewrite IH. apply decayVelocity_zero.
Qed.

(** After at least one step the velocity is zero or still at least the
    snap threshold. *)
Lemma decay_iter_cases (n : nat) (v : R) :
  0 <= v ->
  Nat.iter (S n) decayVelocity v = 0 ∨
  (Nat.iter (S n) decayVelocity v = 0.96 ^ S n * v /\
   0.0001 <= Nat.iter (S n) decayVelocity v).
Proof.
  intros Hv. induction n as [|n IH].
  - simpl. unfold decayVelocity, Math_abs.
    destruct (decide _) as [Hs|Hs]; [by left|right].
    rewrite Rabs_pos_eq in Hs by lra. split; lra.
  - change (Nat.iter (S (S n)) decayVelocity v)
      with (decayVelocity (Nat.iter (S n) decayVelocity v)).
    change (0.96 ^ S (S n)) with (0.96 * 0.96 ^ S n).
    remember (Nat.iter (S n) decayVelocity v) as x eqn:Hx.
    remember (0.96 ^ S n) as q eqn:Hq.
    destruct IH as [->|[Heq Hge]].
    + left. apply decayVelocity_zero.
    + unfold decayVelocity, Math_abs.
      destruct (decide _) as [Hs|Hs]; [by left|right].
      rewrite Rabs_pos_eq in Hs by lra.
      split; [|lra]. rewrite Heq. lra.
Qed.

Lemma decay_iter_dies (n : nat) (v : R) :
  0 <= v <= 0.3 -> (197 <= n)%nat -> Nat.iter n decayVelocity v = 0.
Proof.
  intros Hv Hn. replace n with ((n - 197) + 197)%nat by lia.
  rewrite Nat.iter_add.
  assert (H197 : Nat.iter 197 decayVelocity v = 0).
  { destruct (decay_iter_cases 196 v ltac:(lra)) as [H0|[Heq Hge]]; [done|].
    exfalso. rewrite Heq in Hge.
    assert (Hp : 0.96 ^ 197 * 0.3 < 0.0001) by lra.
    assert (Hq : 0 <= 0.96 ^ 197) by (apply pow_le; lra).
    nra. }
  rewrite H197. apply decay_iter_zero.
Qed.

Lemma decay_iter_alive (n : nat) (v : R) :
  0 <= v -> 0.0001 <= 0.96 ^ n * v ->
  Nat.iter n decayVelocity v = 0.96 ^ n * v.
Proof.
  intros Hv. induction n as [|n IH]; intros Hge; simpl; [lra|].
  assert (Hq : 0 <= 0.96 ^ n) by (apply pow_le; lra).
  simpl in Hge.
  rewrite IH by nra. unfold decayVelocity, Math_abs.
  destruct (decide _) as [Hs|Hs]; [|lra].
  rewrite Rabs_pos_eq in Hs by nra. lra.
Qed.

(** The scroll velocity after a run of frames on an engine in use. *)
Lemma frames_velocity (os : list R) (e : ParticleEngine) :
  isDisposed e = false ->
  exists e', calls e (map CallAnimate os) = Some e' /\
    isDisposed e' = false /\
    scrollVelocity e' = Nat.iter (length os) decayVelocity (scrollVelocity e).
Proof.
  revert e. induction os as [|o os IH]; intros e Hd.
  - exists e. done.
  - destruct (animate_active e o Hd) as (pos & k & _ & Ha).
    cbn [map calls call]. rewrite Ha. cbn [mbind option_bind].
    match goal with |- context [calls ?e1 _] => destruct (IH e1 eq_refl)
      as (e' & Hc & Hd' & Hv') end.
    exists e'. split; [exact Hc|]. split; [exact Hd'|].
    rewrite Hv'. cbn [scrollVelocity length]. by rewrite Nat.iter_succ_r.
Qed.

(** X2.  On an engine in use whose scroll velocity lies in [0, 0.3], any
    197 or more frames in a row without a scroll event bring the velocity to
    exactly 0; the bound is sharp: from the maximum 0.3, after 196 frames
    the velocity is 0.3 * 0.96^196, still above the snap threshold. *)
Theorem scroll_momentum_dies_out (e : ParticleEngine) (os : list R) :
  isDisposed e = false -> 0 <= scrollVelocity e <= 0.3 ->
  exists e', calls e (map CallAnimate os) = Some e' /\
    ((197 <= length os)%nat -> scrollVelocity e' = 0) /\
    (length os = 196%nat -> scrollVelocity e = 0.3 ->
       scrollVelocity e' = 0.3 * 0.96 ^ 196 /\ 0.0001 <= scrollVelocity e').
Proof.
  intros Hd Hv. destruct (frames_velocity os e Hd) as (e' & Hc & _ & Hv').
  exists e'. split; [exact Hc|]. split.
  - intros Hn. rewrite Hv'. by apply decay_iter_dies.
  - intros Hn H03. rewrite Hv', Hn, H03.
    rewrite decay_iter_alive by lra. split; lra.
Qed.

(** ** Random draws of a frame *)

Lemma visibleCount_S (targets : list R) (n : nat) :
  visibleCount targets (S n) =
  (visibleCount targets n
   + if decide (rd targets (n * 3) > 9000)%R then 0 else 1)%nat.
Proof.
  unfold visibleCount. rewrite seq_S, filter_app, length_app. simpl.
  f_equal. rewrite filter_cons, filter_nil.
  destruct (decide (rd targets (n * 3) > 9000)) as [Hh|Hv].
  - by rewrite decide_False by (intros Hn; by apply Hn).
  - by rewrite decide_True by done.
Qed.

(** X3.  A frame of an engine in use with openness at most 0.1 draws no
    random number; with openness above 0.1 it draws exactly three for every
    particle whose target has x at most 9000. *)
Theorem animate_draws (e : ParticleEngine) (handOpenness : R) :
  isDisposed e = false ->
  exists e', animate e handOpenness = Some e' /\
    (handOpenness <= 0.1 -> randomCalls e' = randomCalls e) /\
    (handOpenness > 0.1 ->
       randomCalls e' =
       (randomCalls e + 3 * visibleCount (targetPositions e) MAX_PARTICLES)%nat).
Proof.
  intros Hd.
  destruct (animate_active e handOpenness Hd) as (pos & k & Hloop & Ha).
  eexists. split; [exact Ha|]. simpl.
  set (ht := (buildGrid (positions e) (hashTable e) (nextEntry e)).1) in *.
  set (ne := (buildGrid (positions e) (hashTable e) (nextEntry e)).2) in *.
  set (draws := fun i : nat =>
    if decide (handOpenness > 0.1)
    then (3 * visibleCount (targetPositions e) i)%nat else 0%nat).
  destruct (for_each_inv
              (animateBody (targetPositions e) ht ne handOpenness
                 (spread (currentConfig e)))
              (fun i _ k' => k' = (randomCalls e + draws i)%nat)
              MAX_PARTICLES) with
    (n := MAX_PARTICLES) (i := 0%nat) (s := positions e) (k := randomCalls e)
    as (pos' & k' & Hf & Hk); [|lia| |].
  - intros i a k1 _ ->. unfold animateBody, draws. rewrite visibleCount_S.
    destruct (decide (rd (targetPositions e) (i * 3) > 9000)) as [Hh|Hv].
    + rewrite Gen_ret_unfold. eexists _, _. split; [reflexivity|].
      destruct (decide _); lia.
    + rewrite Gen_bind_unfold. unfold getXYZ. rewrite perturbedTarget_eq.
      destruct (decide (handOpenness > 0.1));
        (eexists _, _; split; [reflexivity|lia]).
  - unfold draws, visibleCount. simpl. destruct (decide _); lia.
  - rewrite Hloop in Hf. injection Hf as <- <-. simpl in Hk.
    unfold draws in Hk. split.
    + intros Ho. rewrite decide_False in Hk by lra. lia.
    + intros Ho. by rewrite decide_True in Hk by done.
Qed.

(** ** A particle that meets no neighbour *)

(** The frame seen from particle [i]: its iteration runs on a buffer that
    still has its initial position, and what the iteration leaves is final. *)
Lemma animate_at (e : ParticleEngine) (o : R) (i : nat) :
  isDisposed e = false -> (i < MAX_PARTICLES)%nat ->
  exists e' posi ki posi' ki',
    animate e o = Some e' /\
    hashTable e' = (buildGrid (positions e) (hashTable e) (nextEntry e)).1 /\
    nextEntry e' = (buildGrid (positions e) (hashTable e) (nextEntry e)).2 /\
    animateBody (targetPositions e) (hashTable e') (nextEntry e') o
      (spread (currentConfig e)) i posi ki = Some (posi', ki') /\
    length posi = length (positions e) /\
    getXYZ posi i = getXYZ (positions e) i /\
    getXYZ (positions e') i = getXYZ posi' i.
Proof.
  intros Hd Hi.
  destruct (animate_active e o Hd) as (pos & k & Hloop & Ha).
  set (ht := (buildGrid (positions e) (hashTable e) (nextEntry e)).1) in *.
  set (ne := (buildGrid (positions e) (hashTable e) (nextEntry e)).2) in *.
  destruct (for_each_at _
              (animateBody_local (targetPositions e) ht ne o
                 (spread (currentConfig e)))
              MAX_PARTICLES i (positions e) (randomCalls e) Hi)
    as (ai & ki & ai' & ki' & a' & k' & Hall & _ & Hb & _ & _ & _ & Hlen & _
        & Hpre & Hpost).
  rewrite Hloop in Hall. injection Hall as <- <-.
  eexists _, ai, ki, ai', ki'. split; [exact Ha|].
  cbn [hashTable nextEntry positions]. done.
Qed.

Lemma repelChain_S (c : nat) (ne : list Z) (i : nat) (nb : Z) (pos : list R) :
  repelChain (S c) ne i nb pos =
  if decide (nb = (-1)%Z) then pos
  else repelChain c ne i (rdI ne nb) (repelOne i nb pos).
Proof. reflexivity. Qed.

Lemma repelChain_alone (ne : list Z) (i : nat) (head : Z) (pos : list R) :
  head = (-1)%Z ∨ (head = Z.of_nat i /\ rdI ne (Z.of_nat i) = (-1)%Z) ->
  repelChain maxChecks ne i head pos = pos.
Proof.
  change maxChecks with (S (S 8)).
  intros [->|[-> Hnext]]; rewrite repelChain_S.
  - by rewrite decide_True by done.
  - rewrite decide_False by lia. rewrite Hnext, repelChain_S.
    rewrite decide_True by done.
    unfold repelOne. by rewrite decide_True by done.
Qed.

(** X4.  Closed hand, isolated particle.  In a frame with openness at
    most 0.1, a visible particle whose blended position falls into a bucket
    that is empty, or holds only the particle itself, ends the frame exactly
    at p + (t - p) * c with c = 0.05 + (1 - openness) * 0.1: on each axis its
    offset from the target is multiplied by 0.85 + 0.1 * openness. *)
Theorem animate_isolated_particle (e : ParticleEngine) (handOpenness : R)
    (i : nat) :
  wf e -> isDisposed e = false -> (i < MAX_PARTICLES)%nat ->
  rd (targetPositions e) (i * 3) <= 9000 -> handOpenness <= 0.1 ->
  let tx := rd (targetPositions e) (i * 3) in
  let ty := rd (targetPositions e) (i * 3 + 1) in
  let tz := rd (targetPositions e) (i * 3 + 2) in
  let px := rd (positions e) (i * 3) in
  let py := rd (positions e) (i * 3 + 1) in
  let pz := rd (positions e) (i * 3 + 2) in
  let c := 0.05 + (1 - handOpenness) * 0.1 in
  let grid := buildGrid (positions e) (hashTable e) (nextEntry e) in
  let head :=
    rdI grid.1
      (cellHash (px + (tx - px) * c) (py + (ty - py) * c)
         (pz + (tz - pz) * c)) in
  head = (-1)%Z ∨ (head = Z.of_nat i /\ rdI grid.2 (Z.of_nat i) = (-1)%Z) ->
  exists e', animate e handOpenness = Some e' /\
    rd (positions e') (i * 3) - tx = (0.85 + 0.1 * handOpenness) * (px - tx) /\
    rd (positions e') (i * 3 + 1) - ty
      = (0.85 + 0.1 * handOpenness) * (py - ty) /\
    rd (positions e') (i * 3 + 2) - tz
      = (0.85 + 0.1 * handOpenness) * (pz - tz).
Proof.
  intros Hwf Hd Hi Ht Ho tx ty tz px py pz c grid head Halone.
  destruct (animate_at e handOpenness i Hd Hi)
    as (e' & posi & ki & posi' & ki' & Ha & Hht & Hne & Hb & Hlen & Hpre
        & Hpost).
  exists e'. split; [exact Ha|].
  pose proof (wf_positions e Hwf) as Hp.
  assert (Hin : (i * 3 + 2 < length posi)%nat) by lia.
  unfold animateBody in Hb.
  destruct (decide (rd (targetPositions e) (i * 3) > 9000)) as [Hgt|_];
    [lra|].
  rewrite Gen_bind_unfold in Hb. unfold getXYZ in Hb.
  rewrite perturbedTarget_eq in Hb.
  destruct (decide (handOpenness > 0.1)) as [Hbig|_]; [lra|].
  cbv beta iota zeta in Hb. rewrite Gen_ret_unfold in Hb.
  apply Some_inj in Hb. apply pair_equal_spec in Hb as [Hb _].
  injection Hpre as Hx Hy Hz.
  rewrite blend_setXYZ, Hx, Hy, Hz in Hb.
  fold tx ty tz px py pz c in Hb.
  destruct (rd_setXYZ_eq posi i (px + (tx - px) * c) (py + (ty - py) * c)
              (pz + (tz - pz) * c) Hin) as (G1 & G2 & G3).
  rewrite G1, G2, G3, Hht, Hne in Hb.
  rewrite repelChain_alone in Hb by exact Halone.
  unfold getXYZ in Hpost. rewrite <- Hb in Hpost.
  rewrite G1, G2, G3 in Hpost. injection Hpost as -> -> ->.
  unfold c. repeat split; lra.
Qed.

(** ** Repainting *)

Lemma singleColor_loop (c : R * R * R) (cols : list R) (k : nat) :
  length cols = (MAX_PARTICLES * 3)%nat ->
  exists cols',
    for_each (singleColorBody c) 0 MAX_PARTICLES cols k = Some (cols', k) /\
    length cols' = length cols /\
    forall i, (i < MAX_PARTICLES)%nat -> getXYZ cols' i = c.
Proof.
  intros Hlen.
  destruct (for_each_inv (singleColorBody c)
              (fun i a k' => k' = k /\ length a = length cols /\
                 forall j, (j < i)%nat -> getXYZ a j = c)
              MAX_PARTICLES) with
    (n := MAX_PARTICLES) (i := 0%nat) (s := cols) (k := k)
    as (cols' & k' & Hf & -> & Hl & Hall); [|lia| |].
  - intros i a k1 Hi (-> & Hl & Hall). unfold singleColorBody.
    rewrite Gen_ret_unfold. eexists _, _. split; [reflexivity|].
    split; [done|]. split; [by rewrite length_setXYZ|].
    intros j Hj. destruct (decide (j = i)) as [->|Hne].
    + apply getXYZ_setXYZ_eq. lia.
    + rewrite getXYZ_setXYZ_ne by lia. apply Hall. lia.
  - split; [done|]. split; [done|]. intros j Hj. lia.
  - exists cols'. split; [exact Hf|]. split; [exact Hl|]. exact Hall.
Qed.

Lemma multicolor_loop (cols : list R) (k : nat) :
  length cols = (MAX_PARTICLES * 3)%nat ->
  exists cols',
    for_each multicolorBody 0 MAX_PARTICLES cols k
      = Some (cols', (k + MAX_PARTICLES)%nat) /\
    length cols' = length cols /\
    forall i, (i < MAX_PARTICLES)%nat ->
      getXYZ cols' i = Color_setHSL (Math_random (k + i)) 1.0 0.6.
Proof.
  intros Hlen.
  destruct (for_each_inv multicolorBody
              (fun i a k' => k' = (k + i)%nat /\ length a = length cols /\
                 forall j, (j < i)%nat ->
                   getXYZ a j = Color_setHSL (Math_random (k + j)) 1.0 0.6)
              MAX_PARTICLES) with
    (n := MAX_PARTICLES) (i := 0%nat) (s := cols) (k := k)
    as (cols' & k' & Hf & -> & Hl & Hall); [|lia| |].
  - intros i a k1 Hi (-> & Hl & Hall). unfold multicolorBody.
    rewrite Gen_bind_unfold, random_unfold, Gen_ret_unfold.
    eexists _, _. split; [reflexivity|].
    split; [lia|]. split; [by rewrite length_setXYZ|].
    intros j Hj. destruct (decide (j = i)) as [->|Hne].
    + apply getXYZ_setXYZ_eq. lia.
    + rewrite getXYZ_setXYZ_ne by lia. apply Hall. lia.
  - split; [lia|]. split; [done|]. intros j Hj. lia.
  - exists cols'. split; [exact Hf|]. split; [exact Hl|]. exact Hall.
Qed.

Lemma truthy_nonempty (c : string) : c ≠ EmptyString -> truthy c = true.
Proof. by destruct c. Qed.

(** Where [updateConfig] ends after the repaint of [applyColor]. *)
Lemma updateConfig_colors (e e2 e' : ParticleEngine) (p : PartialConfig) :
  isDisposed e = false ->
  applyColor p (set_config e (mergeConfig (currentConfig e) p)) = Some e2 ->
  updateConfig e p = Some e' ->
  colors e' = colors e2 /\
  currentConfig e' = mergeConfig (currentConfig e) p.
Proof.
  intros Hd Hc Hu. unfold updateConfig in Hu. rewrite Hd, Hc in Hu.
  simpl in Hu.
  destruct (applyColor_frame p _ e2 Hc) as (_ & _ & _ & _ & Hcfg & _).
  destruct (decide _) in Hu.
  - destruct (updateTargetShape_frame e2 e' Hu)
      as (_ & Hcol & _ & _ & Hcfg' & _).
    by rewrite Hcol, Hcfg', Hcfg.
  - injection Hu as <-. by rewrite Hcfg.
Qed.

(** X5.  A colour update repaints every particle, hidden ones included.
    On an engine in use, updateConfig with a non-empty colour returns; if
    the colour is MULTICOLOR particle i gets the colour
    setHSL(random, 1.0, 0.6) of the i-th draw of the call, otherwise every
    particle gets the r, g, b of the parsed colour. *)
Theorem updateConfig_repaints (e : ParticleEngine) (p : PartialConfig)
    (c : string) :
  wf e -> isDisposed e = false -> new_color p = Some c -> c ≠ EmptyString ->
  exists e', updateConfig e p = Some e' /\
    forall i, (i < MAX_PARTICLES)%nat ->
      (c = "MULTICOLOR"%string ->
         getXYZ (colors e') i
           = Color_setHSL (Math_random (randomCalls e + i)) 1.0 0.6) /\
      (c ≠ "MULTICOLOR"%string -> getXYZ (colors e') i = Color_parse c).
Proof.
  intros Hwf Hd Hc Hne.
  destruct (updateConfig_returns e p Hwf) as (e' & Hu & _).
  exists e'. split; [exact Hu|].
  set (e1 := set_config e (mergeConfig (currentConfig e) p)).
  pose proof (wf_colors e Hwf) as Hlen.
  assert (Hrep : forall cols k,
            repaint c (colors e) (randomCalls e) = Some (cols, k) ->
            colors e' = cols).
  { intros cols k Hr.
    assert (Ha : applyColor p e1 = Some (set_colors e1 cols k)).
    { unfold applyColor. rewrite Hc, (truthy_nonempty c Hne).
      change (colors e1) with (colors e).
      change (randomCalls e1) with (randomCalls e). by rewrite Hr. }
    by destruct (updateConfig_colors e _ e' p Hd Ha Hu) as [-> _]. }
  intros i Hi. unfold repaint, isMulticolor in Hrep. split.
  - intros ->. rewrite String.eqb_refl in Hrep.
    destruct (multicolor_loop (colors e) (randomCalls e) Hlen)
      as (cols & Hf & _ & Hall).
    rewrite (Hrep _ _ Hf). by apply Hall.
  - intros Hmc. apply String.eqb_neq in Hmc. rewrite Hmc in Hrep.
    destruct (singleColor_loop (Color_parse c) (colors e) (randomCalls e) Hlen)
      as (cols & Hf & _ & Hall).
    rewrite (Hrep _ _ Hf). by apply Hall.
Qed.

(** X6.  The colour buffer is left alone when the partial has no colour
    key and also when its colour is the empty string; in the second case the
    empty colour is still stored in the configuration. *)
Theorem updateConfig_keeps_colors (e : ParticleEngine) (p : PartialConfig) :
  wf e -> isDisposed e = false ->
  new_color p = None ∨ new_color p = Some EmptyString ->
  exists e', updateConfig e p = Some e' /\
    colors e' = colors e /\
    (new_color p = Some EmptyString ->
       color (currentConfig e') = EmptyString).
Proof.
  intros Hwf Hd Hc.
  destruct (updateConfig_returns e p Hwf) as (e' & Hu & _).
  exists e'. split; [exact Hu|].
  set (e1 := set_config e (mergeConfig (currentConfig e) p)).
  assert (Ha : applyColor p e1 = Some e1).
  { unfold applyColor. by destruct Hc as [-> | ->]. }
  destruct (updateConfig_colors e e1 e' p Hd Ha Hu) as [Hcol Hcfg].
  split; [exact Hcol|]. intros Hs. rewrite Hcfg. simpl. by rewrite Hs.
Qed.

(** updateConfig with a partial that carries no key changes nothing at
    all. *)
Lemma updateConfig_empty (e : ParticleEngine) :
  updateConfig e emptyPartial = Some e.
Proof.
  unfold updateConfig. destruct (isDisposed e) eqn:Hd; [done|].
  assert (Hm : mergeConfig (currentConfig e) emptyPartial = currentConfig e)
    by (by destruct (currentConfig e)).
  rewrite Hm.
  assert (Hs : set_config e (currentConfig e) = e) by (by destruct e).
  rewrite Hs. unfold applyColor. simpl. reflexivity.
Qed.

(** ** A custom shape stored for later *)

(** X7.  setCustomShape on an engine whose shape is not Custom only stores
    the points: targets and random draws are untouched.  A later
    updateConfig that selects the Custom shape then draws every active
    target within 0.5, on each axis, of the stored point at i mod len. *)
Theorem custom_shape_deferred (e : ParticleEngine) (pts : list Point3D) :
  wf e -> isDisposed e = false -> shape (currentConfig e) ≠ CUSTOM ->
  pts ≠ [] ->
  exists e1 e2,
    setCustomShape e pts = Some e1 /\
    targetPositions e1 = targetPositions e /\
    randomCalls e1 = randomCalls e /\
    updateConfig e1 (onlyShape CUSTOM) = Some e2 /\
    forall i, (i < MAX_PARTICLES)%nat ->
      (Z.of_nat i < activeCount (currentConfig e))%Z ->
      exists p, pts !! (i mod length pts)%nat = Some p /\
        Rabs (rd (targetPositions e2) (i * 3) - p_x p) <= 0.5 /\
        Rabs (rd (targetPositions e2) (i * 3 + 1) - p_y p) <= 0.5 /\
        Rabs (rd (targetPositions e2) (i * 3 + 2) - p_z p) <= 0.5.
Proof.
  intros Hwf Hd Hs Hpts.
  set (e1 := set_customShapePoints e pts).
  assert (Hwf1 : wf e1) by (destruct Hwf; by split).
  exists e1.
  destruct (updateConfig_active e1 (onlyShape CUSTOM) Hwf1 Hd)
    as (e1' & Hwf1' & _ & Hcfg1' & Hpts1' & _ & Hu).
  rewrite decide_True in Hu by (left; by eexists).
  destruct (regenerate_spec (currentConfig e1') (customShapePoints e1')
              (targetPositions e1') (randomCalls e1') (wf_targets e1' Hwf1'))
    as (t & k & Hr & _ & _ & Hall).
  exists (set_targets e1' t k).
  split. { unfold setCustomShape. by rewrite decide_False. }
  split; [reflexivity|]. split; [reflexivity|].
  split. { rewrite Hu. unfold updateTargetShape. by rewrite Hr. }
  intros i Hi Hact. cbn [targetPositions set_targets].
  destruct (Hall i Hi) as [_ Hg].
  rewrite Hcfg1' in Hg. cbn [density mergeConfig onlyShape new_density
    default shape new_shape] in Hg.
  change (currentConfig e1) with (currentConfig e) in Hg.
  destruct (Hg Hact) as (kj & kj' & _ & _ & Hgen).
  rewrite Hpts1' in Hgen. simpl in Hgen.
  destruct (customTarget_spec _ _ _ _ _ _ _ Hgen) as [_ Hfull].
  exact (Hfull Hpts).
Qed.

(** ** After dispose *)

Lemma call_disposed (e : ParticleEngine) (c : Call) :
  wf e -> isDisposed e = true ->
  exists e', call e c = Some e' /\ wf e' /\ isDisposed e' = true /\
    positions e' = positions e /\ colors e' = colors e /\
    currentConfig e' = currentConfig e /\
    scrollVelocity e' = scrollVelocity e /\
    particlesRotationY e' = particlesRotationY e /\
    bgStarsRotationY e' = bgStarsRotationY e.
Proof.
  intros Hwf Hd.
  assert (Hsame : exists e', Some e = Some e' /\ wf e' /\
    isDisposed e' = true /\
    positions e' = positions e /\ colors e' = colors e /\
    currentConfig e' = currentConfig e /\
    scrollVelocity e' = scrollVelocity e /\
    particlesRotationY e' = particlesRotationY e /\
    bgStarsRotationY e' = bgStarsRotationY e).
  { exists e. split; [reflexivity|]. split; [exact Hwf|].
    split; [exact Hd|]. repeat split. }
  destruct c as [o|p|pts|d|]; simpl.
  - by rewrite animate_disposed.
  - by rewrite updateConfig_disposed.
  - destruct (setCustomShape_returns e pts Hwf) as (e' & Hs & Hwf').
    destruct (setCustomShape_frame e e' pts Hs)
      as (Hp & Hc & Hcfg & _ & Hv & Hd' & Hr & Hb).
    exists e'. rewrite Hd', Hp, Hc, Hcfg, Hv, Hr, Hb.
    split; [exact Hs|]. split; [exact Hwf'|]. split; [exact Hd|].
    repeat split.
  - unfold handleScroll. by rewrite Hd.
  - eexists. split; [reflexivity|]. split; [by apply dispose_wf|].
    repeat split.
Qed.

(** X8.  Disposed is terminal, and apart from setCustomShape inert: after
    dispose, whatever calls follow, all return, the engine stays disposed,
    and its positions, colours, configuration, scroll velocity and rotations
    are those it had when it was disposed. *)
Theorem disposed_is_terminal (e : ParticleEngine) (cs : list Call) :
  wf e ->
  exists e', calls (dispose e) cs = Some e' /\ isDisposed e' = true /\
    positions e' = positions e /\ colors e' = colors e /\
    currentConfig e' = currentConfig e /\
    scrollVelocity e' = scrollVelocity e /\
    particlesRotationY e' = particlesRotationY e /\
    bgStarsRotationY e' = bgStarsRotationY e.
Proof.
  intros Hwf.
  assert (Hgen : forall cs d, wf d -> isDisposed d = true ->
    exists e', calls d cs = Some e' /\ isDisposed e' = true /\
      positions e' = positions d /\ colors e' = colors d /\
      currentConfig e' = currentConfig d /\
      scrollVelocity e' = scrollVelocity d /\
      particlesRotationY e' = particlesRotationY d /\
      bgStarsRotationY e' = bgStarsRotationY d).
  { clear. intros cs. induction cs as [|c cs IH]; intros d Hwf Hd.
    - exists d. split; [reflexivity|]. split; [exact Hd|]. repeat split.
    - destruct (call_disposed d c Hwf Hd)
        as (d1 & Hc & Hwf1 & Hd1 & Hp & Hcol & Hcfg & Hv & Hr & Hb).
      destruct (IH d1 Hwf1 Hd1)
        as (e' & Hcs & Hd' & Hp' & Hcol' & Hcfg' & Hv' & Hr' & Hb').
      exists e'. cbn [calls]. rewrite Hc. cbn [mbind option_bind].
      rewrite Hp', Hcol', Hcfg', Hv', Hr', Hb'.
      split; [exact Hcs|]. split; [exact Hd'|]. repeat split; assumption. }
  apply (Hgen cs (dispose e) (dispose_wf e Hwf) eq_refl).
Qed.

(** ** Densities outside (0, 1) *)

(** X9.  Regeneration with a density of 0 or less hides every particle:
    all targets are the sentinel.  With a density of 1 or more no particle
    is hidden: every target is an output of the generator of the current
    shape. *)
Theorem density_extremes (e : ParticleEngine) :
  wf e ->
  exists e', updateTargetShape e = Some e' /\
    forall i, (i < MAX_PARTICLES)%nat ->
      (density (currentConfig e) <= 0 ->
         getXYZ (targetPositions e') i = (9999, 9999, 9999)) /\
      (1 <= density (currentConfig e) ->
         exists k k',
           shapeTarget (shape (currentConfig e)) (customShapePoints e) i k
             = Some (getXYZ (targetPositions e') i, k')).
Proof.
  intros Hwf.
  destruct (updateTargetShape_returns e Hwf) as (e' & Hu & _ & _ & Hall).
  exists e'. split; [exact Hu|]. intros i Hi.
  destruct (Hall i Hi) as [Hhid Hact]. split.
  - intros Hd. apply Hhid.
    pose proof (activeCount_nonpos (currentConfig e) Hd). lia.
  - intros Hd. destruct Hact as (k & k' & _ & _ & Hg).
    + pose proof (activeCount_full (currentConfig e) Hd). lia.
    + by exists k, k'.
Qed.

(** ** The spatial hash *)

Lemma hashMask_ones : hashMask = Z.ones 14.
Proof. reflexivity. Qed.

(** X10.  The hash of any point is an index of the table: it lies in
    [0, 16384). *)
Theorem cellHash_in_table (x y z : R) : (0 <= cellHash x y z < hashSize)%Z.
Proof.
  unfold cellHash. rewrite hashMask_ones, Z.land_ones by lia.
  change hashSize with (2 ^ 14)%Z. apply Z.mod_pos_bound. lia.
Qed.

Lemma particleHash_range (pos : list R) (i : nat) :
  (0 <= particleHash pos i < hashSize)%Z.
Proof.
  unfold particleHash, cellHash. rewrite hashMask_ones, Z.land_ones by lia.
  change hashSize with (2 ^ 14)%Z. apply Z.mod_pos_bound. lia.
Qed.

Lemma rdI_wrI_eq (a : list Z) (k v : Z) :
  (0 <= k)%Z -> (Z.to_nat k < length a)%nat -> rdI (wrI a k v) k = v.
Proof.
  intros Hk Hlen. unfold rdI, wrI.
  replace (k <? 0)%Z with false by (symmetry; apply Z.ltb_ge; lia).
  by rewrite list_lookup_insert_eq.
Qed.

Lemma rdI_wrI_ne (a : list Z) (j k v : Z) :
  j ≠ k -> rdI (wrI a k v) j = rdI a j.
Proof.
  intros Hne. unfold rdI, wrI.
  destruct (j <? 0)%Z eqn:Hj; [done|]. destruct (k <? 0)%Z eqn:Hk; [done|].
  apply Z.ltb_ge in Hj, Hk.
  rewrite list_lookup_insert_ne by lia. reflexivity.
Qed.

Lemma rdI_replicate (n : nat) (j : Z) : rdI (replicate n (-1)%Z) j = (-1)%Z.
Proof.
  unfold rdI. destruct (j <? 0)%Z; [done|].
  destruct (replicate n (-1)%Z !! Z.to_nat j) as [v|] eqn:Hv; [|done].
  apply lookup_replicate in Hv as [-> _]. reflexivity.
Qed.

Lemma chainFrom_empty (fuel : nat) (ne : list Z) :
  chainFrom fuel ne (-1) = [].
Proof. destruct fuel; reflexivity. Qed.

Lemma bucketMembers_S (pos : list R) (h : Z) (n : nat) :
  bucketMembers pos h (S n) =
  bucketMembers pos h n ++
  (if decide (¬ rd pos (n * 3) > 8000 /\ particleHash pos n = h)
   then [n] else []).
Proof.
  unfold bucketMembers. rewrite seq_S, filter_app. reflexivity.
Qed.

(** A chain that starts below [i] does not see a write at [i], when every
    entry points below its own index. *)
Lemma chainFrom_write (fuel : nat) (ne : list Z) (i : nat) (w v : Z) :
  (forall j, rdI ne j = (-1)%Z ∨ (0 <= rdI ne j < j)%Z) ->
  v = (-1)%Z ∨ (0 <= v < Z.of_nat i)%Z ->
  chainFrom fuel (wrI ne (Z.of_nat i) w) v = chainFrom fuel ne v.
Proof.
  intros Hdesc. revert v. induction fuel as [|f IH]; intros v Hv; [done|].
  simpl. destruct (decide (v = (-1)%Z)); [done|].
  destruct Hv as [?|Hv]; [done|].
  rewrite rdI_wrI_ne by lia. f_equal. apply IH.
  destruct (Hdesc v) as [->|Hd]; [by left|right; lia].
Qed.

Lemma gridBody_step (pos : list R) (N : nat) (i : nat) (g : list Z * list Z) :
  (i < N)%nat -> grid_upto pos (Z.to_nat hashSize) N i g ->
  grid_upto pos (Z.to_nat hashSize) N (S i) (gridBody pos i g).
Proof.
  destruct g as [ht ne]. intros Hi (Hlh & Hln & Hhead & Hdesc & Hchain).
  cbn [fst snd] in *. unfold gridBody, grid_upto.
  destruct (decide (rd pos (i * 3) > 8000)) as [Hhid|Hvis].
  - split; [done|]. split; [done|]. cbn [fst snd].
    split. { intros h. destruct (Hhead h) as [?|?]; [by left|right; lia]. }
    split; [done|]. intros h fuel Hf.
    rewrite bucketMembers_S.
    rewrite decide_False by (intros [Hn _]; by apply Hn).
    rewrite app_nil_r. apply Hchain. lia.
  - change (cellHash (rd pos (i * 3)) (rd pos (i * 3 + 1))
              (rd pos (i * 3 + 2))) with (particleHash pos i).
    pose proof (particleHash_range pos i) as Hrange.
    set (hh := particleHash pos i) in *.
    cbn [fst snd].
    split; [by rewrite length_wrI|]. split; [by rewrite length_wrI|].
    assert (Hold : rdI ht hh = (-1)%Z ∨ (0 <= rdI ht hh < Z.of_nat i)%Z)
      by apply Hhead.
    split.
    { intros h. destruct (decide (h = hh)) as [->|Hne].
      - rewrite rdI_wrI_eq by lia. right. lia.
      - rewrite rdI_wrI_ne by done.
        destruct (Hhead h) as [?|?]; [by left|right; lia]. }
    split.
    { intros j. destruct (decide (j = Z.of_nat i)) as [->|Hne].
      - rewrite rdI_wrI_eq by lia. exact Hold.
      - rewrite rdI_wrI_ne by done. apply Hdesc. }
    intros h fuel Hf. rewrite bucketMembers_S.
    destruct (decide (h = hh)) as [->|Hne].
    + rewrite rdI_wrI_eq by lia.
      rewrite decide_True by done.
      rewrite reverse_snoc. destruct fuel as [|f]; [lia|].
      cbn [chainFrom map]. rewrite decide_False by lia.
      rewrite rdI_wrI_eq by lia.
      rewrite chainFrom_write by done.
      rewrite Hchain by lia. reflexivity.
    + rewrite rdI_wrI_ne by done.
      rewrite decide_False by (intros [_ Heq]; by apply Hne).
      rewrite app_nil_r.
      rewrite chainFrom_write by (done || apply Hhead).
      apply Hchain. lia.
Qed.

Lemma buildGrid_upto (pos : list R) (ht ne : list Z) :
  length ht = Z.to_nat hashSize -> length ne = MAX_PARTICLES ->
  grid_upto pos (Z.to_nat hashSize) MAX_PARTICLES MAX_PARTICLES
    (buildGrid pos ht ne).
Proof.
  intros Hlh Hln. unfold buildGrid.
  apply (for_range_inv (gridBody pos)
           (grid_upto pos (Z.to_nat hashSize) MAX_PARTICLES) MAX_PARTICLES).
  - intros i g Hi. by apply gridBody_step.
  - lia.
  - unfold grid_upto.
    split; [cbn [fst]; by rewrite length_replicate|].
    split; [cbn [snd]; by rewrite length_replicate|].
    cbn [fst snd]. split; [intros h; left; apply rdI_replicate|].
    split; [intros j; left; apply rdI_replicate|].
    intros h fuel _. rewrite rdI_replicate. apply chainFrom_empty.
Qed.

(** X11.  After the grid is rebuilt with tables of the sizes the
    constructor allocates, the chain of every bucket h lists exactly the
    particles that are not skipped (x at most 8000) and hash to h, each once,
    the last inserted first; every nextEntry value is -1 or an index below
    the entry it is stored at, so chains cannot loop. *)
Theorem grid_chains (pos : list R) (ht ne : list Z) :
  length ht = Z.to_nat hashSize -> length ne = MAX_PARTICLES ->
  (forall h,
     chainFrom MAX_PARTICLES (buildGrid pos ht ne).2
       (rdI (buildGrid pos ht ne).1 h)
     = map Z.of_nat (reverse (bucketMembers pos h MAX_PARTICLES))) /\
  (forall j,
     rdI (buildGrid pos ht ne).2 j = (-1)%Z ∨
     (0 <= rdI (buildGrid pos ht ne).2 j < j)%Z).
Proof.
  intros Hlh Hln.
  destruct (buildGrid_upto pos ht ne Hlh Hln) as (_ & _ & _ & Hdesc & Hchain).
  split; [|exact Hdesc]. intros h. by apply Hchain.
Qed.

Lemma chainFrom_take (c fuel : nat) (ne : list Z) (v : Z) :
  (c <= fuel)%nat -> chainFrom c ne v = take c (chainFrom fuel ne v).
Proof.
  revert fuel v. induction c as [|c IH]; intros fuel v Hle; [reflexivity|].
  destruct fuel as [|fuel]; [lia|]. cbn [chainFrom].
  destruct (decide (v = (-1)%Z)); [reflexivity|].
  cbn [take]. f_equal. apply IH. lia.
Qed.

Lemma foldl_map {A B C : Type} (f : A -> B -> A) (g : C -> B) (l : list C)
    (a : A) :
  foldl f a (map g l) = foldl (fun a c => f a (g c)) a l.
Proof. revert a. induction l as [|c l IH]; intros a; [reflexivity|apply IH]. Qed.

(** X12.  Whom a particle is tested against.  In a frame whose grid was
    built from the positions pos0, the repulsion traversal of particle i
    from bucket h evaluates i against the members of that bucket, those
    particles not parked beyond x = 8000 whose cell at the start of the
    frame hashes to h, from the highest index down, and against the first
    ten of them only: members beyond the ten newest are never tested. *)
Theorem repulsion_tests_newest (pos0 pos : list R) (ht ne : list Z)
    (i : nat) (h : Z) :
  length ht = Z.to_nat hashSize -> length ne = MAX_PARTICLES ->
  repelChain maxChecks (buildGrid pos0 ht ne).2 i
    (rdI (buildGrid pos0 ht ne).1 h) pos
  = foldl (fun p nb => repelOne i (Z.of_nat nb) p) pos
      (take maxChecks (reverse (bucketMembers pos0 h MAX_PARTICLES))).
Proof.
  intros Hh Hn.
  destruct (buildGrid_upto pos0 ht ne Hh Hn) as (_ & _ & _ & _ & Hchain).
  rewrite repelChain_fold.
  rewrite (chainFrom_take maxChecks MAX_PARTICLES)
    by (unfold maxChecks; rewrite MAX_PARTICLES_eq; lia).
  rewrite (Hchain h MAX_PARTICLES) by lia.
  rewrite firstn_map. apply foldl_map.
Qed.

(** ** The procedural shapes stay in view *)

Lemma planar_norm (rad a : R) :
  0 <= rad ->
  sqrt (cos a * rad * (cos a * rad) + sin a * rad * (sin a * rad)) = rad.
Proof.
  intros Hr. pose proof (sin2_cos2 a) as Ha. unfold Rsqr in Ha.
  replace (cos a * rad * (cos a * rad) + sin a * rad * (sin a * rad))
    with (rad * rad * (sin a * sin a + cos a * cos a)) by ring.
  rewrite Ha, Rmult_1_r. by apply sqrt_square.
Qed.

Lemma spherical_norm (r phi theta : R) :
  0 <= r ->
  sqrt (r * sin phi * cos theta * (r * sin phi * cos theta)
        + r * sin phi * sin theta * (r * sin phi * sin theta)
        + r * cos phi * (r * cos phi)) = r.
Proof.
  intros Hr. pose proof (sin2_cos2 theta) as Ht.
  pose proof (sin2_cos2 phi) as Hp. unfold Rsqr in Ht, Hp.
  replace (r * sin phi * cos theta * (r * sin phi * cos theta)
           + r * sin phi * sin theta * (r * sin phi * sin theta)
           + r * cos phi * (r * cos phi))
    with (r * r * (sin phi * sin phi
                   * (sin theta * sin theta + cos theta * cos theta)
                   + cos phi * cos phi)) by ring.
  rewrite Ht, Rmult_1_r, Hp, Rmult_1_r. by apply sqrt_square.
Qed.

Lemma nebulaTarget_bounds (k : nat) (x y z : R) (k' : nat) :
  nebulaTarget k = Some ((x, y, z), k') ->
  sqrt (x * x + y * y) <= 20 /\ Rabs z <= 5.
Proof.
  unfold nebulaTarget. gen_steps. intros Hs. apply Some_inj in Hs.
  apply pair_equal_spec in Hs as [Hv _].
  apply pair_equal_spec in Hv as [Hv <-].
  apply pair_equal_spec in Hv as [<- <-].
  pose proof (Math_random_range (S (S (S k)))) as H3.
  pose proof (Math_random_range (S (S (S (S k))))) as H4.
  split; [|apply Rabs_le; lra].
  rewrite planar_norm; destruct (Rlt_dec _ _); lra.
Qed.

Lemma unit_cube (s : R) : -1 <= s <= 1 -> -1 <= s * s * s <= 1.
Proof. intros Hs. nra. Qed.

Lemma heartTarget_bounds (k : nat) (x y z : R) (k' : nat) :
  heartTarget k = Some ((x, y, z), k') ->
  Rabs x <= 14.4 /\ Rabs y <= 18.9 /\ Rabs z <= 5.
Proof.
  unfold heartTarget. gen_steps. intros Hs. apply Some_inj in Hs.
  apply pair_equal_spec in Hs as [Hv _].
  apply pair_equal_spec in Hv as [Hv <-].
  apply pair_equal_spec in Hv as [<- <-].
  pose proof (Math_random_range (S k)) as Hr.
  pose proof (Math_random_range (S (S k))) as Hu.
  set (t := Math_random k * PI * 2).
  pose proof (unit_cube (sin t) (SIN_bound t)) as Hs3.
  pose proof (COS_bound t) as Hc1. pose proof (COS_bound (2 * t)) as Hc2.
  pose proof (COS_bound (3 * t)) as Hc3. pose proof (COS_bound (4 * t)) as Hc4.
  replace (sin t ^ 3) with (sin t * sin t * sin t) by ring.
  generalize dependent (sin t * sin t * sin t). intros s3 Hs3.
  generalize dependent (cos t). generalize dependent (cos (2 * t)).
  generalize dependent (cos (3 * t)). generalize dependent (cos (4 * t)).
  intros c4 Hc4 c3 Hc3 c2 Hc2 c1 Hc1.
  generalize dependent (Math_random (S k)).
  generalize dependent (Math_random (S (S k))). intros u Hu r Hr.
  repeat split; apply Rabs_le; split; nra.
Qed.

Lemma Math_pow_unit (u y : R) : 0 <= u < 1 -> 0 <= y -> 0 <= Math_pow u y <= 1.
Proof.
  intros [H0 H1] Hy. unfold Math_pow.
  destruct (Rlt_dec 0 u) as [Hpos|Hn]; [|lra].
  unfold Rpower. split; [left; apply exp_pos|].
  rewrite <- exp_0.
  assert (Hln : ln u < 0) by (rewrite <- ln_1; apply ln_increasing; lra).
  destruct (Req_dec y 0) as [->|Hy0].
  - rewrite Rmult_0_l. lra.
  - left. apply exp_increasing. nra.
Qed.

Lemma galaxyTarget_bounds (i k : nat) (x y z : R) (k' : nat) :
  galaxyTarget i k = Some ((x, y, z), k') ->
  sqrt (x * x + y * y) <= 22 /\ Rabs z <= 3.
Proof.
  unfold galaxyTarget. gen_steps. intros Hs. apply Some_inj in Hs.
  apply pair_equal_spec in Hs as [Hv _].
  apply pair_equal_spec in Hv as [Hv <-].
  apply pair_equal_spec in Hv as [<- <-].
  pose proof (Math_pow_unit _ 0.7 (Math_random_range k) ltac:(lra)) as Hg.
  pose proof (Math_random_range (S (S k))) as Hu.
  generalize dependent (Math_pow (Math_random k) 0.7). intros g Hg.
  split.
  - rewrite planar_norm; lra.
  - apply Rabs_le. generalize dependent (Math_random (S (S k))). intros u Hu.
    split; nra.
Qed.

(** The shared shape of the three theorems below: a bound that every
    output of the generator of shape [sh] satisfies holds for every active
    target after a regeneration with that shape. *)
Lemma active_targets (sh : ShapeType) (P : R -> R -> R -> Prop)
    (e : ParticleEngine) :
  (forall pts i k x y z k',
     shapeTarget sh pts i k = Some ((x, y, z), k') -> P x y z) ->
  wf e -> shape (currentConfig e) = sh ->
  exists e', updateTargetShape e = Some e' /\
    forall i, (i < MAX_PARTICLES)%nat ->
      (Z.of_nat i < activeCount (currentConfig e))%Z ->
      P (rd (targetPositions e') (i * 3)) (rd (targetPositions e') (i * 3 + 1))
        (rd (targetPositions e') (i * 3 + 2)).
Proof.
  intros HP Hwf Hshape.
  destruct (updateTargetShape_returns e Hwf) as (e' & Hu & _ & _ & Hall).
  exists e'. split; [exact Hu|]. intros i Hi Hact.
  destruct (Hall i Hi) as [_ Hg].
  destruct (Hg Hact) as (kj & kj' & _ & _ & Hgen).
  rewrite Hshape in Hgen. by apply (HP _ _ _ _ _ _ _ Hgen).
Qed.

(** X13.  With shape Nebula every active target lies within distance 20
    of the z axis and has |z| <= 5; in particular its x is far below the
    9000 that animate takes for hidden. *)
Theorem nebula_targets_bounded (e : ParticleEngine) :
  wf e -> shape (currentConfig e) = NEBULA ->
  exists e', updateTargetShape e = Some e' /\
    forall i, (i < MAX_PARTICLES)%nat ->
      (Z.of_nat i < activeCount (currentConfig e))%Z ->
      let x := rd (targetPositions e') (i * 3) in
      let y := rd (targetPositions e') (i * 3 + 1) in
      let z := rd (targetPositions e') (i * 3 + 2) in
      sqrt (x * x + y * y) <= 20 /\ Rabs z <= 5.
Proof.
  apply (active_targets NEBULA
           (fun x y z => sqrt (x * x + y * y) <= 20 /\ Rabs z <= 5)).
  intros pts i k x y z k' Hgen. by apply (nebulaTarget_bounds k x y z k').
Qed.

(** X14.  With shape Heart every active target has |x| <= 14.4,
    |y| <= 18.9 and |z| <= 5. *)
Theorem heart_targets_bounded (e : ParticleEngine) :
  wf e -> shape (currentConfig e) = HEART ->
  exists e', updateTargetShape e = Some e' /\
    forall i, (i < MAX_PARTICLES)%nat ->
      (Z.of_nat i < activeCount (currentConfig e))%Z ->
      let x := rd (targetPositions e') (i * 3) in
      let y := rd (targetPositions e') (i * 3 + 1) in
      let z := rd (targetPositions e') (i * 3 + 2) in
      Rabs x <= 14.4 /\ Rabs y <= 18.9 /\ Rabs z <= 5.
Proof.
  apply (active_targets HEART
           (fun x y z => Rabs x <= 14.4 /\ Rabs y <= 18.9 /\ Rabs z <= 5)).
  intros pts i k x y z k' Hgen. by apply (heartTarget_bounds k x y z k').
Qed.

(** X15.  With shape Galaxy every active target lies within distance 22
    of the z axis and has |z| <= 3. *)
Theorem galaxy_targets_bounded (e : ParticleEngine) :
  wf e -> shape (currentConfig e) = GALAXY ->
  exists e', updateTargetShape e = Some e' /\
    forall i, (i < MAX_PARTICLES)%nat ->
      (Z.of_nat i < activeCount (currentConfig e))%Z ->
      let x := rd (targetPositions e') (i * 3) in
      let y := rd (targetPositions e') (i * 3 + 1) in
      let z := rd (targetPositions e') (i * 3 + 2) in
      sqrt (x * x + y * y) <= 22 /\ Rabs z <= 3.
Proof.
  apply (active_targets GALAXY
           (fun x y z => sqrt (x * x + y * y) <= 22 /\ Rabs z <= 3)).
  intros pts i k x y z k' Hgen. by apply (galaxyTarget_bounds i k x y z k').
Qed.

(** ** The background layers *)

(** X16.  A dust point of the background lies at a distance from the
    origin in [400, 1200], a bright star at a distance in [200, 800], far
    outside the shapes; each takes four random draws, and the palette index
    of a star is one of 0, 1, 2, 3, never outside the four colours. *)
Theorem background_points (k : nat) :
  (exists x y z, dustPoint k = Some ((x, y, z), (k + 4)%nat) /\
     400 <= sqrt (x * x + y * y + z * z) <= 1200) /\
  (exists x y z c, starPoint k = Some ((x, y, z, c), (k + 4)%nat) /\
     200 <= sqrt (x * x + y * y + z * z) <= 800 /\
     (0 <= c < starColors_length)%Z).
Proof.
  pose proof (Math_random_range k) as H1.
  pose proof (Math_random_range (S (S (S k)))) as H4.
  replace (k + 4)%nat with (S (S (S (S k)))) by lia.
  split.
  - unfold dustPoint. rewrite Gen_bind_unfold, random_unfold.
    rewrite Gen_bind_unfold, random_unfold.
    destruct (decide (Math_random (S k) < 0.7)); gen_steps;
      (eexists _, _, _; split; [reflexivity|];
       rewrite spherical_norm by lra; lra).
  - unfold starPoint. gen_steps. eexists _, _, _, _. split; [reflexivity|].
    rewrite spherical_norm by lra. split; [lra|].
    unfold Math_floor, starColors_length.
    pose proof (Zfloor_bound (Math_random (S (S (S k))) * 4)) as [Hlo Hhi].
    split.
    + apply Zfloor_lub. lra.
    + apply lt_IZR. lra.
Qed.

(** ** The Möbius ribbon *)

Lemma Rdiv_sqrt_unit (a s : R) : 0 <= s -> a * a <= s -> Rabs (a / sqrt s) <= 1.
Proof.
  intros Hs Ha. destruct (Req_dec (sqrt s) 0) as [H0|Hn].
  - rewrite H0. unfold Rdiv. rewrite Rinv_0, Rmult_0_r, Rabs_R0. lra.
  - pose proof (sqrt_pos s) as Hp. pose proof (sqrt_sqrt s Hs) as Hss.
    assert (Hpos : 0 < sqrt s) by lra.
    unfold Rdiv. rewrite Rabs_mult, (Rabs_pos_eq (/ sqrt s))
      by (left; by apply Rinv_0_lt_compat).
    apply (Rmult_le_reg_r (sqrt s)); [done|].
    rewrite Rmult_assoc, Rinv_l, Rmult_1_r, Rmult_1_l by done.
    destruct (Rcase_abs a) as [Hneg|Hnn].
    + rewrite Rabs_left by done. nra.
    + rewrite Rabs_right by done. nra.
Qed.

Lemma Rabs_mul_le (a b A B : R) :
  Rabs a <= A -> Rabs b <= B -> Rabs (a * b) <= A * B.
Proof.
  intros Ha Hb. rewrite Rabs_mult.
  apply Rmult_le_compat; try apply Rabs_pos; done.
Qed.

Lemma Rabs_add_le (a b A B : R) :
  Rabs a <= A -> Rabs b <= B -> Rabs (a + b) <= A + B.
Proof. intros Ha Hb. pose proof (Rabs_triang a b). lra. Qed.

Lemma Rabs_sub_le (a b A B : R) :
  Rabs a <= A -> Rabs b <= B -> Rabs (a - b) <= A + B.
Proof.
  intros Ha Hb. unfold Rminus. apply Rabs_add_le; [done|].
  by rewrite Rabs_Ropp.
Qed.

Lemma mobiusTarget_bounds (k : nat) (x y z : R) (k' : nat) :
  mobiusTarget k = Some ((x, y, z), k') ->
  Rabs x <= 24.25 /\ Rabs y <= 24.25 /\ Rabs z <= 11.
Proof.
  unfold mobiusTarget. gen_steps. intros Hs. apply Some_inj in Hs.
  apply pair_equal_spec in Hs as [Hv _].
  apply pair_equal_spec in Hv as [Hv <-].
  apply pair_equal_spec in Hv as [<- <-].
  set (U := Math_random k * PI * 2).
  set (tLen := Math_sqrt (18 * cos U * (18 * cos U)
                          + 18 * cos (2 * U) * (18 * cos (2 * U))
                          + - (4) * sin U * (- (4) * sin U))).
  set (ntx := 18 * cos U / tLen). set (nty := 18 * cos (2 * U) / tLen).
  set (ntz := - (4) * sin U / tLen).
  set (nLen := Math_sqrt (- nty * - nty + ntx * ntx + 0 * 0)).
  set (nx := - nty / nLen). set (ny := ntx / nLen). set (nz := 0 / nLen).
  assert (Hnz : nz = 0) by (unfold nz, Rdiv; apply Rmult_0_l).
  assert (Htx : Rabs ntx <= 1).
  { apply Rdiv_sqrt_unit; [apply sum_squares_nonneg|].
    pose proof (Rle_0_sqr (18 * cos (2 * U))).
    pose proof (Rle_0_sqr (- (4) * sin U)). unfold Rsqr in *. lra. }
  assert (Hty : Rabs nty <= 1).
  { apply Rdiv_sqrt_unit; [apply sum_squares_nonneg|].
    pose proof (Rle_0_sqr (18 * cos U)).
    pose proof (Rle_0_sqr (- (4) * sin U)). unfold Rsqr in *. lra. }
  assert (Htz : Rabs ntz <= 1).
  { apply Rdiv_sqrt_unit; [apply sum_squares_nonneg|].
    pose proof (Rle_0_sqr (18 * cos U)).
    pose proof (Rle_0_sqr (18 * cos (2 * U))). unfold Rsqr in *. lra. }
  assert (Hnx : Rabs nx <= 1).
  { apply Rdiv_sqrt_unit; [apply sum_squares_nonneg|].
    pose proof (Rle_0_sqr ntx). unfold Rsqr in *. lra. }
  assert (Hny : Rabs ny <= 1).
  { apply Rdiv_sqrt_unit; [apply sum_squares_nonneg|].
    pose proof (Rle_0_sqr (- nty)). unfold Rsqr in *. lra. }
  assert (HcT : Rabs (cos (U / 2)) <= 1) by (apply Rabs_le, COS_bound).
  assert (HsT : Rabs (sin (U / 2)) <= 1) by (apply Rabs_le, SIN_bound).
  assert (Hw : Rabs ((Math_random (S k) - 0.5) * 6) <= 3).
  { pose proof (Math_random_range (S k)). apply Rabs_le. lra. }
  assert (Hj : forall n, Rabs ((Math_random n - 0.5) * 0.5) <= 0.25).
  { intros n. pose proof (Math_random_range n). apply Rabs_le. lra. }
  assert (Hth : Rabs ((Math_random (S (S k)) - 0.5) * 1.5) <= 0.75).
  { pose proof (Math_random_range (S (S k))). apply Rabs_le. lra. }
  assert (Hsin : Rabs (18 * sin U) <= 18).
  { pose proof (SIN_bound U). apply Rabs_le. lra. }
  assert (Hsc : Rabs (18 * sin U * cos U) <= 18).
  { replace 18 with (18 * 1) at 2 by lra. by apply Rabs_mul_le, Rabs_le, COS_bound. }
  assert (Hcos : Rabs (4 * cos U) <= 4).
  { pose proof (COS_bound U). apply Rabs_le. lra. }
  clearbody nx ny ntx nty ntz nz. subst nz.
  generalize dependent (cos (U / 2)). generalize dependent (sin (U / 2)).
  intros sT HsT cT HcT.
  generalize dependent ((Math_random (S k) - 0.5) * 6). intros w Hw.
  assert (Hoff : forall a b c d : R,
            Rabs a <= 1 -> Rabs b <= 1 -> Rabs c <= 1 -> Rabs d <= 1 ->
            Rabs (w * (a * cT + (b * c - d * 0) * sT)) <= 6 /\
            Rabs (w * (a * cT + (d * 0 - b * c) * sT)) <= 6).
  { intros a b c d Ha Hb Hc Hd.
    assert (Hbc : Rabs (b * c) <= 1).
    { replace 1 with (1 * 1) by lra. by apply Rabs_mul_le. }
    assert (HacT : Rabs (a * cT) <= 1).
    { replace 1 with (1 * 1) by lra. by apply Rabs_mul_le. }
    split; (replace 6 with (3 * 2) by lra; apply Rabs_mul_le; [done|];
            replace 2 with (1 + 1) by lra; apply Rabs_add_le; [done|];
            replace 1 with (1 * 1) by lra; apply Rabs_mul_le; [|done]).
    - by rewrite Rmult_0_r, Rminus_0_r.
    - rewrite Rmult_0_r, Rminus_0_l. by rewrite Rabs_Ropp. }
  assert (Hoffz : Rabs (w * (0 * cT + (ntx * ny - nty * nx) * sT)) <= 6).
  { replace 6 with (3 * 2) by lra. apply Rabs_mul_le; [done|].
    rewrite Rmult_0_l, Rplus_0_l.
    replace 2 with (2 * 1) by lra. apply Rabs_mul_le; [|done].
    replace 2 with (1 * 1 + 1 * 1) by lra.
    apply Rabs_sub_le; by apply Rabs_mul_le. }
  split; [|split].
  - destruct (Hoff nx ntz ny nty Hnx Htz Hny Hty) as [_ H2].
    replace 24.25 with (18 + 6 + 0.25) by lra.
    apply Rabs_add_le; [apply Rabs_add_le; assumption|apply Hj].
  - destruct (Hoff ny ntz nx ntx Hny Htz Hnx Htx) as [H1 _].
    replace 24.25 with (18 + 6 + 0.25) by lra.
    apply Rabs_add_le; [apply Rabs_add_le; assumption|apply Hj].
  - replace 11 with (4 + 6 + (0.25 + 0.75)) by lra.
    apply Rabs_add_le; [apply Rabs_add_le; assumption|].
    apply Rabs_add_le; [apply Hj|assumption].
Qed.

(** X17.  With shape Mobius every active target has |x| <= 24.25,
    |y| <= 24.25 and |z| <= 11.  The two normalisations of the frame never
    divide by zero: for every parameter u the tangent has length at least 4
    and the normal it is crossed into has positive length. *)
Theorem mobius_targets_bounded (e : ParticleEngine) :
  (wf e -> shape (currentConfig e) = MOBIUS ->
   exists e', updateTargetShape e = Some e' /\
     forall i, (i < MAX_PARTICLES)%nat ->
       (Z.of_nat i
        < activeCount (currentConfig e))%Z ->
       let x := rd (targetPositions e') (i * 3) in
       let y := rd (targetPositions e') (i * 3 + 1) in
       let z := rd (targetPositions e') (i * 3 + 2) in
       Rabs x <= 24.25 /\ Rabs y <= 24.25 /\ Rabs z <= 11) /\
  (forall u : R,
     let tx := 18 * cos u in
     let ty := 18 * cos (2 * u) in
     let tz := - 4 * sin u in
     let tLen := Math_sqrt (tx * tx + ty * ty + tz * tz) in
     let nx := - (ty / tLen) in
     let ny := tx / tLen in
     let nLen := Math_sqrt (nx * nx + ny * ny + 0 * 0) in
     4 <= tLen /\ 0 < nLen).
Proof.
  split.
  - apply (active_targets MOBIUS
             (fun x y z => Rabs x <= 24.25 /\ Rabs y <= 24.25 /\ Rabs z <= 11)).
    intros pts i k x y z k' Hgen. by apply (mobiusTarget_bounds k x y z k').
  - intros u tx ty tz tLen nx ny nLen.
    pose proof (sin2_cos2 u) as Hsc. unfold Rsqr in Hsc.
    assert (Hc2 : cos (2 * u) = 2 * cos u * cos u - 1) by apply cos_2a_cos.
    assert (HS : 16 <= tx * tx + ty * ty + tz * tz).
    { unfold tx, ty, tz. pose proof (Rle_0_sqr (cos (2 * u))) as H2.
      pose proof (Rle_0_sqr (cos u)) as H1. unfold Rsqr in *. nra. }
    assert (Ht4 : 4 <= tLen).
    { unfold tLen, Math_sqrt. rewrite <- (sqrt_square 4) by lra.
      apply sqrt_le_1; lra. }
    split; [exact Ht4|].
    unfold nLen, Math_sqrt. apply sqrt_lt_R0.
    assert (Hxy : 0 < tx * tx + ty * ty).
    { unfold tx, ty. rewrite Hc2.
      pose proof (Rle_0_sqr (cos u * cos u - 3 / 8)) as Hq.
      unfold Rsqr in Hq. nra. }
    assert (Hinv : 0 < / tLen) by (apply Rinv_0_lt_compat; lra).
    unfold nx, ny, Rdiv.
    replace (- (ty * / tLen) * - (ty * / tLen)
             + tx * / tLen * (tx * / tLen) + 0 * 0)
      with ((tx * tx + ty * ty) * (/ tLen * / tLen)) by ring.
    apply Rmult_lt_0_compat; [done|]. by apply Rmult_lt_0_compat.
Qed.

(** ** Regeneration as a whole *)

Lemma Rabs_le_hypot (a s : R) : 0 <= s -> Rabs a <= sqrt (a * a + s).
Proof.
  intros Hs. rewrite <- sqrt_Rsqr_abs. apply sqrt_le_1_alt.
  unfold Rsqr. lra.
Qed.

Lemma pointsBound_nonneg (pts : list Point3D) : 0 <= pointsBound pts.
Proof.
  induction pts as [|p pts IH]; [simpl; lra|].
  change (pointsBound (p :: pts))
    with (Rmax (pointNorm p) (pointsBound pts)).
  pose proof (Rmax_r (pointNorm p) (pointsBound pts)). lra.
Qed.

Lemma pointsBound_lookup (pts : list Point3D) (j : nat) (p : Point3D) :
  pts !! j = Some p ->
  Rabs (p_x p) <= pointsBound pts /\ Rabs (p_y p) <= pointsBound pts /\
  Rabs (p_z p) <= pointsBound pts.
Proof.
  revert j. induction pts as [|q pts IH]; intros j Hj; [done|].
  change (pointsBound (q :: pts))
    with (Rmax (pointNorm q) (pointsBound pts)).
  pose proof (Rmax_l (pointNorm q) (pointsBound pts)) as Hl.
  pose proof (Rmax_r (pointNorm q) (pointsBound pts)) as Hr.
  destruct j as [|j]; simpl in Hj.
  - injection Hj as ->. unfold pointNorm in *.
    pose proof (Rmax_l (Rabs (p_x p)) (Rmax (Rabs (p_y p)) (Rabs (p_z p)))).
    pose proof (Rmax_r (Rabs (p_x p)) (Rmax (Rabs (p_y p)) (Rabs (p_z p)))).
    pose proof (Rmax_l (Rabs (p_y p)) (Rabs (p_z p))).
    pose proof (Rmax_r (Rabs (p_y p)) (Rabs (p_z p))).
    repeat split; lra.
  - destruct (IH j Hj) as (Hx & Hy & Hz). repeat split; lra.
Qed.

(** Whatever a generator returns is a point with coordinates of bounded
    magnitude. *)
Lemma shapeTarget_bounded (sh : ShapeType) (pts : list Point3D) (i k : nat)
    (v : R * R * R) (k' : nat) :
  shapeTarget sh pts i k = Some (v, k') ->
  coordsWithin (targetBound sh pts) v.
Proof.
  destruct v as [[x y] z]. unfold coordsWithin. cbn [fst snd].
  destruct sh; cbn [shapeTarget targetBound]; intros Hg.
  - destruct (nebulaTarget_bounds _ _ _ _ _ Hg) as [Hxy Hz].
    pose proof (Rabs_le_hypot x (y * y) (Rle_0_sqr y)) as Hx.
    pose proof (Rabs_le_hypot y (x * x) (Rle_0_sqr x)) as Hy.
    replace (y * y + x * x) with (x * x + y * y) in Hy by ring.
    repeat split; lra.
  - destruct (heartTarget_bounds _ _ _ _ _ Hg) as (Hx & Hy & Hz).
    repeat split; lra.
  - pose proof (sphereTarget_spec _ _ _ _ _ Hg) as Hn.
    pose proof (sum_squares_nonneg y z 0) as H1.
    pose proof (sum_squares_nonneg x z 0) as H2.
    pose proof (sum_squares_nonneg x y 0) as H3.
    pose proof (Rabs_le_hypot x (y * y + z * z) ltac:(lra)) as Hx.
    pose proof (Rabs_le_hypot y (x * x + z * z) ltac:(lra)) as Hy.
    pose proof (Rabs_le_hypot z (x * x + y * y) ltac:(lra)) as Hz.
    replace (x * x + (y * y + z * z)) with (x * x + y * y + z * z) in Hx
      by ring.
    replace (y * y + (x * x + z * z)) with (x * x + y * y + z * z) in Hy
      by ring.
    replace (z * z + (x * x + y * y)) with (x * x + y * y + z * z) in Hz
      by ring.
    repeat split; lra.
  - destruct (galaxyTarget_bounds _ _ _ _ _ _ Hg) as [Hxy Hz].
    pose proof (Rabs_le_hypot x (y * y) (Rle_0_sqr y)) as Hx.
    pose proof (Rabs_le_hypot y (x * x) (Rle_0_sqr x)) as Hy.
    replace (y * y + x * x) with (x * x + y * y) in Hy by ring.
    repeat split; lra.
  - destruct (mobiusTarget_bounds _ _ _ _ _ Hg) as (Hx & Hy & Hz).
    repeat split; lra.
  - destruct (customTarget_spec _ _ _ _ _ _ _ Hg) as [Hempty Hfull].
    pose proof (pointsBound_nonneg pts) as Hb.
    destruct pts as [|q pts].
    + destruct (Hempty eq_refl) as (Hx & Hy & ->).
      rewrite Rabs_R0. repeat split; lra.
    + destruct (Hfull ltac:(done)) as (p & Hp & Hx & Hy & Hz).
      destruct (pointsBound_lookup _ _ _ Hp) as (Px & Py & Pz).
      pose proof (Rabs_triang (x - p_x p) (p_x p)) as Tx.
      pose proof (Rabs_triang (y - p_y p) (p_y p)) as Ty.
      pose proof (Rabs_triang (z - p_z p) (p_z p)) as Tz.
      replace (x - p_x p + p_x p) with x in Tx by ring.
      replace (y - p_y p + p_y p) with y in Ty by ring.
      replace (z - p_z p + p_z p) with z in Tz by ring.
      repeat split; lra.
Qed.

(** C4.  Regenerating the targets of a well-formed engine returns.  With
    count = floor(MAX_PARTICLES * density), the density being the double
    the configuration holds and the product the double the source computes:
    every particle at or beyond count has the sentinel
    (9999, 9999, 9999) as its target; every particle below count has a
    target that the generator of the current shape produced from draws made
    during this regeneration, a point whose coordinates are finite, of
    magnitude at most the bound of the shape.  For a density in (0, 1] the
    count lies between 0 and MAX_PARTICLES, and it is the floor of the exact
    product, or one more when the product is rounded up to an integer. *)
Theorem updateTargetShape_targets (e : ParticleEngine) :
  wf e ->
  exists e', updateTargetShape e = Some e' /\
    let d := roundDouble (density (currentConfig e)) in
    let count := activeCount (currentConfig e) in
    count = Zfloor (roundDouble (INR MAX_PARTICLES * d)) /\
    (0 < density (currentConfig e) <= 1 ->
       (0 <= count <= Z.of_nat MAX_PARTICLES)%Z /\
       (count = Zfloor (INR MAX_PARTICLES * d) \/
        (count = (Zfloor (INR MAX_PARTICLES * d) + 1)%Z /\
         roundDouble (INR MAX_PARTICLES * d) = IZR count))) /\
    forall i, (i < MAX_PARTICLES)%nat ->
      ((count <= Z.of_nat i)%Z ->
         getXYZ (targetPositions e') i = (9999, 9999, 9999)) /\
      ((Z.of_nat i < count)%Z ->
         exists k k', (randomCalls e <= k)%nat /\ (k' <= randomCalls e')%nat /\
           shapeTarget (shape (currentConfig e)) (customShapePoints e) i k
             = Some (getXYZ (targetPositions e') i, k') /\
           coordsWithin
             (targetBound (shape (currentConfig e)) (customShapePoints e))
             (getXYZ (targetPositions e') i)).
Proof.
  intros Hwf.
  destruct (updateTargetShape_returns e Hwf) as (e' & Hu & _ & _ & Hall).
  exists e'. split; [exact Hu|]. cbv zeta.
  split; [reflexivity|]. split.
  - intros [Hd0 Hd1]. split.
    + split; [apply activeCount_nonneg; lra|by apply activeCount_le_max].
    + rewrite INR_MAX_PARTICLES. apply activeCount_real.
      apply Rabs_le. lra.
  - intros i Hi. destruct (Hall i Hi) as [Hhid Hact].
    split; [exact Hhid|]. intros Hlt.
    destruct (Hact Hlt) as (k & k' & Hk & Hk' & Hg).
    exists k, k'. split; [exact Hk|]. split; [exact Hk'|].
    split; [exact Hg|]. by apply (shapeTarget_bounded _ _ _ _ _ _ Hg).
Qed.

(** ** The drawing canvas *)

Lemma scatter_loop (x3d y3d brush : R) (n : nat) (pts : list Point3D)
    (k : nat) :
  0 <= brush ->
  exists new,
    for_each (scatterBody x3d y3d (brush * 0.05)) 0 n pts k
      = Some (pts ++ new, (k + 3 * n)%nat) /\
    length new = n /\ Forall (scattered x3d y3d brush) new.
Proof.
  intros Hb.
  destruct (for_each_inv (scatterBody x3d y3d (brush * 0.05))
              (fun i ps k' => exists new, ps = pts ++ new /\
                 k' = (k + 3 * i)%nat /\ length new = i /\
                 Forall (scattered x3d y3d brush) new)
              n) with (n := n) (i := 0%nat) (s := pts) (k := k)
    as (ps & k' & Hf & new & -> & -> & Hlen & Hall); [|lia| |].
  - intros i ps k1 _ (new & -> & -> & Hlen & Hall). unfold scatterBody.
    gen_steps. eexists _, _. split; [reflexivity|].
    eexists (new ++ [_]). split; [by rewrite app_assoc|].
    split; [lia|]. split; [rewrite length_app; simpl; lia|].
    apply Forall_app. split; [done|]. apply Forall_singleton.
    pose proof (Math_random_range (k + 3 * i)) as H1.
    pose proof (Math_random_range (S (k + 3 * i))) as H2.
    pose proof (Math_random_range (S (S (k + 3 * i)))) as H3.
    unfold scattered. cbn [p_x p_y p_z].
    revert H1 H2 H3.
    generalize (Math_random (k + 3 * i)) (Math_random (S (k + 3 * i)))
      (Math_random (S (S (k + 3 * i)))).
    intros u1 u2 u3 H1 H2 H3.
    repeat split; apply Rabs_le; split; nra.
  - exists []. rewrite app_nil_r. repeat split; [lia|constructor].
  - exists new. simpl in Hf. done.
Qed.

(** X18.  addPoint keeps the points already drawn and appends
    max(1, floor(brushSize / 2)) new ones, at least one, with three random
    draws each.  For a pointer inside the canvas the world position lies in
    [-20, 20] on both axes (the canvas y axis is flipped), and every new
    point is within brushSize * 0.025 of it in x and y, with |z| <= 2.5. *)
Theorem addPoint_appends (w h brush x y : R) (pts : list Point3D) (k : nat) :
  0 < w -> 0 < h -> 0 <= x <= w -> 0 <= y <= h -> 0 <= brush ->
  let x3d := x / w * 40 - 20 in
  let y3d := 20 - y / h * 40 in
  exists new,
    addPoint w h brush x y pts k
      = Some (pts ++ new, (k + 3 * length new)%nat) /\
    Z.of_nat (length new) = Z.max 1 (Zfloor (brush / 2)) /\
    (1 <= length new)%nat /\
    -20 <= x3d <= 20 /\ -20 <= y3d <= 20 /\
    Forall (scattered x3d y3d brush) new.
Proof.
  intros Hw Hh Hx Hy Hb x3d y3d. unfold addPoint, Math_floor.
  destruct (scatter_loop x3d (- (y / h * 40 - 20)) brush
              (Z.to_nat (Z.max 1 (Zfloor (brush / 2)))) pts k Hb)
    as (new & Hf & Hlen & Hall).
  exists new. rewrite Hlen. split; [exact Hf|].
  split; [lia|]. split; [lia|].
  assert (Hunit : forall a b, 0 < b -> 0 <= a <= b -> 0 <= a / b <= 1).
  { intros a b Hb0 Ha. pose proof (Rinv_0_lt_compat b Hb0) as Hi.
    unfold Rdiv. split; [apply Rmult_le_pos; lra|].
    apply (Rmult_le_reg_r b); [done|].
    rewrite Rmult_assoc, Rinv_l by lra. lra. }
  pose proof (Hunit x w Hw Hx) as Hxw.
  pose proof (Hunit y h Hh Hy) as Hyh.
  split; [unfold x3d; lra|]. split; [unfold y3d; lra|].
  replace y3d with (- (y / h * 40 - 20)) by (unfold y3d; lra). exact Hall.
Qed.

Lemma addPoint_returns (w h brush x y : R) (pts : list Point3D) (k : nat) :
  exists new k', addPoint w h brush x y pts k = Some (pts ++ new, k') /\
    (1 <= length new)%nat.
Proof.
  unfold addPoint.
  destruct (for_each_inv
              (scatterBody (x / w * 40 - 20) (- (y / h * 40 - 20))
                 (brush * 0.05))
              (fun i ps _ => exists new, ps = pts ++ new /\ length new = i)
              (Z.to_nat (Z.max 1 (Math_floor (brush / 2))))) with
    (n := Z.to_nat (Z.max 1 (Math_floor (brush / 2)))) (i := 0%nat)
    (s := pts) (k := k)
    as (ps & k' & Hf & new & -> & Hlen); [|lia| |].
  - intros i ps k1 _ (new & -> & Hlen). unfold scatterBody. gen_steps.
    eexists _, _. split; [reflexivity|].
    eexists (new ++ [_]). split; [by rewrite app_assoc|].
    rewrite length_app. simpl. lia.
  - exists []. by rewrite app_nil_r.
  - exists new, k'. split; [exact Hf|]. simpl in Hlen. lia.
Qed.

Lemma moves_grow (w h : R) (path : list (R * R)) (st : DrawingState)
    (k : nat) :
  isDrawing st = true ->
  exists new k',
    moves w h path st k
      = Some ({| isDrawing := true; brushSize := brushSize st;
                 pointsRef := pointsRef st ++ new |}, k') /\
    (length path <= length new)%nat.
Proof.
  revert st k. induction path as [|[x y] path IH]; intros st k Hd.
  - exists [], k. rewrite app_nil_r. split; [|simpl; lia].
    destruct st. simpl in Hd. by rewrite Hd.
  - destruct (addPoint_returns w h (brushSize st) x y (pointsRef st) k)
      as (new1 & k1 & Ha & Hn1).
    cbn [moves]. rewrite Gen_bind_unfold. unfold draw. rewrite Hd.
    rewrite Gen_bind_unfold, Ha, Gen_ret_unfold.
    match goal with |- context [moves w h path ?s k1] =>
      destruct (IH s k1 eq_refl) as (new2 & k2 & Hm & Hn2) end.
    cbn [brushSize pointsRef] in Hm.
    exists (new1 ++ new2), k2. rewrite Hm, app_assoc.
    split; [done|]. rewrite length_app. simpl. lia.
Qed.

(** X19.  A stroke, a press followed by at least five moves, adds at least
    six points to those already drawn, so the drawing can be confirmed:
    handleConfirm hands over all the points.  Moves without a press add
    nothing and draw no random number. *)
Theorem stroke_can_be_confirmed (w h x y : R) (path : list (R * R))
    (st : DrawingState) (k : nat) :
  (5 <= length path)%nat ->
  (exists st' k' new,
     stroke w h x y path st k = Some (st', k') /\
     pointsRef st' = pointsRef st ++ new /\
     (length path + 1 <= length new)%nat /\
     handleConfirm st' = Some (pointsRef st')) /\
  (isDrawing st = false -> moves w h path st k = Some (st, k)).
Proof.
  intros Hlen. split.
  - destruct (addPoint_returns w h (brushSize st) x y (pointsRef st) k)
      as (new1 & k1 & Ha & Hn1).
    unfold stroke, startDrawing.
    rewrite !Gen_bind_unfold, Ha, Gen_ret_unfold.
    match goal with |- context [moves w h path ?s k1] =>
      destruct (moves_grow w h path s k1 eq_refl)
        as (new2 & k2 & Hm & Hn2) end.
    cbn [brushSize pointsRef] in Hm. rewrite Hm.
    eexists _, k2, (new1 ++ new2). split; [reflexivity|].
    cbn [pointsRef]. split; [by rewrite app_assoc|].
    split; [rewrite length_app; lia|].
    unfold handleConfirm. cbn [pointsRef].
    replace (5 <? _)%nat with true; [done|].
    symmetry. apply Nat.ltb_lt. rewrite !length_app. lia.
  - intros Hd. clear Hlen. revert k.
    induction path as [|[x' y'] path IH]; intros k; [done|].
    cbn [moves]. rewrite Gen_bind_unfold. unfold draw. rewrite Hd.
    rewrite Gen_ret_unfold. apply IH.
Qed.

(** ** The hand tracker *)

Lemma clampOpenness_range (r : R) : 0 <= clampOpenness r <= 1.
Proof.
  unfold clampOpenness, Rmin, Rmax.
  repeat destruct (Rle_dec _ _); lra.
Qed.

Lemma planarDist_nonneg (a b : Landmark) : 0 <= planarDist a b.
Proof. apply sqrt_pos. Qed.

Lemma totalTipDist_returns (landmarks : list Landmark) (wrist : Landmark)
    (ts : list nat) (acc : R) :
  Forall (fun t => (t < length landmarks)%nat) ts ->
  exists total, totalTipDist landmarks wrist ts acc = Some total /\
    acc <= total.
Proof.
  intros Hts. revert acc. induction Hts as [|t ts Ht _ IH]; intros acc.
  - exists acc. split; [done|lra].
  - destruct (lookup_lt_is_Some_2 landmarks t Ht) as [tip Htip].
    destruct (IH (acc + planarDist tip wrist)) as (total & Hr & Hle).
    exists total. cbn [totalTipDist]. rewrite Htip. split; [exact Hr|].
    pose proof (planarDist_nonneg tip wrist). lra.
Qed.

Lemma totalTipDist_throws (landmarks : list Landmark) (wrist : Landmark)
    (ts : list nat) (acc : R) :
  Exists (fun t => (length landmarks <= t)%nat) ts ->
  totalTipDist landmarks wrist ts acc = None.
Proof.
  intros Hts. revert acc. induction Hts as [t ts Ht|t ts _ IH]; intros acc.
  - cbn [totalTipDist]. by rewrite (lookup_ge_None_2 landmarks t Ht).
  - cbn [totalTipDist]. destruct (landmarks !! t); [apply IH|done].
Qed.

(** X20.  detectHand reads landmarks 0, 4, 8, 9, 12, 16 and 20 of the
    first detected hand: it returns exactly when the landmarker is not
    ready, no hand was detected, or that hand has at least 21 landmarks,
    and throws otherwise.  Without a landmarker or without a hand the
    result is null. *)
Theorem detectHand_returns_iff (ready : bool)
    (results : list (list Landmark)) :
  (is_Some (detectHand ready results) <->
     ready = false \/ results = [] \/
     exists landmarks rest,
       results = landmarks :: rest /\ (21 <= length landmarks)%nat) /\
  (ready = false \/ results = [] -> detectHand ready results = Some None).
Proof.
  split; [|by intros [-> | ->]; [|destruct ready]].
  destruct ready; [|split; [by left|by eexists]].
  destruct results as [|landmarks rest];
    [split; [by right; left|by eexists]|].
  destruct (decide (21 <= length landmarks)%nat) as [Hlen|Hlen].
  - split; [intros _; right; right; by eexists _, _|]. intros _.
    destruct (lookup_lt_is_Some_2 landmarks 0) as [wrist Hw]; [lia|].
    destruct (lookup_lt_is_Some_2 landmarks 9) as [mcp Hm]; [lia|].
    destruct (totalTipDist_returns landmarks wrist tips 0) as (total & Ht & _).
    { unfold tips. repeat (constructor; [lia|]). constructor. }
    unfold detectHand. cbn [negb]. rewrite Hw, Hm. cbn [mbind option_bind].
    rewrite Ht. by eexists.
  - split.
    + intros [r Hr]. exfalso.
      unfold detectHand in Hr. cbn [negb] in Hr.
      destruct (landmarks !! 0%nat) as [wrist|]; [|done].
      destruct (landmarks !! 9%nat) as [mcp|]; [|done].
      cbn [mbind option_bind] in Hr.
      rewrite (totalTipDist_throws landmarks wrist tips 0) in Hr; [done|].
      unfold tips. do 4 apply Exists_cons_tl. apply Exists_cons_hd. lia.
    + intros [? | [? | (l & r & Heq & Hl)]]; [done..|].
      injection Heq as <- <-. lia.
Qed.

Lemma detectHand_unfold (landmarks : list Landmark)
    (rest : list (list Landmark)) (wrist mcp : Landmark) (total : R) :
  landmarks !! 0%nat = Some wrist -> landmarks !! 9%nat = Some mcp ->
  totalTipDist landmarks wrist tips 0 = Some total ->
  detectHand true (landmarks :: rest) =
    Some (Some {| isOpen :=
                    bool_decide
                      (clampOpenness (total / 5 / planarDist mcp wrist) > 0.5);
                  openness := clampOpenness (total / 5 / planarDist mcp wrist);
                  hand_x := lm_x mcp; hand_y := lm_y mcp |}).
Proof.
  intros Hw Hm Ht. unfold detectHand. cbn [negb]. rewrite Hw, Hm.
  cbn [mbind option_bind]. by rewrite Ht.
Qed.

(** X21.  For a hand of positive size (wrist and middle knuckle apart)
    detectHand reports an openness in [0, 1] that is 0 exactly when the
    average fingertip distance is at most 0.8 hand sizes, 1 exactly when it
    is at least 2.2 hand sizes, and linear in between; the hand counts as
    open exactly when the average exceeds 1.5 hand sizes; the reported
    position is the middle knuckle. *)
Theorem detectHand_thresholds (landmarks : list Landmark)
    (rest : list (list Landmark)) (wrist mcp : Landmark) (total : R) :
  landmarks !! 0%nat = Some wrist -> landmarks !! 9%nat = Some mcp ->
  totalTipDist landmarks wrist tips 0 = Some total ->
  0 < planarDist mcp wrist ->
  let handSize := planarDist mcp wrist in
  let avgDist := total / 5 in
  exists d, detectHand true (landmarks :: rest) = Some (Some d) /\
    0 <= openness d <= 1 /\
    (openness d = 0 <-> avgDist <= 0.8 * handSize) /\
    (openness d = 1 <-> 2.2 * handSize <= avgDist) /\
    (0.8 * handSize <= avgDist <= 2.2 * handSize ->
       openness d = (avgDist / handSize - 0.8) / 1.4) /\
    (isOpen d = true <-> 1.5 * handSize < avgDist) /\
    hand_x d = lm_x mcp /\ hand_y d = lm_y mcp.
Proof.
  intros Hw Hm Ht Hs handSize avgDist.
  eexists. split; [by apply detectHand_unfold|].
  cbn [openness isOpen hand_x hand_y].
  fold handSize avgDist. fold handSize in Hs. clearbody handSize avgDist.
  split; [apply clampOpenness_range|].
  assert (Hr : avgDist = avgDist / handSize * handSize).
  { unfold Rdiv. rewrite Rmult_assoc, Rinv_l by lra. lra. }
  revert Hr. generalize (avgDist / handSize). intros r ->.
  rewrite bool_decide_eq_true.
  unfold clampOpenness, Rmin, Rmax.
  repeat split; repeat destruct (Rle_dec _ _); intros; nra.
Qed.

Lemma planarDist_move (s dx dy : R) (a b : Landmark) :
  0 < s ->
  planarDist (moveLandmark s dx dy a) (moveLandmark s dx dy b)
    = s * planarDist a b.
Proof.
  intros Hs. unfold planarDist, moveLandmark, Math_sqrt. cbn [lm_x lm_y].
  replace ((s * lm_x a + dx - (s * lm_x b + dx)) ^ 2 +
           (s * lm_y a + dy - (s * lm_y b + dy)) ^ 2)
    with (s ^ 2 * ((lm_x a - lm_x b) ^ 2 + (lm_y a - lm_y b) ^ 2)) by ring.
  rewrite sqrt_mult_alt by nra. f_equal.
  replace (s ^ 2) with (s * s) by ring. apply sqrt_square. lra.
Qed.

Lemma totalTipDist_move (s dx dy : R) (landmarks : list Landmark)
    (wrist : Landmark) (ts : list nat) (acc : R) :
  0 < s ->
  totalTipDist (map (moveLandmark s dx dy) landmarks)
    (moveLandmark s dx dy wrist) ts (s * acc)
    = (fun total => s * total) <$> totalTipDist landmarks wrist ts acc.
Proof.
  intros Hs. revert acc. induction ts as [|t ts IH]; intros acc; [done|].
  cbn [totalTipDist]. rewrite list_lookup_fmap.
  destruct (landmarks !! t) as [tip|]; [|done].
  cbn [fmap option_fmap option_map mbind option_bind].
  rewrite planarDist_move by done.
  replace (s * acc + s * planarDist tip wrist)
    with (s * (acc + planarDist tip wrist)) by ring.
  apply IH.
Qed.

(** X22.  The openness does not depend on where the hand is in the image
    nor on how large it appears: scaling all landmarks of a hand of
    positive size by s > 0 and shifting them gives the same openness and
    the same open flag, and the reported position moves along. *)
Theorem detectHand_scale_invariant (s dx dy : R)
    (landmarks : list Landmark) (rest rest' : list (list Landmark))
    (wrist mcp : Landmark) :
  0 < s ->
  (21 <= length landmarks)%nat ->
  landmarks !! 0%nat = Some wrist -> landmarks !! 9%nat = Some mcp ->
  0 < planarDist mcp wrist ->
  exists d d',
    detectHand true (landmarks :: rest) = Some (Some d) /\
    detectHand true (map (moveLandmark s dx dy) landmarks :: rest')
      = Some (Some d') /\
    openness d' = openness d /\ isOpen d' = isOpen d /\
    hand_x d' = s * hand_x d + dx /\ hand_y d' = s * hand_y d + dy.
Proof.
  intros Hs Hlen Hw Hm Hsize.
  destruct (totalTipDist_returns landmarks wrist tips 0) as (total & Ht & _).
  { unfold tips. repeat (constructor; [lia|]). constructor. }
  eexists _, _. split; [by apply detectHand_unfold|].
  split.
  { apply detectHand_unfold with (total := s * total).
    - by rewrite list_lookup_fmap, Hw.
    - by rewrite list_lookup_fmap, Hm.
    - replace 0 with (s * 0) by ring.
      rewrite totalTipDist_move by done. by rewrite Ht. }
  cbn [openness isOpen hand_x hand_y].
  rewrite planarDist_move by done.
  replace (s * total / 5 / (s * planarDist mcp wrist))
    with (total / 5 / planarDist mcp wrist) by (field; lra).
  done.
Qed.

(** ** App *)

Lemma mergeConfig_asPartial (cfg config : ParticleConfig) :
  mergeConfig cfg (asPartial config) = config.
Proof. by destruct config. Qed.

Lemma syncConfig_spec (e : ParticleEngine) (config : ParticleConfig) :
  wf e -> isDisposed e = false ->
  exists e' k,
    syncConfig e config = Some e' /\ wf e' /\
    currentConfig e' = config /\
    customShapePoints e' = customShapePoints e /\
    isDisposed e' = false /\
    (randomCalls e <= k)%nat /\
    targets_upto config (customShapePoints e) k MAX_PARTICLES
      (targetPositions e') (randomCalls e').
Proof.
  intros Hwf Hd. unfold syncConfig.
  destruct (updateConfig_active e (asPartial config) Hwf Hd)
    as (e2 & Hwf2 & _ & Hcfg2 & Hpts2 & Hk2 & Hu).
  rewrite decide_True in Hu by (left; by eexists).
  rewrite mergeConfig_asPartial in Hcfg2.
  destruct (updateTargetShape_returns e2 Hwf2) as (e' & Hu' & Hup).
  destruct (updateTargetShape_frame e2 e' Hu')
    as (_ & _ & _ & _ & Hcfg & Hpts & _ & Hdis & _).
  exists e', (randomCalls e2). rewrite Hu.
  split; [exact Hu'|]. split; [by apply (updateTargetShape_wf e2)|].
  split; [congruence|]. split; [congruence|].
  split.
  { assert (Hs : updateConfig e (asPartial config) = Some e') by congruence.
    destruct (updateConfig_frame e e' _ Hs) as (_&_&_&_&_& Hd' &_).
    congruence. }
  split; [exact Hk2|].
  by rewrite <- Hcfg2, <- Hpts2.
Qed.

(** X23.  Every change made in the controls reaches the engine as a whole
    configuration, so the engine regenerates its targets each time, also
    when only the spread or the colour was changed; afterwards the
    configuration of the engine is that of the application. *)
Theorem syncConfig_always_regenerates (e : ParticleEngine)
    (config : ParticleConfig) (newConf : PartialConfig) :
  wf e -> isDisposed e = false ->
  let config' := handleConfigChange config newConf in
  exists e' k,
    syncConfig e config' = Some e' /\ wf e' /\
    currentConfig e' = config' /\
    (randomCalls e <= k)%nat /\
    targets_upto config' (customShapePoints e) k MAX_PARTICLES
      (targetPositions e') (randomCalls e').
Proof.
  intros Hwf Hd config'.
  destruct (syncConfig_spec e config' Hwf Hd)
    as (e' & k & Hs & Hwf' & Hcfg & _ & _ & Hk & Hup).
  exists e', k. split; [exact Hs|]. split; [exact Hwf'|].
  split; [exact Hcfg|]. split; [exact Hk|exact Hup].
Qed.

(** X24.  A confirmed drawing becomes the shape: handleDrawComplete stores
    the drawn points, switches the application to Custom and keeps its
    other settings, and after the engine has been synchronised every active
    particle has its target within 0.5, on each axis, of the drawn point at
    index i mod length, never the fallback cluster. *)
Theorem drawing_becomes_shape (e : ParticleEngine) (config : ParticleConfig)
    (st : DrawingState) (points : list Point3D) :
  wf e -> isDisposed e = false -> handleConfirm st = Some points ->
  exists e2 config',
    handleDrawComplete e config points = Some (e2, config') /\
    wf e2 /\ currentConfig e2 = config' /\ customShapePoints e2 = points /\
    shape config' = CUSTOM /\ density config' = density config /\
    spread config' = spread config /\ color config' = color config /\
    forall i, (i < MAX_PARTICLES)%nat ->
      (Z.of_nat i < activeCount config)%Z ->
      exists p, points !! (i mod length points)%nat = Some p /\
        Rabs (rd (targetPositions e2) (i * 3) - p_x p) <= 0.5 /\
        Rabs (rd (targetPositions e2) (i * 3 + 1) - p_y p) <= 0.5 /\
        Rabs (rd (targetPositions e2) (i * 3 + 2) - p_z p) <= 0.5.
Proof.
  intros Hwf Hd Hc.
  assert (Hne : points <> []).
  { unfold handleConfirm in Hc.
    destruct (5 <? length (pointsRef st))%nat eqn:Hl; [|done].
    apply Nat.ltb_lt in Hl. injection Hc as <-.
    intros Hnil. rewrite Hnil in Hl. simpl in Hl. lia. }
  destruct (setCustomShape_returns e points Hwf) as (e1 & Hs1 & Hwf1).
  destruct (setCustomShape_frame e e1 points Hs1)
    as (_ & _ & _ & Hpts1 & _ & Hd1 & _).
  rewrite Hd in Hd1.
  set (config' := {| density := density config; spread := spread config;
                     color := color config; shape := CUSTOM |}).
  destruct (syncConfig_spec e1 config' Hwf1 Hd1)
    as (e2 & k & Hs2 & Hwf2 & Hcfg2 & Hpts2 & _ & _ & _ & _ & Hall).
  exists e2, config'. unfold handleDrawComplete. rewrite Hs1.
  cbn [mbind option_bind]. fold config'. rewrite Hs2.
  split; [reflexivity|]. split; [exact Hwf2|]. split; [exact Hcfg2|].
  split; [congruence|]. do 4 (split; [reflexivity|]).
  intros i Hi Hact. destruct (Hall i Hi) as [_ Hg].
  destruct (Hg Hact) as (kj & kj' & _ & _ & Hgen).
  rewrite Hpts1 in Hgen. cbn [shape config' shapeTarget] in Hgen.
  destruct (customTarget_spec _ _ _ _ _ _ _ Hgen) as [_ Hfull].
  exact (Hfull Hne).
Qed.

Lemma idleOpenness_range (now : R) : 0 <= idleOpenness now <= 0.4.
Proof.
  unfold idleOpenness. pose proof (SIN_bound (now / 1000)). lra.
Qed.

(** X25.  Whatever the tracker reports for a hand of positive size, the
    openness that the frame loop hands to animate lies in [0, 1]: the
    detected openness, the idle value (sin(t / 1000) + 1) * 0.2 in
    [0, 0.4] when no hand is seen, or 0.5 while the video is not ready.
    Without an engine, or while loading with no video, animate is not
    called. *)
Theorem loopOpenness_range (videoReady loading error hasEngine ready : bool)
    (results : list (list Landmark)) (handData : option HandData)
    (now o : R) :
  (forall landmarks wrist mcp,
     head results = Some landmarks ->
     landmarks !! 0%nat = Some wrist -> landmarks !! 9%nat = Some mcp ->
     0 < planarDist mcp wrist) ->
  detectHand ready results = Some handData ->
  loopOpenness videoReady loading error hasEngine handData now = Some o ->
  hasEngine = true /\ 0 <= o <= 1 /\
  ((videoReady && negb loading && negb error)%bool = true ->
   handData = None -> o = idleOpenness now /\ o <= 0.4) /\
  ((videoReady && negb loading && negb error)%bool = false ->
   loading = false /\ o = 0.5).
Proof.
  intros _ Hdet Hloop.
  assert (Hrange : forall d, handData = Some d -> 0 <= openness d <= 1).
  { intros d ->. unfold detectHand in Hdet.
    destruct (negb ready); [done|]. destruct results as [|lm rest]; [done|].
    destruct (lm !! 0%nat); [|done]. destruct (lm !! 9%nat); [|done].
    cbn [mbind option_bind] in Hdet.
    destruct (totalTipDist _ _ _ _); [|done].
    cbn [mbind option_bind] in Hdet. injection Hdet as <-.
    apply clampOpenness_range. }
  unfold loopOpenness in Hloop.
  destruct (videoReady && negb loading && negb error).
  - destruct hasEngine; [|done]. injection Hloop as <-.
    split; [done|]. split.
    + destruct handData as [d|]; [by apply Hrange|].
      pose proof (idleOpenness_range now). lra.
    + split; [|done]. intros _ ->.
      split; [done|apply idleOpenness_range].
  - destruct hasEngine; [|done]. destruct loading; [done|].
    injection Hloop as <-. split; [done|]. split; [lra|]. done.
Qed.

(** With every particle parked beyond x = 8000 the insertion loop skips
    them all and the grid stays empty. *)
Lemma buildGrid_all_hidden (pos : list R) (ht ne : list Z) :
  (forall i, (i < MAX_PARTICLES)%nat -> rd pos (i * 3) > 8000) ->
  buildGrid pos ht ne
    = (replicate (length ht) (-1)%Z, replicate (length ne) (-1)%Z).
Proof.
  intros Hh. unfold buildGrid.
  apply (for_range_inv (gridBody pos)
           (fun _ g => g = (replicate (length ht) (-1)%Z,
                            replicate (length ne) (-1)%Z))
           MAX_PARTICLES) with (n := MAX_PARTICLES) (i := 0%nat);
    [|lia|reflexivity].
  intros i g Hi ->. unfold gridBody.
  destruct (decide (rd (pos) (i * 3) > 8000)) as [_|Hn]; [reflexivity|].
  exfalso. apply Hn. by apply Hh.
Qed.

End Engine.

Lemma harmonic_range (n : nat) : 0 <= harmonic n < 1.
Proof.
  unfold harmonic. pose proof (pos_INR n) as Hn.
  assert (Hpos : 0 < INR n + 2) by lra.
  pose proof (Rinv_0_lt_compat _ Hpos) as Hinv.
  split; [lra|].
  rewrite <- Rinv_1. apply Rinv_lt_contravar; lra.
Qed.

Lemma harmonic_decreasing (n m : nat) :
  (n < m)%nat -> harmonic m < harmonic n.
Proof.
  intros Hlt. unfold harmonic. apply lt_INR in Hlt.
  pose proof (pos_INR n) as Hn.
  apply Rinv_lt_contravar; [|lra].
  apply Rmult_lt_0_compat; lra.
Qed.

Lemma freshEngine_wf (cfg : ParticleConfig) (v : R) (pts : list Point3D) :
  wf (freshEngine cfg (replicate (MAX_PARTICLES * 3) v) pts).
Proof. split; apply length_replicate. Defined.

Lemma first_slot : (0 * 3 + 2 < MAX_PARTICLES * 3)%nat.
Proof. rewrite MAX_PARTICLES_eq. lia. Defined.

Lemma first_particle : (0 < MAX_PARTICLES)%nat.
Proof. rewrite MAX_PARTICLES_eq. lia. Defined.

(** ** The theorems at concrete engines *)

Lemma updateTargetShape_targets_witness :
  wf blankEngine /\
  exists e', updateTargetShape harmonic blankEngine = Some e' /\
    activeCount (currentConfig blankEngine) = 12500%Z /\
    getXYZ (targetPositions e') (MAX_PARTICLES - 1) = (9999, 9999, 9999) /\
    coordsWithin 20 (getXYZ (targetPositions e') 0).
Proof.
  split; [apply freshEngine_wf|].
  destruct (updateTargetShape_targets harmonic harmonic_range blankEngine
              (freshEngine_wf initialConfig 0 []))
    as (e' & Hu & _ & _ & Hall).
  exists e'. split; [exact Hu|]. split; [exact initial_count|]. split.
  - apply (proj1 (Hall (MAX_PARTICLES - 1)%nat
                    ltac:(pose proof first_particle; lia))).
    change (currentConfig blankEngine) with initialConfig.
    rewrite initial_count. rewrite MAX_PARTICLES_eq. lia.
  - destruct (proj2 (Hall 0%nat first_particle)) as (k & k' & _ & _ & _ & Hb).
    + change (currentConfig blankEngine) with initialConfig.
      rewrite initial_count. lia.
    + exact Hb.
Defined.

Lemma scroll_momentum_witness :
  isDisposed blankEngine = false /\
  scrollVelocity (handleScroll blankEngine 1000) <= 0.3.
Proof.
  split; [reflexivity|].
  exact (proj2 (proj2 (scroll_momentum harmonic blankEngine eq_refl) 1000)).
Defined.

Lemma animate_hidden_witness :
  wf hiddenEngine /\ isDisposed hiddenEngine = false /\
  getXYZ (targetPositions hiddenEngine) 0 = (9999, 9999, 9999) /\
  exists e', animate harmonic hiddenEngine 0.5 = Some e' /\
    getXYZ (positions e') 0 =
      (9999, rd (positions hiddenEngine) (0 * 3 + 1),
       rd (positions hiddenEngine) (0 * 3 + 2)).
Proof.
  assert (Ht : getXYZ (targetPositions hiddenEngine) 0 = (9999, 9999, 9999)).
  { unfold getXYZ. simpl targetPositions.
    pose proof first_slot. rewrite !rd_replicate by lia. reflexivity. }
  split; [apply freshEngine_wf|]. split; [reflexivity|]. split; [exact Ht|].
  apply (animate_hidden harmonic hiddenEngine 0.5 0
           (freshEngine_wf initialConfig 9999 []) eq_refl first_particle Ht).
Defined.

Lemma animate_blend_witness :
  wf blankEngine /\ isDisposed blankEngine = false /\
  exists e', animate harmonic blankEngine 1 = Some e'.
Proof.
  split; [apply freshEngine_wf|]. split; [reflexivity|].
  destruct (animate_blend harmonic blankEngine 1 0
              (freshEngine_wf initialConfig 0 []) eq_refl first_particle)
    as (e' & Ha & _).
  exists e'. exact Ha.
Defined.

Lemma repulsion_within_minDist_witness :
  (0 * 3 + 2 < length twoParticles)%nat /\
  getXYZ (repelOne 0 1 twoParticles) 0 = (-0.03, 0, 0) /\
  repelChain 10 [(-1)%Z; (-1)%Z] 0 1 twoParticles
    = repelOne 0 1 twoParticles.
Proof.
  assert (Hlen : (0 * 3 + 2 < length twoParticles)%nat) by (simpl; lia).
  assert (Hd : sqrt ((0 - 0.5) * (0 - 0.5) + (0 - 0) * (0 - 0)
                     + (0 - 0) * (0 - 0)) = 0.5).
  { replace ((0 - 0.5) * (0 - 0.5) + (0 - 0) * (0 - 0) + (0 - 0) * (0 - 0))
      with (0.5 * 0.5) by lra.
    apply sqrt_square. lra. }
  pose proof (repulsion_within_minDist twoParticles 0 1 Hlen)
    as (_ & _ & _ & Hpush & _ & Hfold & _).
  split; [exact Hlen|]. split.
  - rewrite Hpush.
    + change (Z.to_nat (1 * 3)) with 3%nat. unfold rd, twoParticles. cbn.
      rewrite Hd. f_equal; [f_equal|]; lra.
    + discriminate.
    + change (Z.to_nat (1 * 3)) with 3%nat. unfold rd, twoParticles. cbn.
      rewrite Hd. lra.
    + change (Z.to_nat (1 * 3)) with 3%nat. unfold rd, twoParticles. cbn.
      lra.
  - rewrite Hfold. reflexivity.
Defined.

Lemma custom_targets_witness :
  wf (freshEngine (withShape CUSTOM) (replicate (MAX_PARTICLES * 3) 0) []) /\
  exists e',
    updateTargetShape harmonic
      (freshEngine (withShape CUSTOM) (replicate (MAX_PARTICLES * 3) 0) [])
      = Some e' /\
    rd (targetPositions e') (0 * 3 + 2) = 0.
Proof.
  split; [apply freshEngine_wf|].
  destruct (custom_targets harmonic harmonic_range _
              (freshEngine_wf (withShape CUSTOM) 0 []) eq_refl)
    as (e' & Hu & Hall).
  exists e'. split; [exact Hu|].
  refine (proj2 (proj2 (proj1 (Hall 0%nat first_particle _) eq_refl))).
  rewrite half_count by reflexivity. lia.
Defined.

Lemma sphere_targets_within_radius_witness :
  wf (freshEngine (withShape SPHERE) (replicate (MAX_PARTICLES * 3) 0) []) /\
  exists e',
    updateTargetShape harmonic
      (freshEngine (withShape SPHERE) (replicate (MAX_PARTICLES * 3) 0) [])
      = Some e' /\
    sqrt (rd (targetPositions e') (0 * 3) * rd (targetPositions e') (0 * 3)
          + rd (targetPositions e') (0 * 3 + 1)
            * rd (targetPositions e') (0 * 3 + 1)
          + rd (targetPositions e') (0 * 3 + 2)
            * rd (targetPositions e') (0 * 3 + 2)) <= 12.
Proof.
  split; [apply freshEngine_wf|].
  destruct (sphere_targets_within_radius harmonic harmonic_range _
              (freshEngine_wf (withShape SPHERE) 0 []) eq_refl)
    as (e' & Hu & Hall).
  exists e'. split; [exact Hu|].
  refine (proj1 (Hall 0%nat first_particle _)).
  rewrite half_count by reflexivity. lia.
Defined.

Lemma updateConfig_regeneration_witness :
  wf blankEngine /\ isDisposed blankEngine = false /\
  exists e', updateConfig harmonic white grey blankEngine onlySpread = Some e' /\
    targetPositions e' = targetPositions blankEngine.
Proof.
  split; [apply freshEngine_wf|]. split; [reflexivity|].
  destruct (updateConfig_regeneration harmonic white grey blankEngine
              onlySpread (freshEngine_wf initialConfig 0 []) eq_refl)
    as (e' & Hu & Hsame & _).
  exists e'. split; [exact Hu|]. apply Hsame; reflexivity.
Defined.

(** ** Where the code departs from the specification *)

(** C2 as stated fails: in the engine the constructor returns, the last
    particle is hidden and a step leaves the y component of its position
    where [initParticles] put it, inside [-50, 50], not at 9999. *)
Lemma animate_hidden_not_all_sentinel :
  exists e0 e1,
    newParticleEngine harmonic white grey 0 = Some e0 /\
    getXYZ (targetPositions e0) (MAX_PARTICLES - 1) = (9999, 9999, 9999) /\
    animate harmonic e0 0.5 = Some e1 /\
    getXYZ (positions e1) (MAX_PARTICLES - 1) ≠ (9999, 9999, 9999).
Proof.
  destruct (newParticleEngine_returns harmonic white grey harmonic_range 0)
    as (e0 & Hnew & Hwf & Hact & _ & _ & _ & Hpos & Ht).
  assert (Hlast : (MAX_PARTICLES - 1 < MAX_PARTICLES)%nat)
    by (pose proof first_particle; lia).
  assert (Hs : getXYZ (targetPositions e0) (MAX_PARTICLES - 1)
               = (9999, 9999, 9999)).
  { apply (Ht _ Hlast). rewrite MAX_PARTICLES_eq. lia. }
  assert (Hx : rd (targetPositions e0) ((MAX_PARTICLES - 1) * 3) > 9000).
  { unfold getXYZ in Hs. injection Hs as -> _ _. lra. }
  destruct (animate_skips_hidden harmonic e0 0.5 _ Hwf Hact Hlast Hx)
    as (e1 & Ha & Hp).
  exists e0, e1. repeat split; [exact Hnew|exact Hs|exact Ha|].
  rewrite Hp. intros Heq. injection Heq as Hy _.
  pose proof (Hpos ((MAX_PARTICLES - 1) * 3 + 1)%nat) as Hb. lra.
Qed.

(** C5 as stated fails for an active particle whose target lies beyond
    x = 9000.  Construct an engine, hand it one custom point with x = 9500
    and select the Custom shape: particle 0 is active, its target is within
    0.5 of the point, not the sentinel.  A step with a closed hand parks the
    particle at x = 9999 instead of moving it by
    (target - position) * cohesionSpeed. *)
Lemma animate_parks_active_particle :
  exists e0 e1 e2 e3,
    newParticleEngine harmonic white grey 0 = Some e0 /\
    setCustomShape harmonic e0 [{| p_x := 9500; p_y := 0; p_z := 0 |}]
      = Some e1 /\
    updateConfig harmonic white grey e1 (onlyShape CUSTOM) = Some e2 /\
    (0 < activeCount (currentConfig e2))%Z /\
    getXYZ (targetPositions e2) 0 ≠ (9999, 9999, 9999) /\
    animate harmonic e2 0 = Some e3 /\
    let tx := rd (targetPositions e2) (0 * 3) in
    let px := rd (positions e2) (0 * 3) in
    rd (positions e3) (0 * 3) = 9999 /\
    rd (positions e3) (0 * 3) ≠ px + (tx - px) * (0.05 + (1 - 0) * 0.1).
Proof.
  destruct (newParticleEngine_returns harmonic white grey harmonic_range 0)
    as (e0 & Hnew & Hwf & Hact & Hcfg & _ & _ & Hpos & _).
  set (pt := {| p_x := 9500; p_y := 0; p_z := 0 |}).
  set (e1 := set_customShapePoints e0 [pt]).
  assert (Hwf1 : wf e1) by (destruct Hwf; by split).
  assert (Hs1 : setCustomShape harmonic e0 [pt] = Some e1).
  { unfold setCustomShape. cbn [currentConfig set_customShapePoints].
    rewrite Hcfg. reflexivity. }
  destruct (updateConfig_returns harmonic white grey e1 (onlyShape CUSTOM)
              Hwf1) as (e2 & Hu & Hwf2).
  destruct (updateConfig_frame harmonic white grey e1 e2 _ Hu)
    as (Hp2 & _ & _ & _ & _ & Hd2 & _).
  destruct (updateConfig_active harmonic white grey e1
              (onlyShape CUSTOM) Hwf1 Hact)
    as (e1' & Hwf1' & _ & Hcfg1' & Hpts1' & _ & Hu').
  rewrite Hu in Hu'.
  destruct (decide _) as [_|Hno] in Hu';
    [|exfalso; apply Hno; left; by eexists].
  symmetry in Hu'.
  change (currentConfig e1) with (currentConfig e0) in Hcfg1'.
  rewrite Hcfg in Hcfg1'.
  change (customShapePoints e1) with [pt] in Hpts1'.
  destruct (updateTargetShape_frame harmonic e1' e2 Hu')
    as (_ & _ & _ & _ & Hcfg2 & _).
  destruct (first_custom_target harmonic harmonic_range e1' e2 Hwf1'
              ltac:(by rewrite Hcfg1') ltac:(by rewrite Hcfg1') Hu')
    as [_ Hz].
  destruct (first_target harmonic e1' e2 Hwf1' ltac:(by rewrite Hcfg1') Hu')
    as (k & k' & _ & _ & Hgen).
  rewrite Hcfg1', Hpts1' in Hgen. cbn [shape mergeConfig onlyShape
    new_shape default shapeTarget] in Hgen.
  unfold getXYZ in Hgen.
  destruct (customTarget_spec harmonic harmonic_range _ _ _ _ _ _ _ Hgen)
    as [_ Hfull].
  destruct (Hfull ltac:(discriminate)) as (p & Hp & Hx & _).
  cbn in Hp. injection Hp as <-. cbn [p_x pt] in Hx.
  assert (Hgt : 9000 < rd (targetPositions e2) (0 * 3) < 9501).
  { unfold Rabs in Hx. destruct (Rcase_abs _) in Hx; lra. }
  destruct Hgt as [Hgt Hlt].
  destruct (animate_skips_hidden harmonic e2 0 0 Hwf2
              ltac:(rewrite Hd2; exact Hact) first_particle Hgt)
    as (e3 & Ha & Hpark).
  exists e0, e1, e2, e3.
  split; [exact Hnew|]. split; [exact Hs1|]. split; [exact Hu|].
  split.
  { rewrite Hcfg2, Hcfg1'. rewrite half_count by reflexivity. lia. }
  split.
  { intros Heq. unfold getXYZ in Heq. injection Heq as Hx9 _ _.
    change (0 * 3)%nat with 0%nat in Hlt. lra. }
  split; [exact Ha|]. cbv zeta.
  unfold getXYZ in Hpark. injection Hpark as Hx3 _ _.
  change (0 * 3)%nat with 0%nat in *.
  split; [exact Hx3|]. rewrite Hx3, Hp2.
  change (positions e1) with (positions e0).
  pose proof (Hpos 0%nat) as Hb. lra.
Qed.

(** C3 as stated fails: an updateConfig that names the current shape
    leaves shape and density at their current values and still draws new
    targets. *)
Lemma updateConfig_same_shape_regenerates :
  exists e0 e1,
    newParticleEngine harmonic white grey 0 = Some e0 /\
    updateConfig harmonic white grey e0 (onlyShape NEBULA) = Some e1 /\
    shape (currentConfig e1) = shape (currentConfig e0) /\
    density (currentConfig e1) = density (currentConfig e0) /\
    targetPositions e1 ≠ targetPositions e0.
Proof.
  destruct (newParticleEngine_returns harmonic white grey harmonic_range 0)
    as (e0 & Hnew & Hwf & Hact & Hcfg & _ & _ & _ & Ht).
  destruct (updateConfig_active harmonic white grey e0
              (onlyShape NEBULA) Hwf Hact)
    as (e2 & Hwf2 & _ & Hcfg2 & _ & Hk2 & Hu).
  destruct (decide _) as [_|Hno] in Hu;
    [|exfalso; apply Hno; left; by eexists].
  destruct (updateTargetShape_returns harmonic e2 Hwf2) as (e1 & Hu2 & _).
  rewrite Hu2 in Hu.
  rewrite Hcfg in Hcfg2.
  destruct (updateTargetShape_frame harmonic e2 e1 Hu2)
    as (_ & _ & _ & _ & Hcfg1 & _).
  exists e0, e1. split; [exact Hnew|]. split; [exact Hu|].
  rewrite Hcfg1, Hcfg2, Hcfg. split; [reflexivity|]. split; [reflexivity|].
  destruct (first_nebula_target harmonic e2 e1 Hwf2
              ltac:(by rewrite Hcfg2) ltac:(by rewrite Hcfg2) Hu2)
    as (k1 & Hk1 & _ & Hz1).
  destruct (Ht 0%nat first_particle) as [_ Hg].
  destruct (Hg ltac:(lia)) as (k0 & k0' & Hk0 & Hgen).
  destruct (nebulaTarget_spec harmonic _ _ _ _ _ Hgen) as [Hz0 ->].
  change (rd (targetPositions e0) (0 * 3 + 2)) with (rd (targetPositions e0) 2)
    in Hz0.
  intros Heq. rewrite Heq, Hz0 in Hz1.
  pose proof (harmonic_decreasing (k0 + 4) (k1 + 4) ltac:(lia)). lra.
Qed.

(** C1 fails for setCustomShape.  Construct an engine, select the Custom
    shape, dispose the engine, then hand it one point: the stored point
    sequence and the target buffer of the disposed engine both change. *)
Theorem setCustomShape_after_dispose_mutates :
  exists e0 e1 e2,
    newParticleEngine harmonic white grey 0 = Some e0 /\
    updateConfig harmonic white grey e0 (onlyShape CUSTOM) = Some e1 /\
    isDisposed (dispose e1) = true /\
    setCustomShape harmonic (dispose e1)
      [{| p_x := 0; p_y := 0; p_z := 100 |}] = Some e2 /\
    customShapePoints e2 ≠ customShapePoints (dispose e1) /\
    targetPositions e2 ≠ targetPositions (dispose e1).
Proof.
  destruct (newParticleEngine_returns harmonic white grey harmonic_range 0)
    as (e0 & Hnew & Hwf & Hact & Hcfg & Hpts & _).
  destruct (updateConfig_active harmonic white grey e0
              (onlyShape CUSTOM) Hwf Hact)
    as (e1' & Hwf1' & _ & Hcfg1' & Hpts1' & _ & Hu).
  destruct (decide _) as [_|Hno] in Hu;
    [|exfalso; apply Hno; left; by eexists].
  destruct (updateTargetShape_returns harmonic e1' Hwf1') as (e1 & Hu1 & _).
  rewrite Hu1 in Hu.
  rewrite Hcfg in Hcfg1'. rewrite Hpts in Hpts1'.
  destruct (updateTargetShape_frame harmonic e1' e1 Hu1)
    as (_ & _ & _ & _ & Hcfg1 & Hpts1 & _).
  rewrite Hcfg1' in Hcfg1. rewrite Hpts1' in Hpts1.
  pose proof (updateTargetShape_wf harmonic e1' e1 Hwf1' Hu1) as Hwf1.
  destruct (first_custom_target harmonic harmonic_range e1' e1 Hwf1'
              ltac:(by rewrite Hcfg1') ltac:(by rewrite Hcfg1') Hu1)
    as [Hz1 _].
  specialize (Hz1 Hpts1').
  set (pt := {| p_x := 0; p_y := 0; p_z := 100 |}).
  set (d := set_customShapePoints (dispose e1) [pt]).
  assert (Hwfd : wf d) by (destruct Hwf1; by split).
  destruct (updateTargetShape_returns harmonic d Hwfd) as (e2 & Hu2 & _).
  destruct (updateTargetShape_frame harmonic d e2 Hu2)
    as (_ & _ & _ & _ & _ & Hpts2 & _).
  destruct (first_custom_target harmonic harmonic_range d e2 Hwfd
              ltac:(simpl; by rewrite Hcfg1) ltac:(simpl; by rewrite Hcfg1)
              Hu2)
    as [_ Hz2].
  specialize (Hz2 pt eq_refl). simpl in Hz2.
  exists e0, e1, e2. split; [exact Hnew|]. split; [exact Hu|].
  split; [reflexivity|]. split.
  { rewrite setCustomShape_custom by (simpl; by rewrite Hcfg1). exact Hu2. }
  split.
  - rewrite Hpts2. simpl. rewrite Hpts1. discriminate.
  - simpl. intros Heq. rewrite Heq, Hz1 in Hz2.
    unfold Rabs in Hz2. destruct (Rcase_abs _) in Hz2; lra.
Qed.

(** ** The further properties at concrete inputs *)

Lemma parkedEngine_wf : wf parkedEngine.
Proof. split; apply length_replicate. Defined.

Lemma fistHand_size :
  0 < planarDist {| lm_x := 0; lm_y := 1 |} {| lm_x := 0; lm_y := 0 |}.
Proof.
  unfold planarDist, Math_sqrt. cbn [lm_x lm_y]. apply sqrt_lt_R0. lra.
Defined.

Lemma fistHand_length : (21 <= length fistHand)%nat.
Proof. unfold fistHand. rewrite length_cons, length_replicate. lia. Defined.

Lemma scroll_momentum_dies_out_witness :
  isDisposed blankEngine = false /\ 0 <= scrollVelocity blankEngine <= 0.3 /\
  exists e',
    calls harmonic white grey blankEngine (map CallAnimate (replicate 197 0.5))
      = Some e' /\
    scrollVelocity e' = 0.
Proof.
  assert (Hv : 0 <= scrollVelocity blankEngine <= 0.3).
  { change (scrollVelocity blankEngine) with 0. lra. }
  split; [reflexivity|]. split; [exact Hv|].
  destruct (scroll_momentum_dies_out harmonic white grey blankEngine
              (replicate 197 0.5) eq_refl Hv) as (e' & Hc & Hz & _).
  exists e'. split; [exact Hc|]. apply Hz. rewrite length_replicate. lia.
Defined.

Lemma animate_draws_witness :
  isDisposed blankEngine = false /\
  exists e', animate harmonic blankEngine 0 = Some e' /\
    randomCalls e' = randomCalls blankEngine.
Proof.
  split; [reflexivity|].
  destruct (animate_draws harmonic blankEngine 0 eq_refl)
    as (e' & Ha & Hclosed & _).
  exists e'. split; [exact Ha|]. apply Hclosed. lra.
Defined.

Lemma animate_isolated_particle_witness :
  wf parkedEngine /\ isDisposed parkedEngine = false /\
  rd (targetPositions parkedEngine) (0 * 3) <= 9000 /\
  exists e', animate harmonic parkedEngine 0 = Some e'.
Proof.
  assert (Ht : rd (targetPositions parkedEngine) (0 * 3) <= 9000).
  { change (targetPositions parkedEngine)
      with (replicate (MAX_PARTICLES * 3) 0).
    pose proof first_slot. rewrite rd_replicate by lia. lra. }
  split; [exact parkedEngine_wf|]. split; [reflexivity|]. split; [exact Ht|].
  destruct (animate_isolated_particle harmonic parkedEngine 0 0
              parkedEngine_wf eq_refl first_particle Ht ltac:(lra))
    as (e' & Ha & _).
  { left. rewrite buildGrid_all_hidden.
    - cbn [fst]. apply rdI_replicate.
    - intros i Hi.
      change (positions parkedEngine)
        with (replicate (MAX_PARTICLES * 3) 9999).
      rewrite rd_replicate by lia. lra. }
  exists e'. exact Ha.
Defined.

Lemma updateConfig_repaints_witness :
  wf blankEngine /\ isDisposed blankEngine = false /\
  exists e',
    updateConfig harmonic white grey blankEngine (onlyColor "#ffffff")
      = Some e' /\
    getXYZ (colors e') 0 = white "#ffffff".
Proof.
  split; [apply freshEngine_wf|]. split; [reflexivity|].
  destruct (updateConfig_repaints harmonic white grey blankEngine
              (onlyColor "#ffffff") "#ffffff"
              (freshEngine_wf initialConfig 0 []) eq_refl eq_refl
              ltac:(discriminate))
    as (e' & Hu & Hall).
  exists e'. split; [exact Hu|].
  apply (proj2 (Hall 0%nat first_particle)). discriminate.
Defined.

Lemma updateConfig_keeps_colors_witness :
  wf blankEngine /\ isDisposed blankEngine = false /\
  exists e',
    updateConfig harmonic white grey blankEngine onlySpread = Some e' /\
    colors e' = colors blankEngine.
Proof.
  split; [apply freshEngine_wf|]. split; [reflexivity|].
  destruct (updateConfig_keeps_colors harmonic white grey blankEngine
              onlySpread (freshEngine_wf initialConfig 0 []) eq_refl
              (or_introl eq_refl))
    as (e' & Hu & Hc & _).
  exists e'. split; [exact Hu|exact Hc].
Defined.

Lemma custom_shape_deferred_witness :
  wf blankEngine /\ shape (currentConfig blankEngine) <> CUSTOM /\
  exists e1 e2,
    setCustomShape harmonic blankEngine [{| p_x := 1; p_y := 2; p_z := 3 |}]
      = Some e1 /\
    updateConfig harmonic white grey e1 (onlyShape CUSTOM) = Some e2 /\
    Rabs (rd (targetPositions e2) (0 * 3 + 2) - 3) <= 0.5.
Proof.
  assert (Hs : shape (currentConfig blankEngine) <> CUSTOM) by discriminate.
  split; [apply freshEngine_wf|]. split; [exact Hs|].
  destruct (custom_shape_deferred harmonic white grey harmonic_range
              blankEngine [{| p_x := 1; p_y := 2; p_z := 3 |}]
              (freshEngine_wf initialConfig 0 []) eq_refl Hs
              ltac:(discriminate))
    as (e1 & e2 & Hs1 & _ & _ & Hu & Hall).
  exists e1, e2. split; [exact Hs1|]. split; [exact Hu|].
  destruct (Hall 0%nat first_particle) as (p & Hp & _ & _ & Hz).
  { change (currentConfig blankEngine) with initialConfig.
    rewrite initial_count. lia. }
  injection Hp as <-. exact Hz.
Defined.

Lemma disposed_is_terminal_witness :
  wf blankEngine /\
  exists e',
    calls harmonic white grey (dispose blankEngine)
      [CallAnimate 0.5; CallHandleScroll 100] = Some e' /\
    isDisposed e' = true /\ positions e' = positions blankEngine.
Proof.
  split; [apply freshEngine_wf|].
  destruct (disposed_is_terminal harmonic white grey blankEngine
              [CallAnimate 0.5; CallHandleScroll 100]
              (freshEngine_wf initialConfig 0 []))
    as (e' & Hc & Hd & Hp & _).
  exists e'. split; [exact Hc|]. split; [exact Hd|exact Hp].
Defined.

Lemma density_extremes_witness :
  wf (freshEngine (withDensity 0) (replicate (MAX_PARTICLES * 3) 0) []) /\
  wf (freshEngine (withDensity 1) (replicate (MAX_PARTICLES * 3) 0) []) /\
  (exists e',
     updateTargetShape harmonic
       (freshEngine (withDensity 0) (replicate (MAX_PARTICLES * 3) 0) [])
       = Some e' /\
     getXYZ (targetPositions e') 0 = (9999, 9999, 9999)) /\
  (exists e' k k',
     updateTargetShape harmonic
       (freshEngine (withDensity 1) (replicate (MAX_PARTICLES * 3) 0) [])
       = Some e' /\
     nebulaTarget harmonic k
       = Some (getXYZ (targetPositions e') (MAX_PARTICLES - 1), k')).
Proof.
  split; [apply freshEngine_wf|]. split; [apply freshEngine_wf|].
  split.
  - destruct (density_extremes harmonic _
                (freshEngine_wf (withDensity 0) 0 [])) as (e' & Hu & Hall).
    exists e'. split; [exact Hu|].
    apply (proj1 (Hall 0%nat first_particle)). cbn. lra.
  - destruct (density_extremes harmonic _
                (freshEngine_wf (withDensity 1) 0 [])) as (e' & Hu & Hall).
    destruct (proj2 (Hall (MAX_PARTICLES - 1)%nat
                       ltac:(pose proof first_particle; lia)))
      as (k & k' & Hg).
    + cbn. lra.
    + exists e', k, k'. split; [exact Hu|exact Hg].
Defined.

Lemma grid_chains_witness :
  length (replicate (Z.to_nat hashSize) 0%Z) = Z.to_nat hashSize /\
  length (replicate MAX_PARTICLES 0%Z) = MAX_PARTICLES /\
  forall j,
    rdI (buildGrid [] (replicate (Z.to_nat hashSize) 0%Z)
           (replicate MAX_PARTICLES 0%Z)).2 j = (-1)%Z \/
    (0 <= rdI (buildGrid [] (replicate (Z.to_nat hashSize) 0%Z)
                 (replicate MAX_PARTICLES 0%Z)).2 j < j)%Z.
Proof.
  split; [apply length_replicate|]. split; [apply length_replicate|].
  exact (proj2 (grid_chains [] (replicate (Z.to_nat hashSize) 0%Z)
                  (replicate MAX_PARTICLES 0%Z)
                  (length_replicate _ _) (length_replicate _ _))).
Defined.

Lemma repulsion_tests_newest_witness :
  length (replicate (Z.to_nat hashSize) 0%Z) = Z.to_nat hashSize /\
  length (replicate MAX_PARTICLES 0%Z) = MAX_PARTICLES /\
  let pos0 := replicate (MAX_PARTICLES * 3) 0 in
  let g :=
    buildGrid pos0 (replicate (Z.to_nat hashSize) 0%Z)
      (replicate MAX_PARTICLES 0%Z) in
  repelChain maxChecks g.2 0 (rdI g.1 (particleHash pos0 0)) pos0
  = foldl (fun p nb => repelOne 0 (Z.of_nat nb) p) pos0
      (take maxChecks
         (reverse (bucketMembers pos0 (particleHash pos0 0) MAX_PARTICLES))).
Proof.
  split; [apply length_replicate|]. split; [apply length_replicate|].
  exact (repulsion_tests_newest (replicate (MAX_PARTICLES * 3) 0)
           (replicate (MAX_PARTICLES * 3) 0)
           (replicate (Z.to_nat hashSize) 0%Z) (replicate MAX_PARTICLES 0%Z)
           0 (particleHash (replicate (MAX_PARTICLES * 3) 0) 0)
           (length_replicate _ _) (length_replicate _ _)).
Defined.

Lemma nebula_targets_bounded_witness :
  wf blankEngine /\ shape (currentConfig blankEngine) = NEBULA /\
  exists e', updateTargetShape harmonic blankEngine = Some e' /\
    Rabs (rd (targetPositions e') (0 * 3 + 2)) <= 5.
Proof.
  split; [apply freshEngine_wf|]. split; [reflexivity|].
  destruct (nebula_targets_bounded harmonic harmonic_range blankEngine
              (freshEngine_wf initialConfig 0 []) eq_refl)
    as (e' & Hu & Hall).
  exists e'. split; [exact Hu|].
  refine (proj2 (Hall 0%nat first_particle _)).
  rewrite half_count by reflexivity. lia.
Defined.

Lemma heart_targets_bounded_witness :
  wf (freshEngine (withShape HEART) (replicate (MAX_PARTICLES * 3) 0) []) /\
  exists e',
    updateTargetShape harmonic
      (freshEngine (withShape HEART) (replicate (MAX_PARTICLES * 3) 0) [])
      = Some e' /\
    Rabs (rd (targetPositions e') (0 * 3)) <= 14.4.
Proof.
  split; [apply freshEngine_wf|].
  destruct (heart_targets_bounded harmonic harmonic_range _
              (freshEngine_wf (withShape HEART) 0 []) eq_refl)
    as (e' & Hu & Hall).
  exists e'. split; [exact Hu|].
  refine (proj1 (Hall 0%nat first_particle _)).
  rewrite half_count by reflexivity. lia.
Defined.

Lemma galaxy_targets_bounded_witness :
  wf (freshEngine (withShape GALAXY) (replicate (MAX_PARTICLES * 3) 0) []) /\
  exists e',
    updateTargetShape harmonic
      (freshEngine (withShape GALAXY) (replicate (MAX_PARTICLES * 3) 0) [])
      = Some e' /\
    Rabs (rd (targetPositions e') (0 * 3 + 2)) <= 3.
Proof.
  split; [apply freshEngine_wf|].
  destruct (galaxy_targets_bounded harmonic harmonic_range _
              (freshEngine_wf (withShape GALAXY) 0 []) eq_refl)
    as (e' & Hu & Hall).
  exists e'. split; [exact Hu|].
  refine (proj2 (Hall 0%nat first_particle _)).
  rewrite half_count by reflexivity. lia.
Defined.

Lemma mobius_targets_bounded_witness :
  wf (freshEngine (withShape MOBIUS) (replicate (MAX_PARTICLES * 3) 0) []) /\
  exists e',
    updateTargetShape harmonic
      (freshEngine (withShape MOBIUS) (replicate (MAX_PARTICLES * 3) 0) [])
      = Some e' /\
    Rabs (rd (targetPositions e') (0 * 3 + 2)) <= 11.
Proof.
  split; [apply freshEngine_wf|].
  destruct (proj1 (mobius_targets_bounded harmonic harmonic_range
                     (freshEngine (withShape MOBIUS)
                        (replicate (MAX_PARTICLES * 3) 0) []))
              (freshEngine_wf (withShape MOBIUS) 0 []) eq_refl)
    as (e' & Hu & Hall).
  exists e'. split; [exact Hu|].
  refine (proj2 (proj2 (Hall 0%nat first_particle _))).
  rewrite half_count by reflexivity. lia.
Defined.

Lemma addPoint_appends_witness :
  0 < 800 /\ 0 < 600 /\ 0 <= 400 <= 800 /\ 0 <= 150 <= 600 /\ 0 <= 5 /\
  exists new,
    addPoint harmonic 800 600 5 400 150 [] 0%nat
      = Some ([] ++ new, (0 + 3 * length new)%nat) /\
    (1 <= length new)%nat.
Proof.
  assert (Hw : 0 < 800) by lra. assert (Hh : 0 < 600) by lra.
  assert (Hx : 0 <= 400 <= 800) by lra. assert (Hy : 0 <= 150 <= 600) by lra.
  assert (Hb : 0 <= 5) by lra.
  do 5 (split; [assumption|]).
  destruct (addPoint_appends harmonic harmonic_range 800 600 5 400 150 [] 0
              Hw Hh Hx Hy Hb) as (new & Ha & _ & Hn & _).
  exists new. split; [exact Ha|exact Hn].
Defined.

Lemma stroke_can_be_confirmed_witness :
  (5 <= length (replicate 5 (400, 150)))%nat /\
  exists st' k',
    stroke harmonic 800 600 400 150 (replicate 5 (400, 150)) initialDrawing 0%nat
      = Some (st', k') /\
    handleConfirm st' = Some (pointsRef st').
Proof.
  assert (Hl : (5 <= length (replicate 5 (400, 150)))%nat)
    by (rewrite length_replicate; lia).
  split; [exact Hl|].
  destruct (proj1 (stroke_can_be_confirmed harmonic 800 600 400 150
                     (replicate 5 (400, 150)) initialDrawing 0 Hl))
    as (st' & k' & new & Hs & _ & _ & Hc).
  exists st', k'. split; [exact Hs|exact Hc].
Defined.

Lemma detectHand_thresholds_witness :
  0 < planarDist {| lm_x := 0; lm_y := 1 |} {| lm_x := 0; lm_y := 0 |} /\
  exists d, detectHand true [fistHand] = Some (Some d) /\
    0 <= openness d <= 1.
Proof.
  split; [exact fistHand_size|].
  destruct (detectHand_thresholds fistHand []
              {| lm_x := 0; lm_y := 0 |} {| lm_x := 0; lm_y := 1 |} _
              eq_refl eq_refl eq_refl fistHand_size)
    as (d & Hd & Hr & _).
  exists d. split; [exact Hd|exact Hr].
Defined.

Lemma detectHand_scale_invariant_witness :
  0 < 2 /\ (21 <= length fistHand)%nat /\
  exists d d',
    detectHand true [fistHand] = Some (Some d) /\
    detectHand true [map (moveLandmark 2 1 1) fistHand] = Some (Some d') /\
    openness d' = openness d.
Proof.
  assert (Hs : 0 < 2) by lra.
  split; [exact Hs|]. split; [exact fistHand_length|].
  destruct (detectHand_scale_invariant 2 1 1 fistHand [] []
              {| lm_x := 0; lm_y := 0 |} {| lm_x := 0; lm_y := 1 |}
              Hs fistHand_length eq_refl eq_refl fistHand_size)
    as (d & d' & Hd & Hd' & Ho & _).
  exists d, d'. split; [exact Hd|]. split; [exact Hd'|exact Ho].
Defined.

Lemma syncConfig_always_regenerates_witness :
  wf blankEngine /\ isDisposed blankEngine = false /\
  exists e',
    syncConfig harmonic white grey blankEngine
      (handleConfigChange initialConfig onlySpread) = Some e' /\
    currentConfig e' = handleConfigChange initialConfig onlySpread.
Proof.
  split; [apply freshEngine_wf|]. split; [reflexivity|].
  destruct (syncConfig_always_regenerates harmonic white grey blankEngine
              initialConfig onlySpread (freshEngine_wf initialConfig 0 [])
              eq_refl)
    as (e' & k & Hs & _ & Hc & _).
  exists e'. split; [exact Hs|exact Hc].
Defined.

Lemma drawing_becomes_shape_witness :
  wf blankEngine /\ isDisposed blankEngine = false /\
  handleConfirm
    {| isDrawing := false; brushSize := 5;
       pointsRef := replicate 6 {| p_x := 1; p_y := 2; p_z := 3 |} |}
    = Some (replicate 6 {| p_x := 1; p_y := 2; p_z := 3 |}) /\
  exists e2 config',
    handleDrawComplete harmonic white grey blankEngine initialConfig
      (replicate 6 {| p_x := 1; p_y := 2; p_z := 3 |}) = Some (e2, config') /\
    shape config' = CUSTOM.
Proof.
  split; [apply freshEngine_wf|]. split; [reflexivity|].
  split; [reflexivity|].
  destruct (drawing_becomes_shape harmonic white grey harmonic_range
              blankEngine initialConfig
              {| isDrawing := false; brushSize := 5;
                 pointsRef := replicate 6 {| p_x := 1; p_y := 2; p_z := 3 |} |}
              (replicate 6 {| p_x := 1; p_y := 2; p_z := 3 |})
              (freshEngine_wf initialConfig 0 []) eq_refl eq_refl)
    as (e2 & config' & Hh & _ & _ & _ & Hs & _).
  exists e2, config'. split; [exact Hh|exact Hs].
Defined.

Lemma loopOpenness_range_witness :
  detectHand true [] = Some None /\
  loopOpenness true false false true None 0 = Some (idleOpenness 0) /\
  0 <= idleOpenness 0 <= 1.
Proof.
  split; [reflexivity|]. split; [reflexivity|].
  refine (proj1 (proj2 (loopOpenness_range true false false true true []
                          None 0 (idleOpenness 0) _ eq_refl eq_refl))).
  intros landmarks wrist mcp Hhd. discriminate Hhd.
Defined.

Lemma calls_keep_invariants_witness :
  (forall n, 0 <= harmonic n < 1) /\
  exists e0 e,
    newParticleEngine harmonic white grey 0 = Some e0 /\
    calls harmonic white grey e0
      [CallHandleScroll 100; CallAnimate 0.5; CallDispose] = Some e /\
    wf e.
Proof.
  split; [exact harmonic_range|].
  destruct (calls_keep_invariants harmonic white grey harmonic_range 0
              [CallHandleScroll 100; CallAnimate 0.5; CallDispose])
    as (e0 & e & Hn & Hc & Hwf & _).
  exists e0, e. split; [exact Hn|]. split; [exact Hc|exact Hwf].
Defined.

Lemma background_points_witness :
  (forall n, 0 <= harmonic n < 1) /\
  exists x y z, dustPoint harmonic 0%nat = Some ((x, y, z), (0 + 4)%nat) /\
    400 <= sqrt (x * x + y * y + z * z) <= 1200.
Proof.
  split; [exact harmonic_range|].
  exact (proj1 (background_points harmonic harmonic_range 0)).
Defined.
